(** * yuzu front-end: run-control thread and render-surface widget

    A shallow embedding of [src/yuzu/bootmanager.cpp]:

    - [EmuThread]: the run/pause/stop loop of [EmuThread::run], as a labelled
      machine that interleaves with requests of the other threads;
    - [GRenderWindow]: the event handlers of the render widget (touch and
      mouse translation, first-frame notification, framebuffer layout,
      OpenGL capability check).

    Collaborators that live outside the file ([Core::System], Qt, glad, the
    input layer) appear as responses handed to the code and as events the
    code emits. *)

From Stdlib Require Import Bool List ZArith QArith Qround String Lia SpecFloat.
Import ListNotations.


(* ================================================================== *)
(** * The run-control thread *)
(* ================================================================== *)

Module EmuThread.

(** [Core::System::ResultStatus].  The loop only compares a result with
    [Success]; the other enumerators are kept as a numeric code. *)
Inductive ResultStatus : Type :=
| Success
| ErrorCode (code : N).

Definition is_success (r : ResultStatus) : bool :=
  match r with
  | Success => true
  | ErrorCode _ => false
  end.

(** [VideoCore::LoadCallbackStage]: the file names [Prepare] and [Complete];
    the stages reported by the rasterizer callback are kept by number. *)
Inductive LoadCallbackStage : Type :=
| Prepare
| Complete
| Stage (id : N).

(** What the thread emits or calls, in program order. *)
Inductive event : Type :=
| EvLoadProgress (stage : LoadCallbackStage) (value total : N)
| EvDebugModeLeft
| EvDebugModeEntered
| EvRun                       (* system.Run() *)
| EvWait                      (* running_wait.Wait() *)
| EvPause                     (* system.Pause() *)
| EvSetRunning (b : bool)     (* this->SetRunning(b) *)
| EvErrorThrown (result : ResultStatus) (details : string)
| EvUnimplemented             (* UNIMPLEMENTED() reached *)
| EvShutdown.                 (* system.Shutdown() *)

Definition is_shutdown (e : event) : bool :=
  match e with EvShutdown => true | _ => false end.

Definition is_run (e : event) : bool :=
  match e with EvRun => true | _ => false end.

Definition is_unimplemented (e : event) : bool :=
  match e with EvUnimplemented => true | _ => false end.

(** Program points of [EmuThread::run].  Each one is a read of a flag another
    thread may write, or a call that leaves the thread. *)
Inductive label : Type :=
| AtStart           (* lines 63-88: thread set-up and disk resources *)
| AtLoopTest        (* while (!stop_run) *)
| AtRunningTest     (* if (running) *)
| AtRun             (* result = system.Run() *)
| AtWait            (* running_wait.Wait() *)
| AtPause           (* result = system.Pause() *)
| AtStopTest        (* if (!stop_run) after the cycle *)
| AtStepTest        (* else if (exec_step) *)
| AtUnimplemented   (* UNIMPLEMENTED() *)
| AtCvWait          (* running_cv.wait(lock, predicate) *)
| AtShutdown        (* system.Shutdown() *)
| Finished          (* run() has returned *)
| Aborted.          (* the process died in a fatal assertion *)

Definition label_eqb (a b : label) : bool :=
  match a, b with
  | AtStart, AtStart | AtLoopTest, AtLoopTest | AtRunningTest, AtRunningTest
  | AtRun, AtRun | AtWait, AtWait | AtPause, AtPause | AtStopTest, AtStopTest
  | AtStepTest, AtStepTest | AtUnimplemented, AtUnimplemented
  | AtCvWait, AtCvWait | AtShutdown, AtShutdown | Finished, Finished
  | Aborted, Aborted => true
  | _, _ => false
  end.

(** The members of [EmuThread] the loop touches, the local [was_active], and
    the program point. *)
Record machine : Type := Machine {
  pc : label;
  stop_run : bool;
  running : bool;
  exec_step : bool;
  running_guard : bool;
  was_active : bool
}.

Definition with_pc (l : label) (m : machine) : machine :=
  Machine l (stop_run m) (running m) (exec_step m) (running_guard m) (was_active m).

Definition with_running_guard (b : bool) (m : machine) : machine :=
  Machine (pc m) (stop_run m) (running m) (exec_step m) b (was_active m).

Definition with_was_active (b : bool) (m : machine) : machine :=
  Machine (pc m) (stop_run m) (running m) (exec_step m) (running_guard m) b.

Definition with_stop_run (b : bool) (m : machine) : machine :=
  Machine (pc m) b (running m) (exec_step m) (running_guard m) (was_active m).

Definition with_exec_step (b : bool) (m : machine) : machine :=
  Machine (pc m) (stop_run m) (running m) b (running_guard m) (was_active m).

(** Modelled from the spec: [EmuThread::SetRunning] is declared in
    bootmanager.h, which is not part of the sources.  The spec has it put the
    state to running or not running. *)
Definition SetRunning (b : bool) (m : machine) : machine :=
  Machine (pc m) (stop_run m) b (exec_step m) (running_guard m) (was_active m).

(** The state of a freshly started thread: every flag clear. *)
Definition init : machine :=
  Machine AtStart false false false false false.

(** What the collaborators hand back when a call returns: the result of
    [Run()] or [Pause()], the text of [GetStatusDetails()], and the progress
    reports [LoadDiskResources] makes through its callback. *)
Record response : Type := Response {
  resp_result : ResultStatus;
  resp_details : string;
  resp_progress : list (LoadCallbackStage * N * N)
}.

(** Modelled from the spec: the requests of the other threads ("an external
    stop/resume/step request", "paused externally"); the members that issue
    them are declared in bootmanager.h. *)
Inductive request : Type :=
| ReqResume      (* running := true *)
| ReqPause       (* running := false *)
| ReqStep        (* exec_step := true *)
| ReqStop.       (* stop_run := true *)

Definition deliver (q : request) (m : machine) : machine :=
  match q with
  | ReqResume => SetRunning true m
  | ReqPause => SetRunning false m
  | ReqStep => with_exec_step true m
  | ReqStop => with_stop_run true m
  end.

(** [UNIMPLEMENTED()] comes from common/assert.h, which is not part of the
    sources: whether a failed assertion only logs or kills the process is a
    parameter of the model. *)
Inductive assert_policy : Type :=
| AssertLogs
| AssertAborts.

(** Lines 102-106 and 109-113: the error path shared by [Run] and [Pause]. *)
Definition on_result (r : response) (m : machine) : machine * list event :=
  if is_success (resp_result r) then (m, [])
  else (SetRunning false (with_running_guard false m),
        [EvSetRunning false; EvErrorThrown (resp_result r) (resp_details r)]).

Definition report (p : LoadCallbackStage * N * N) : event :=
  let '(stage, value, total) := p in EvLoadProgress stage value total.

(** One step of the thread.  A step at a call ([AtRun], [AtWait], [AtPause],
    [AtStart], [AtShutdown]) is the return of that call; the time the thread
    spends blocked inside is the part of the schedule before the step. *)
Definition tick (policy : assert_policy) (r : response) (m : machine)
  : machine * list event :=
  match pc m with
  | AtStart =>
      (with_pc AtLoopTest m,
       EvLoadProgress Prepare 0 0
         :: map report (resp_progress r) ++ [EvLoadProgress Complete 0 0])
  | AtLoopTest =>
      if stop_run m then (with_pc AtShutdown m, [])
      else (with_pc AtRunningTest m, [])
  | AtRunningTest =>
      if running m
      then (with_pc AtRun (with_running_guard true m),
            if was_active m then [EvDebugModeLeft] else [])
      else (with_pc AtStepTest m, [])
  | AtRun =>
      let '(m1, errs) := on_result r m in
      (with_pc AtWait m1, EvRun :: errs)
  | AtWait => (with_pc AtPause m, [EvWait])
  | AtPause =>
      let '(m1, errs) := on_result r m in
      (with_pc AtStopTest (with_running_guard false m1), EvPause :: errs)
  | AtStopTest =>
      if stop_run m then (with_pc AtLoopTest m, [])
      else (with_pc AtLoopTest (with_was_active true m), [EvDebugModeEntered])
  | AtStepTest =>
      if exec_step m then (with_pc AtUnimplemented m, [])
      else (with_pc AtCvWait m, [])
  | AtUnimplemented =>
      (with_pc (match policy with
                | AssertLogs => AtLoopTest
                | AssertAborts => Aborted
                end) m,
       [EvUnimplemented])
  | AtCvWait =>
      if running m || exec_step m || stop_run m
      then (with_pc AtLoopTest m, [])
      else (m, [])
  | AtShutdown => (with_pc Finished m, [EvShutdown])
  | Finished => (m, [])
  | Aborted => (m, [])
  end.

(** A schedule interleaves steps of the thread with requests of the others. *)
Inductive action : Type :=
| Tick (r : response)
| Env (q : request).

Definition step (policy : assert_policy) (m : machine) (a : action)
  : machine * list event :=
  match a with
  | Tick r => tick policy r m
  | Env q => (deliver q m, [])
  end.

Fixpoint exec (policy : assert_policy) (m : machine) (sched : list action)
  : machine * list event :=
  match sched with
  | [] => (m, [])
  | a :: rest =>
      let '(m1, e1) := step policy m a in
      let '(m2, e2) := exec policy m1 rest in
      (m2, e1 ++ e2)
  end.

Definition is_tick (a : action) : bool :=
  match a with Tick _ => true | Env _ => false end.

Definition is_resume (a : action) : bool :=
  match a with Env ReqResume => true | _ => false end.

Definition is_step_request (a : action) : bool :=
  match a with Env ReqStep => true | _ => false end.

Definition count_ticks (sched : list action) : nat :=
  List.length (filter is_tick sched).

Definition count_shutdown (tr : list event) : nat :=
  List.length (filter is_shutdown tr).

(** A successful, silent response, and a failing one. *)
Definition ok : response := Response Success EmptyString [].

Definition failed (code : N) (details : string) : response :=
  Response (ErrorCode code) details [].

(** The thread on its own for [n] steps, every call succeeding. *)
Definition alone (policy : assert_policy) (n : nat) (m : machine)
  : machine * list event :=
  exec policy m (repeat (Tick ok) n).

(** A state in which the loop has just found [running] clear and is about to
    test a pending step request: thread start, a step request, two tests. *)
Definition step_pending : machine :=
  fst (exec AssertLogs init [Tick ok; Env ReqStep; Tick ok; Tick ok]).

(** A step request that is handled: the thread gets back to the blocking
    wait and no assertion has tripped on the way. *)
Definition single_step_handled (policy : assert_policy) (m : machine) : Prop :=
  exists n,
    pc (fst (alone policy n m)) = AtCvWait /\
    filter is_unimplemented (snd (alone policy n m)) = [].

(** How many steps of the thread are left, at most, once a stop is requested. *)
Definition distance (m : machine) : nat :=
  match pc m with
  | AtRunningTest => 7
  | AtRun => 6
  | AtWait => 5
  | AtPause => 4
  | AtStepTest => 4
  | AtStart => 3
  | AtStopTest => 3
  | AtUnimplemented => 3
  | AtCvWait => 3
  | AtLoopTest => 2
  | AtShutdown => 1
  | Finished => 0
  | Aborted => 0
  end.

(** The thread is neither running nor about to call [Run()]. *)
Definition settled (m : machine) : Prop :=
  running m = false /\ pc m <> AtRun.

(** 1 once [run()] has returned, 0 before. *)
Definition finished (m : machine) : nat :=
  match pc m with Finished => 1 | _ => 0 end.

(** The thread has not died in an assertion and is not about to: either a
    failed assertion only logs, or no step request is pending. *)
Definition sound (policy : assert_policy) (m : machine) : Prop :=
  pc m <> Aborted /\
  (policy = AssertLogs \/ (exec_step m = false /\ pc m <> AtUnimplemented)).

(** A run in which [Run()] fails and a stop is requested afterwards, and the
    steps the thread takes from there. *)
Definition failing_run : list action :=
  [Tick ok; Env ReqResume; Tick ok; Tick ok; Tick (failed 6 "core crashed"); Env ReqStop].

Definition wind_down : list action := repeat (Tick ok) 7.

(** "Previously paused": earlier in the execution an iteration came to the
    end of its Run/Pause cycle and found no stop requested. *)
Definition previously_paused (policy : assert_policy) (sched : list action) : Prop :=
  exists pre r post,
    sched = pre ++ Tick r :: post /\
    pc (fst (exec policy init pre)) = AtStopTest /\
    stop_run (fst (exec policy init pre)) = false.

(** The thread has called [Run()] at least once to be here. *)
Definition past_run (m : machine) : Prop :=
  was_active m = true \/ pc m = AtWait \/ pc m = AtPause \/ pc m = AtStopTest.

(** A first run, paused and resumed once. *)
Definition pause_and_resume : list action :=
  [Tick ok; Env ReqResume; Tick ok; Tick ok; Tick ok; Env ReqPause;
   Tick ok; Tick ok; Tick ok; Env ReqResume; Tick ok].

(** ** Counting what a trace holds *)

Definition count (f : event -> bool) (tr : list event) : nat :=
  List.length (filter f tr).

Definition is_pause (e : event) : bool :=
  match e with EvPause => true | _ => false end.

Definition is_wait (e : event) : bool :=
  match e with EvWait => true | _ => false end.



Definition is_debug_entered (e : event) : bool :=
  match e with EvDebugModeEntered => true | _ => false end.

Definition is_debug_left (e : event) : bool :=
  match e with EvDebugModeLeft => true | _ => false end.

Definition is_load_progress (e : event) : bool :=
  match e with EvLoadProgress _ _ _ => true | _ => false end.

(** Everything that belongs to an emulation session: the calls into the core
    and the signals about it. *)
Definition is_session (e : event) : bool :=
  match e with
  | EvRun | EvWait | EvPause | EvSetRunning _ | EvErrorThrown _ _
  | EvDebugModeLeft | EvDebugModeEntered => true
  | _ => false
  end.

Definition is_stop (a : action) : bool :=
  match a with Env ReqStop => true | _ => false end.

Definition is_env (a : action) : bool :=
  match a with Env _ => true | Tick _ => false end.


Definition any (a : action) : bool := true.

(** Between [running_guard = true] (line 100) and the end of [Pause()]. *)
Definition in_guarded_section (l : label) : bool :=
  match l with AtRun | AtWait | AtPause => true | _ => false end.

(** Between the call of [Run()] and the end of the iteration. *)
Definition in_cycle (l : label) : bool :=
  match l with AtRun | AtWait | AtPause | AtStopTest => true | _ => false end.

(** A session with a failing [Pause()], ended by a stop. *)
Definition failing_pause : list action :=
  [Tick ok; Env ReqResume; Tick ok; Tick ok; Tick ok; Tick ok;
   Tick (failed 4 "video core"); Env ReqStop; Tick ok; Tick ok; Tick ok].

(** What a listener of the two debug-mode signals sees: [Some true] while in
    debug mode, [Some false] while out of it, [None] once a signal came that
    does not fit (entered twice, or left without having entered). *)
Definition debug_signal (st : option bool) (e : event) : option bool :=
  match e with
  | EvDebugModeEntered =>
      match st with Some false => Some true | _ => None end
  | EvDebugModeLeft =>
      match st with Some true => Some false | _ => None end
  | _ => st
  end.

Definition debug_mode_after (tr : list event) : option bool :=
  fold_left debug_signal tr (Some false).

(** The program points of an idle loop, and how many steps each is away from
    the blocking wait. *)
Definition idle_distance (m : machine) : option nat :=
  match pc m with
  | AtStart => Some 4%nat
  | AtLoopTest => Some 3%nat
  | AtRunningTest => Some 2%nat
  | AtStepTest => Some 1%nat
  | AtCvWait => Some 0%nat
  | _ => None
  end.

(** How many calls of [Run()] a thread can still make once a stop is
    requested: one if it has already passed the loop test towards the Running
    branch, none otherwise. *)
Definition runs_left (m : machine) : nat :=
  match pc m with
  | AtRunningTest | AtRun => 1
  | _ => 0
  end.

(** A stop that arrives just after the loop test, with [running] still set. *)
Definition late_stop : list action :=
  [Tick ok; Env ReqResume; Tick ok; Env ReqStop].

End EmuThread.

(* ================================================================== *)
(** * The render-surface widget *)
(* ================================================================== *)

Module GRenderWindow.

(** ** Numbers

    [qreal] is an IEEE 754 double.  It is modelled by the binary64 format of
    [SpecFloat]: a product, a sum and a quotient are the exact result rounded
    to the nearest double, ties to even, and NaN, the infinities and the two
    zeros are values like the others.  A conversion whose result the C++
    standard leaves undefined yields [None]. *)

Abbreviation qreal := spec_float (only parsing).

Definition prec : Z := 53.

Definition emax : Z := 1024.

(** [qreal{0.0}]. *)
Definition zero : qreal := S754_zero false.

(** The conversion of an [int] to a double; every [int] is a double. *)
Definition of_int (n : Z) : qreal := binary_normalize prec emax n 0 false.

(** The real number a double stands for; 0 for an infinity and a NaN, which
    stand for none. *)
Definition value (x : qreal) : Q :=
  match x with
  | S754_finite s m e =>
      let n := if s then Zneg m else Zpos m in
      match e with
      | Zneg k => n # (2 ^ k)%positive
      | _ => inject_Z (n * 2 ^ e)
      end
  | _ => 0
  end.

(** A zero or a finite number. *)
Definition is_number (x : qreal) : bool :=
  match x with
  | S754_zero _ | S754_finite _ _ _ => true
  | _ => false
  end.

(** The integer nearest to a real number, halfway cases away from zero. *)
Definition round (q : Q) : Z :=
  if Qle_bool 0 q then Qfloor (q + (1 # 2)) else Qceiling (q - (1 # 2)).

(** The integer part of a real number. *)
Definition truncate (q : Q) : Z :=
  if Qle_bool 0 q then Qfloor q else Qceiling q.

(** [std::round]: the nearest integer as a double, halfway cases away from
    zero.  A double without fractional bits, an infinity and a NaN come back
    as they are; a result of zero has the sign of the argument.  The nearest
    integer of a double with fractional bits is below 2^53 and so a double
    itself. *)
Definition std_round (x : qreal) : qreal :=
  match x with
  | S754_finite s _ (Zneg _) =>
      let n := round (value x) in
      if (n =? 0)%Z then S754_zero s else of_int n
  | _ => x
  end.

(** [std::max(a, b)] is [(a < b) ? b : a]. *)
Definition std_max (a b : qreal) : qreal :=
  if SFltb a b then b else a.

Definition u32_max : Z := 4294967295.

(** [static_cast<u32>] of a double, and the implicit conversion in
    [const u32 width = ...]: the integer part if a [u32] can hold it,
    undefined otherwise, as for an infinity and a NaN. *)
Definition static_cast_u32 (x : qreal) : option Z :=
  match x with
  | S754_nan | S754_infinity _ => None
  | _ =>
      let t := truncate (value x) in
      if (0 <=? t)%Z && (t <=? u32_max)%Z then Some t else None
  end.

(** A double as the arithmetic gives it has a mantissa of at most 53 bits. *)
Definition short_mantissa (x : qreal) : bool :=
  match x with
  | S754_finite _ m _ => (Zpos m <? 2 ^ 53)%Z
  | _ => true
  end.

(** Two shapes the proofs use: the shift by which rounding shortens a
    mantissa, and the double that holds a whole number below 2^53. *)
Definition sh (M e : Z) : Z := (fexp prec emax (Zdigits2 M + e) - e)%Z.

Definition canon (s : bool) (n : Z) : qreal :=
  S754_finite s (Z.to_pos (n * 2 ^ (52 - Z.log2 n))) (Z.log2 n - 52).

(** ** Qt values *)

Record QPointF : Type := MkQPointF { xp : qreal; yp : qreal }.

Record QPoint : Type := MkQPoint { ix : Z; iy : Z }.

(** The conversion [QPointF(const QPoint&)]. *)
Definition toPointF (p : QPoint) : QPointF :=
  MkQPointF (of_int (ix p)) (of_int (iy p)).

(** A default-constructed [QPointF]. *)
Definition origin : QPointF := MkQPointF zero zero.

(** [QPointF::operator+=]. *)
Definition point_add (p q : QPointF) : QPointF :=
  MkQPointF (SFadd prec emax (xp p) (xp q)) (SFadd prec emax (yp p) (yp q)).

(** [QPointF::operator/=] with an [int] divisor, which is converted to a
    double.  Each coordinate is divided; 0.0 / 0 is a NaN. *)
Definition point_div (p : QPointF) (c : Z) : QPointF :=
  MkQPointF (SFdiv prec emax (xp p) (of_int c)) (SFdiv prec emax (yp p) (of_int c)).

(** [Qt::TouchPointState], the flag values of qnamespace.h. *)
Definition TouchPointPressed : Z := 1.
Definition TouchPointMoved : Z := 2.
Definition TouchPointStationary : Z := 4.
Definition TouchPointReleased : Z := 8.

Record TouchPoint : Type := MkTouchPoint {
  state : Z;
  pos : QPointF
}.

Record QTouchEvent : Type := MkQTouchEvent {
  touchPoints : list TouchPoint
}.

(** [Qt::MouseEventSource]. *)
Inductive MouseEventSource : Type :=
| MouseEventNotSynthesized
| MouseEventSynthesizedBySystem
| MouseEventSynthesizedByQt
| MouseEventSynthesizedByApplication.

(** [Qt::MouseButton]: the two buttons the handlers test, and the rest. *)
Inductive MouseButton : Type :=
| LeftButton
| RightButton
| OtherButton (code : Z).

Record QMouseEvent : Type := MkQMouseEvent {
  source : MouseEventSource;
  button : MouseButton;
  mouse_pos : QPoint
}.

Definition is_synthesized_by_system (s : MouseEventSource) : bool :=
  match s with MouseEventSynthesizedBySystem => true | _ => false end.

(** The types of [QEvent] that [GRenderWindow::event] tells apart. *)
Inductive QEvent : Type :=
| TouchBegin (e : QTouchEvent)
| TouchUpdate (e : QTouchEvent)
| TouchEnd
| TouchCancel
| OtherEvent.

(** ** What the widget does to its collaborators *)

Inductive effect : Type :=
| TouchPressed (x y : Z)
| TouchMoved (x y : Z)
| TouchReleased
| BeginTilt (x y : Z)
| Tilt (x y : Z)
| EndTilt
| BaseMousePressEvent                 (* QWidget::mousePressEvent *)
| BaseMouseMoveEvent                  (* QWidget::mouseMoveEvent *)
| BaseEvent                           (* QWidget::event *)
| FirstFrameDisplayed
| UpdateCurrentFramebufferLayout (width height : Z)
| LogCritical (message : string)
| LogError (message : string)
| MessageBoxCritical (title text : string)
| MessageBoxWarning (title text : string).

Definition is_first_frame_displayed (e : effect) : bool :=
  match e with FirstFrameDisplayed => true | _ => false end.

Definition is_dialog (e : effect) : bool :=
  match e with
  | MessageBoxCritical _ _ | MessageBoxWarning _ _ => true
  | _ => false
  end.

(** The slots this file connects to [QWindow::screenChanged]. *)
Inductive slot : Type :=
| SlotOnFramebufferSizeChanged.

(** The two kinds of [Core::Frontend::GraphicsContext] of this file: an
    [OpenGLSharedContext] (lines 157-226), by whether its [m_context] holds a
    context or is null, and a [DummyContext] (line 229). *)
Inductive GraphicsContext : Type :=
| OpenGLSharedContext (m_context : bool)
| DummyContext.

(** ** The widget *)

Record widget : Type := Widget {
  first_frame : bool;
  width : Z;                            (* QWidget::width() *)
  height : Z;                           (* QWidget::height() *)
  devicePixelRatioF : qreal;
  screenChanged : list slot;            (* connections of the window signal *)
  main_context : option GraphicsContext;   (* None: a null pointer *)
  child_context : option GraphicsContext
}.

Definition with_first_frame (b : bool) (w : widget) : widget :=
  Widget b (width w) (height w) (devicePixelRatioF w) (screenChanged w)
         (main_context w) (child_context w).

Definition with_size (nw nh : Z) (w : widget) : widget :=
  Widget (first_frame w) nw nh (devicePixelRatioF w) (screenChanged w)
         (main_context w) (child_context w).

Definition with_ratio (r : qreal) (w : widget) : widget :=
  Widget (first_frame w) (width w) (height w) r (screenChanged w)
         (main_context w) (child_context w).

Definition with_screenChanged (l : list slot) (w : widget) : widget :=
  Widget (first_frame w) (width w) (height w) (devicePixelRatioF w) l
         (main_context w) (child_context w).

Definition with_main_context (c : option GraphicsContext) (w : widget) : widget :=
  Widget (first_frame w) (width w) (height w) (devicePixelRatioF w)
         (screenChanged w) c (child_context w).

Definition with_child_context (c : option GraphicsContext) (w : widget) : widget :=
  Widget (first_frame w) (width w) (height w) (devicePixelRatioF w)
         (screenChanged w) (main_context w) c.

(** Lines 376-378. *)
Definition windowPixelRatio (w : widget) : qreal := devicePixelRatioF w.

(** Lines 380-384. *)
Definition ScaleTouch (w : widget) (p : QPointF) : option (Z * Z) :=
  let pixel_ratio := windowPixelRatio w in
  match static_cast_u32 (std_max (std_round (SFmul prec emax (xp p) pixel_ratio)) zero),
        static_cast_u32 (std_max (std_round (SFmul prec emax (yp p) pixel_ratio)) zero) with
  | Some x, Some y => Some (x, y)
  | _, _ => None
  end.

(** Lines 326-331. *)
Definition PollEvents (w : widget) : widget * list effect :=
  if first_frame w then (w, [])
  else (with_first_frame true w, [FirstFrameDisplayed]).

(** Lines 342-349. *)
Definition OnFramebufferSizeChanged (w : widget) : option (list effect) :=
  let pixel_ratio := windowPixelRatio w in
  match static_cast_u32 (SFmul prec emax (of_int (width w)) pixel_ratio),
        static_cast_u32 (SFmul prec emax (of_int (height w)) pixel_ratio) with
  | Some fw, Some fh => Some [UpdateCurrentFramebufferLayout fw fh]
  | _, _ => None
  end.

(** Lines 489-492; [QWidget::resizeEvent] does nothing the model sees. *)
Definition resizeEvent (w : widget) : option (list effect) :=
  OnFramebufferSizeChanged w.

(** [QObject::connect] with [Qt::UniqueConnection]: a connection that is
    already there is not made again. *)
Definition connect_unique (s : slot) (l : list slot) : list slot :=
  if existsb (fun s' => match s, s' with
                        | SlotOnFramebufferSizeChanged, SlotOnFramebufferSizeChanged => true
                        end) l
  then l else l ++ [s].

(** Lines 689-695. *)
Definition showEvent (w : widget) : widget :=
  with_screenChanged (connect_unique SlotOnFramebufferSizeChanged (screenChanged w)) w.

Definition invoke (w : widget) (s : slot) : option (list effect) :=
  match s with
  | SlotOnFramebufferSizeChanged => OnFramebufferSizeChanged w
  end.

(** Emission of a signal: every connected slot runs, in connection order. *)
Fixpoint emit (w : widget) (l : list slot) : option (list effect) :=
  match l with
  | [] => Some []
  | s :: rest =>
      match invoke w s, emit w rest with
      | Some e1, Some e2 => Some (e1 ++ e2)
      | _, _ => None
      end
  end.

(** ** Touch events *)

(** Lines 441-445.  [QList::first] on an empty list is undefined. *)
Definition TouchBeginEvent (w : widget) (ev : QTouchEvent) : option (list effect) :=
  match touchPoints ev with
  | [] => None
  | tp :: _ =>
      match ScaleTouch w (pos tp) with
      | Some (x, y) => Some [TouchPressed x y]
      | None => None
      end
  end.

(** [Qt::TouchPointPressed | Qt::TouchPointMoved | Qt::TouchPointStationary]. *)
Definition active_mask : Z :=
  Z.lor TouchPointPressed (Z.lor TouchPointMoved TouchPointStationary).

(** The test of line 453. *)
Definition is_active (tp : TouchPoint) : bool :=
  negb (Z.land (state tp) active_mask =? 0)%Z.

(** The body of the loop of lines 452-457 on the pair [(pos, active_points)].
    [active_points] is an [int]; a [QList] holds fewer than 2^31 elements, so
    the counter does not wrap. *)
Definition accumulate (acc : QPointF * Z) (tp : TouchPoint) : QPointF * Z :=
  if is_active tp then (point_add (fst acc) (pos tp), (snd acc + 1)%Z) else acc.

(** The state after the loop. *)
Definition average_loop (tps : list TouchPoint) : QPointF * Z :=
  fold_left accumulate tps (origin, 0%Z).

(** Lines 447-463.  The sum is divided by the count whatever the count is. *)
Definition TouchUpdateEvent (w : widget) (ev : QTouchEvent) : option (list effect) :=
  let '(sum, active_points) := average_loop (touchPoints ev) in
  let mean := point_div sum active_points in
  match ScaleTouch w mean with
  | Some (x, y) => Some [TouchMoved x y]
  | None => None
  end.

(** Lines 465-467. *)
Definition TouchEndEvent (w : widget) : option (list effect) :=
  Some [TouchReleased].

(** Lines 469-482. *)
Definition event (w : widget) (e : QEvent) : option (list effect) :=
  match e with
  | TouchBegin te => TouchBeginEvent w te
  | TouchUpdate te => TouchUpdateEvent w te
  | TouchEnd | TouchCancel => TouchEndEvent w
  | OtherEvent => Some [BaseEvent]
  end.

(** ** Mouse events *)

(** Lines 399-413. *)
Definition mousePressEvent (w : widget) (ev : QMouseEvent) : option (list effect) :=
  if is_synthesized_by_system (source ev) then Some []
  else
    let p := mouse_pos ev in
    match button ev with
    | LeftButton =>
        match ScaleTouch w (toPointF p) with
        | Some (x, y) => Some [TouchPressed x y; BaseMousePressEvent]
        | None => None
        end
    | RightButton => Some [BeginTilt (ix p) (iy p); BaseMousePressEvent]
    | OtherButton _ => Some [BaseMousePressEvent]
    end.

(** Lines 415-426. *)
Definition mouseMoveEvent (w : widget) (ev : QMouseEvent) : option (list effect) :=
  if is_synthesized_by_system (source ev) then Some []
  else
    let p := mouse_pos ev in
    match ScaleTouch w (toPointF p) with
    | Some (x, y) => Some [TouchMoved x y; Tilt (ix p) (iy p); BaseMouseMoveEvent]
    | None => None
    end.

(** Lines 428-439. *)
Definition mouseReleaseEvent (w : widget) (ev : QMouseEvent) : option (list effect) :=
  if is_synthesized_by_system (source ev) then Some []
  else
    match button ev with
    | LeftButton => Some [TouchReleased]
    | RightButton => Some [EndTilt]
    | OtherButton _ => Some []
    end.

(** ** OpenGL capability check *)

(** What glad reports: the result of [gladLoadGL()] and the extension flags
    it leaves behind. *)
Record glad : Type := Glad {
  gladLoadGL : bool;
  GLAD_GL_ARB_buffer_storage : bool;
  GLAD_GL_ARB_direct_state_access : bool;
  GLAD_GL_ARB_vertex_type_10f_11f_11f_rev : bool;
  GLAD_GL_ARB_texture_mirror_clamp_to_edge : bool;
  GLAD_GL_ARB_multi_bind : bool;
  GLAD_GL_ARB_clip_control : bool;
  GLAD_GL_EXT_texture_compression_s3tc : bool;
  GLAD_GL_ARB_texture_compression_rgtc : bool;
  GLAD_GL_ARB_depth_buffer_float : bool
}.

(** [if (!flag) unsupported_ext.append(name);] *)
Definition append_unless (flag : bool) (name : string) (l : list string) : list string :=
  if flag then l else l ++ [name].

(** Lines 651-679, without the log lines (see [log_unsupported]). *)
Definition GetUnsupportedGLExtensions (g : glad) : list string :=
  let unsupported_ext := [] in
  let unsupported_ext :=
    append_unless (GLAD_GL_ARB_buffer_storage g) "ARB_buffer_storage" unsupported_ext in
  let unsupported_ext :=
    append_unless (GLAD_GL_ARB_direct_state_access g) "ARB_direct_state_access" unsupported_ext in
  let unsupported_ext :=
    append_unless (GLAD_GL_ARB_vertex_type_10f_11f_11f_rev g)
      "ARB_vertex_type_10f_11f_11f_rev" unsupported_ext in
  let unsupported_ext :=
    append_unless (GLAD_GL_ARB_texture_mirror_clamp_to_edge g)
      "ARB_texture_mirror_clamp_to_edge" unsupported_ext in
  let unsupported_ext :=
    append_unless (GLAD_GL_ARB_multi_bind g) "ARB_multi_bind" unsupported_ext in
  let unsupported_ext :=
    append_unless (GLAD_GL_ARB_clip_control g) "ARB_clip_control" unsupported_ext in
  let unsupported_ext :=
    append_unless (GLAD_GL_EXT_texture_compression_s3tc g)
      "EXT_texture_compression_s3tc" unsupported_ext in
  let unsupported_ext :=
    append_unless (GLAD_GL_ARB_texture_compression_rgtc g)
      "ARB_texture_compression_rgtc" unsupported_ext in
  let unsupported_ext :=
    append_unless (GLAD_GL_ARB_depth_buffer_float g) "ARB_depth_buffer_float" unsupported_ext in
  unsupported_ext.

(** Lines 675-676. *)
Definition log_unsupported (l : list string) : list effect :=
  map (fun ext => LogCritical ("Unsupported GL extension: " ++ ext)%string) l.

Definition missing_extensions_title : string := "Error while initializing OpenGL!".

Definition missing_extensions_text : string :=
  "Your GPU may not support one or more required OpenGL extensions. Please ensure you have the latest graphics driver.<br><br>Unsupported extensions:<br>".

(** Lines 629-649 from [gladLoadGL] on.  The shared context acquired for the
    scope of the call has no part in the result; what making and dropping it
    does is in [LoadOpenGL_in_context]. *)
Definition LoadOpenGL (g : glad) : bool * list effect :=
  if negb (gladLoadGL g)
  then (false,
        [MessageBoxCritical "Error while initializing OpenGL 4.3!"
           "Your GPU may not support OpenGL 4.3, or you do not have the latest graphics driver."])
  else
    let unsupported_gl_extensions := GetUnsupportedGLExtensions g in
    let logged := log_unsupported unsupported_gl_extensions in
    match unsupported_gl_extensions with
    | [] => (true, logged)
    | _ :: _ =>
        (false,
         logged ++
         [MessageBoxCritical missing_extensions_title
            (missing_extensions_text ++ String.concat "<br>" unsupported_gl_extensions)%string])
    end.

(** The nine extensions the check is about, each with the flag that reports
    it: the fixed list, as a table to compare the code with. *)
Definition required_extensions : list (string * (glad -> bool)) :=
  [ ("ARB_buffer_storage"%string, GLAD_GL_ARB_buffer_storage);
    ("ARB_direct_state_access"%string, GLAD_GL_ARB_direct_state_access);
    ("ARB_vertex_type_10f_11f_11f_rev"%string, GLAD_GL_ARB_vertex_type_10f_11f_11f_rev);
    ("ARB_texture_mirror_clamp_to_edge"%string, GLAD_GL_ARB_texture_mirror_clamp_to_edge);
    ("ARB_multi_bind"%string, GLAD_GL_ARB_multi_bind);
    ("ARB_clip_control"%string, GLAD_GL_ARB_clip_control);
    ("EXT_texture_compression_s3tc"%string, GLAD_GL_EXT_texture_compression_s3tc);
    ("ARB_texture_compression_rgtc"%string, GLAD_GL_ARB_texture_compression_rgtc);
    ("ARB_depth_buffer_float"%string, GLAD_GL_ARB_depth_buffer_float) ].

Definition unsupported_in (g : glad) (e : string * (glad -> bool)) : bool :=
  negb (snd e g).

(** ** Render target *)

(** [Settings::RendererBackend]. *)
Inductive RendererBackend : Type :=
| OpenGL
| Vulkan.

(** What a Qt call that may resize the widget leaves behind: the size the
    widget has afterwards, and whether Qt delivered the [QResizeEvent] before
    the call returned, as it does for a visible widget whose size changed. *)
Record qt_resized : Type := QtResized {
  new_size : Z * Z;
  event_sent : bool
}.

(** What [InitRenderTarget] finds around it: the configured backend, the
    build flags, the context library, two constants of other files, Qt and
    the driver. *)
Record render_env : Type := RenderEnv {
  renderer_backend : RendererBackend;  (* Settings::values.renderer_backend *)
  has_opengl : bool;                   (* HAS_OPENGL *)
  has_vulkan : bool;                   (* HAS_VULKAN *)
  g_first_context : bool;              (* not null when line 582 reads it *)
  GLContext_Create : nat -> bool;      (* the n-th [GLContext::Create] of the
                                          initialisation gives a context *)
  ScreenUndocked : Z * Z;              (* Layout::ScreenUndocked::Width, Height *)
  min_client_area_size : Z * Z;        (* GetActiveConfig().min_client_area_size *)
  QWidget_setMinimumSize : Z * Z -> Z * Z -> qt_resized;
                                       (* the minimum asked for, the size before *)
  QWidget_resize : Z * Z -> Z * Z -> qt_resized;
                                       (* the size asked for, the size before *)
  driver : glad
}.

Definition keep (w : widget) (r : option (list effect)) : option (widget * list effect) :=
  match r with
  | Some e => Some (w, e)
  | None => None
  end.

(** One step after another, as long as the behaviour is defined; the effects
    add up. *)
Definition and_then {A B : Type} (r : option (A * list effect))
           (k : A -> option (B * list effect)) : option (B * list effect) :=
  match r with
  | None => None
  | Some (a, e1) =>
      match k a with
      | None => None
      | Some (b, e2) => Some (b, e1 ++ e2)
      end
  end.

Notation "x <- r ;; k" := (and_then r (fun x => k))
  (at level 61, r at next level, right associativity).

(** Lines 160-175, the constructor of the main context. *)
Definition new_main_context (created : bool) : GraphicsContext * list effect :=
  if created then (OpenGLSharedContext true, [])
  else (OpenGLSharedContext false, [LogError "Unable to create main openGL context"]).

(** Lines 178-195, the constructor of a shared context with [main_wsi] set,
    as in both uses of this file.  Line 185 calls through [share_context],
    which is undefined for a null pointer. *)
Definition new_shared_context (created share_context : bool)
  : option (GraphicsContext * list effect) :=
  if created then
    if share_context then Some (OpenGLSharedContext true, []) else None
  else Some (OpenGLSharedContext false,
             [LogError "Unable to create shared openGL context"]).

(** The end of a context.  The destructor of an [OpenGLSharedContext] (lines
    196-198) calls [DoneCurrent], which calls through [m_context] (lines
    211-213). *)
Definition destroy (c : GraphicsContext) : option unit :=
  match c with
  | OpenGLSharedContext m_context => if m_context then Some tt else None
  | DummyContext => Some tt
  end.

(** A smart pointer lets go of what it holds: [reset], and assignment. *)
Definition drop (c : option GraphicsContext) : option unit :=
  match c with
  | None => Some tt
  | Some c => destroy c
  end.

(** Lines 549-552. *)
Definition ReleaseRenderTarget (w : widget) : option widget :=
  match drop (child_context w) with
  | None => None
  | Some _ =>
      let w := with_child_context None w in
      match drop (main_context w) with
      | None => None
      | Some _ => Some (with_main_context None w)
      end
  end.

(** Lines 580-612.  [main_gl_context] and [child_gl_context] are the first
    and the second context asked for; the constructors of lines 601 and 603
    ask for the third and the fourth.  With [g_first_context] set, a failed
    first creation is not noticed and line 599 calls through the null
    pointer.  What [ShareWith] does with a null argument is not in this
    file. *)
Definition InitializeOpenGL (env : render_env) (w : widget)
  : option (widget * bool * list effect) :=
  if has_opengl env then
    let oldContext := g_first_context env in
    let main_gl_context := GLContext_Create env 0 in
    if negb oldContext && negb main_gl_context then Some (w, false, [])
    else
      let child_gl_context := GLContext_Create env 1 in
      if negb main_gl_context then None
      else
        let '(context, e1) := new_main_context (GLContext_Create env 2) in
        match new_shared_context (GLContext_Create env 3)
                (match context with
                 | OpenGLSharedContext m_context => m_context
                 | DummyContext => false
                 end) with
        | None => None
        | Some (child, e2) =>
            match drop (child_context w), drop (main_context w) with
            | Some _, Some _ =>
                Some (with_main_context (Some context)
                        (with_child_context (Some child) w),
                      true, e1 ++ e2)
            | _, _ => None
            end
        end
  else Some (w, false,
             [MessageBoxWarning "OpenGL not available!"
                "yuzu has not been compiled with OpenGL support."]).

(** Lines 614-627. *)
Definition InitializeVulkan (env : render_env) (w : widget)
  : option (widget * bool * list effect) :=
  if has_vulkan env then
    match drop (main_context w) with
    | None => None
    | Some _ => Some (with_main_context (Some DummyContext) w, true, [])
    end
  else Some (w, false,
             [MessageBoxCritical "Vulkan not available!"
                "yuzu has not been compiled with Vulkan support."]).

(** Lines 494-504: the [n]-th context asked for is shared with the main
    context.  The cast of line 497 is to the type the main context has when
    the backend is OpenGL. *)
Definition CreateSharedContext (env : render_env) (n : nat) (w : widget)
  : option (GraphicsContext * list effect) :=
  if has_opengl env then
    match renderer_backend env with
    | OpenGL =>
        match main_context w with
        | Some (OpenGLSharedContext share_context) =>
            new_shared_context (GLContext_Create env n) share_context
        | _ => None
        end
    | Vulkan => Some (DummyContext, [])
    end
  else Some (DummyContext, []).

(** Lines 629-649 as a whole, for the fifth context asked for: the context is
    made, the check runs, and the context ends with the call.  [Acquire]
    (line 631) belongs to the base class and is not in this file. *)
Definition LoadOpenGL_in_context (env : render_env) (w : widget)
  : option (bool * list effect) :=
  context <- CreateSharedContext env 4 w ;;
  let '(loaded, e) := LoadOpenGL (driver env) in
  match destroy context with
  | None => None
  | Some _ => Some (loaded, e)
  end.

Definition size (w : widget) : Z * Z := (width w, height w).

(** A Qt call that may resize the widget: the widget has its new size, and
    if Qt delivers the event, [resizeEvent] runs inside the call. *)
Definition resized_by (r : qt_resized) (w : widget) : option (widget * list effect) :=
  let w' := with_size (fst (new_size r)) (snd (new_size r)) w in
  if event_sent r then keep w' (resizeEvent w') else Some (w', []).

(** The conversion of a [u32] to the [int] that [setMinimumSize] takes. *)
Definition int_of_u32 (u : Z) : Z :=
  if (u <? 2147483648)%Z then u else (u - 4294967296)%Z.

(** Lines 576-578. *)
Definition OnMinimalClientAreaChangeRequest (env : render_env) (minimal_size : Z * Z)
           (w : widget) : option (widget * list effect) :=
  resized_by
    (QWidget_setMinimumSize env
       (int_of_u32 (fst minimal_size), int_of_u32 (snd minimal_size)) (size w))
    w.

(** Lines 532-537: the minimum size is reset, the widget is resized to the
    undocked screen, the minimum size of the configuration is set, and the
    framebuffer layout is recomputed. *)
Definition reset_size (env : render_env) (w : widget) : option (widget * list effect) :=
  w <- resized_by (QWidget_setMinimumSize env (1, 1)%Z (size w)) w ;;
  w <- resized_by (QWidget_resize env (ScreenUndocked env) (size w)) w ;;
  w <- OnMinimalClientAreaChangeRequest env (min_client_area_size env) w ;;
  keep w (OnFramebufferSizeChanged w).

(** Lines 506-547.  [BackupGeometry] (line 538) is with the window geometry
    below. *)
Definition InitRenderTarget (env : render_env) (w : widget)
  : option (widget * bool * list effect) :=
  match ReleaseRenderTarget w with
  | None => None
  | Some w =>
      let w := with_first_frame false w in
      match match renderer_backend env with
            | OpenGL => InitializeOpenGL env w
            | Vulkan => InitializeVulkan env w
            end with
      | None => None
      | Some (w, false, e1) => Some (w, false, e1)
      | Some (w, true, e1) =>
          match reset_size env w with
          | None => None
          | Some (w, e2) =>
              match renderer_backend env with
              | OpenGL =>
                  match LoadOpenGL_in_context env w with
                  | None => None
                  | Some (loaded, e3) => Some (w, loaded, e1 ++ e2 ++ e3)
                  end
              | Vulkan => Some (w, true, e1 ++ e2)
              end
          end
      end
  end.

(** ** The widget over time

    What Qt and the emulation deliver to the widget, one call at a time. *)
Inductive op : Type :=
| OpInitRenderTarget (env : render_env)
| OpPollEvents
| OpShowEvent
| OpResize (nw nh : Z)            (* the widget gets a new size: resizeEvent *)
| OpScreenChanged (ratio : qreal) (* the window moves to a screen: screenChanged *)
| OpEvent (e : QEvent)
| OpMousePress (ev : QMouseEvent)
| OpMouseMove (ev : QMouseEvent)
| OpMouseRelease (ev : QMouseEvent).

Definition is_init (o : op) : bool :=
  match o with OpInitRenderTarget _ => true | _ => false end.

Definition is_poll (o : op) : bool :=
  match o with OpPollEvents => true | _ => false end.

Definition is_show (o : op) : bool :=
  match o with OpShowEvent => true | _ => false end.

Definition apply_op (w : widget) (o : op) : option (widget * list effect) :=
  match o with
  | OpInitRenderTarget env =>
      match InitRenderTarget env w with
      | Some (w', _, e) => Some (w', e)
      | None => None
      end
  | OpPollEvents => Some (PollEvents w)
  | OpShowEvent => Some (showEvent w, [])
  | OpResize nw nh => let w' := with_size nw nh w in keep w' (resizeEvent w')
  | OpScreenChanged ratio =>
      let w' := with_ratio ratio w in keep w' (emit w' (screenChanged w'))
  | OpEvent e => keep w (event w e)
  | OpMousePress ev => keep w (mousePressEvent w ev)
  | OpMouseMove ev => keep w (mouseMoveEvent w ev)
  | OpMouseRelease ev => keep w (mouseReleaseEvent w ev)
  end.

Fixpoint run (w : widget) (ops : list op) : option (widget * list effect) :=
  match ops with
  | [] => Some (w, [])
  | o :: rest =>
      match apply_op w o with
      | None => None
      | Some (w1, e1) =>
          match run w1 rest with
          | None => None
          | Some (w2, e2) => Some (w2, e1 ++ e2)
          end
      end
  end.

(** A widget just constructed: [first_frame] is clear and nothing is
    connected to the window yet. *)
Definition fresh (w h : Z) (ratio : qreal) : widget :=
  Widget false w h ratio [] None None.

Definition count_first_frame (es : list effect) : nat :=
  List.length (filter is_first_frame_displayed es).

(** ** The intended values, to compare the code with *)

(** "Rounded, clamped at zero": the integer nearest to the number, halfway
    cases away from zero, and 0 where that is negative.  A NaN and the
    positive infinity have no nearest integer, and a [u32] has to hold the
    result. *)
Definition rounded_clamped (p : qreal) : option Z :=
  match p with
  | S754_nan | S754_infinity false => None
  | S754_infinity true => Some 0%Z
  | _ =>
      let n := Z.max 0 (round (value p)) in
      if (n <=? u32_max)%Z then Some n else None
  end.

(** "Scaled by the device pixel ratio (rounded, clamped at zero)". *)
Definition scaled (ratio c : qreal) : option Z :=
  rounded_clamped (SFmul prec emax c ratio).

(** The sum of doubles, from 0.0 on, in the order of the list. *)
Definition sum (l : list qreal) : qreal :=
  fold_left (SFadd prec emax) l zero.

Definition sum_x (ps : list QPointF) : qreal := sum (map xp ps).

Definition sum_y (ps : list QPointF) : qreal := sum (map yp ps).

(** "The arithmetic mean of the positions": the sum divided by the number of
    positions. *)
Definition mean_x (ps : list QPointF) : qreal :=
  SFdiv prec emax (sum_x ps) (of_int (Z.of_nat (List.length ps))).

Definition mean_y (ps : list QPointF) : qreal :=
  SFdiv prec emax (sum_y ps) (of_int (Z.of_nat (List.length ps))).

(** The points that are pressed, moved or stationary. *)
Definition active_points (ev : QTouchEvent) : list TouchPoint :=
  filter is_active (touchPoints ev).

(** A pair of coordinates is forwarded when both exist. *)
Definition forward (f : Z -> Z -> effect) (x y : option Z) : option (list effect) :=
  match x, y with
  | Some x, Some y => Some [f x y]
  | _, _ => None
  end.

(** A position with whole coordinates. *)
Definition at_point (x y : Z) : QPointF := MkQPointF (of_int x) (of_int y).

(** The doubles nearest to 1.5 and to 1.15. *)
Definition ratio_1_5 : qreal := S754_finite false 6755399441055744 (-52).

Definition ratio_1_15 : qreal := S754_finite false 5179139571476070 (-52).

(** One finger has just left the surface, another is moving. *)
Definition lift_and_move : QTouchEvent :=
  MkQTouchEvent
    [ MkTouchPoint TouchPointReleased (at_point 0 0);
      MkTouchPoint TouchPointMoved (at_point 10 10) ].

(** One finger put down at (50,30) while another moves at (21,40). *)
Definition press_and_move : QTouchEvent :=
  MkQTouchEvent
    [ MkTouchPoint TouchPointPressed (at_point 50 30);
      MkTouchPoint TouchPointMoved (at_point 21 40) ].

(** Every finger has left the surface. *)
Definition all_released : QTouchEvent :=
  MkQTouchEvent
    [ MkTouchPoint TouchPointReleased (at_point 3 4);
      MkTouchPoint TouchPointReleased (at_point 10 10) ].

(** A widget of 1280 by 720 on a screen of pixel ratio 1, one of ratio 2 and
    one of ratio 1.15. *)
Definition plain_widget : widget := fresh 1280 720 (of_int 1).

Definition retina_widget : widget := fresh 1280 720 (of_int 2).

Definition scaled_widget : widget := fresh 1280 720 ratio_1_15.

(** A driver with every required extension, and one that lacks two. *)
Definition full_driver : glad :=
  Glad true true true true true true true true true true.

Definition old_driver : glad :=
  Glad true true false true true true true true false true.

(** Qt for a widget that is not visible: it takes the size asked for, grows
    to a new minimum, and hears of it later.  And for a visible one, which
    gets the event at once when its size changes. *)
Definition grown (minimum before : Z * Z) : Z * Z :=
  (Z.max (fst minimum) (fst before), Z.max (snd minimum) (snd before)).

Definition same_size (a b : Z * Z) : bool :=
  (fst a =? fst b)%Z && (snd a =? snd b)%Z.

Definition hidden_setMinimumSize (minimum before : Z * Z) : qt_resized :=
  QtResized (grown minimum before) false.

Definition hidden_resize (asked before : Z * Z) : qt_resized :=
  QtResized asked false.

Definition visible_setMinimumSize (minimum before : Z * Z) : qt_resized :=
  QtResized (grown minimum before) (negb (same_size (grown minimum before) before)).

Definition visible_resize (asked before : Z * Z) : qt_resized :=
  QtResized asked (negb (same_size asked before)).

(** A build with both backends in which every context can be made: set to
    Vulkan around a hidden widget, and set to OpenGL around a visible one. *)
Definition vulkan_env : render_env :=
  RenderEnv Vulkan true true false (fun _ => true) (1280, 720)%Z (640, 360)%Z
            hidden_setMinimumSize hidden_resize full_driver.

Definition visible_env : render_env :=
  RenderEnv OpenGL true true false (fun _ => true) (1280, 720)%Z (640, 360)%Z
            visible_setMinimumSize visible_resize full_driver.

(** A build in which an earlier context exists and no new one can be made. *)
Definition no_context_env : render_env :=
  RenderEnv OpenGL true true true (fun _ => false) (1280, 720)%Z (640, 360)%Z
            hidden_setMinimumSize hidden_resize full_driver.

(** A widget that has already shown the first frame of an earlier session. *)
Definition used_widget : widget := fst (PollEvents plain_widget).

(** A double whose integer part a [u32] can hold. *)
Definition in_u32 (p : qreal) : Prop :=
  is_number p = true /\ 0 <= value p /\ value p < 4294967296.

(** An [int]. *)
Definition is_int (z : Z) : Prop :=
  (- 2147483648 <= z <= 2147483647)%Z.

(** The widget is shown (twice, as after a reparenting) and then resized. *)
Definition shown_and_resized : list op :=
  [OpShowEvent; OpShowEvent; OpResize 800 600].

(** One finger put down at (10,20), and the left-button press the system
    makes up for it. *)
Definition one_finger : QTouchEvent :=
  MkQTouchEvent [MkTouchPoint TouchPointPressed (at_point 10 20)].

Definition synthesized_press : QMouseEvent :=
  MkQMouseEvent MouseEventSynthesizedBySystem LeftButton (MkQPoint 10 20).

(** ** Kinds of effects *)

Definition is_touch_call (e : effect) : bool :=
  match e with
  | TouchPressed _ _ | TouchMoved _ _ | TouchReleased => true
  | _ => false
  end.

Definition is_touch_pressed (e : effect) : bool :=
  match e with TouchPressed _ _ => true | _ => false end.

Definition is_touch_released (e : effect) : bool :=
  match e with TouchReleased => true | _ => false end.

Definition is_begin_tilt (e : effect) : bool :=
  match e with BeginTilt _ _ => true | _ => false end.

Definition is_end_tilt (e : effect) : bool :=
  match e with EndTilt => true | _ => false end.

Definition is_layout_update (e : effect) : bool :=
  match e with UpdateCurrentFramebufferLayout _ _ => true | _ => false end.

Definition is_log (e : effect) : bool :=
  match e with LogCritical _ => true | _ => false end.

Definition is_touch_event (e : QEvent) : bool :=
  match e with OtherEvent => false | _ => true end.

(** Two fingers resting and one lifted, and the same without the lifted one. *)
Definition three_fingers : QTouchEvent :=
  MkQTouchEvent
    [ MkTouchPoint TouchPointStationary (at_point 4 8);
      MkTouchPoint TouchPointReleased (at_point 100 100);
      MkTouchPoint TouchPointMoved (at_point 8 16) ].

Definition two_fingers : QTouchEvent :=
  MkQTouchEvent
    [ MkTouchPoint TouchPointStationary (at_point 4 8);
      MkTouchPoint TouchPointMoved (at_point 8 16) ].

(** ** Window geometry (lines 351-374)

    [QWidget::saveGeometry] and [QWidget::restoreGeometry] belong to Qt: what
    Qt keeps about the place of the widget is a type of its own here, and the
    two functions are whatever Qt makes them. *)

Definition QByteArray : Type := list Byte.byte.

Section Geometry.

Context {qwidget : Type}.
Variable QWidget_saveGeometry : qwidget -> QByteArray.
Variable QWidget_restoreGeometry : QByteArray -> qwidget -> qwidget.

(** The base-class state, the member [geometry] and whether [parent()] is
    set. *)
Record window : Type := Window {
  qt : qwidget;
  geometry : QByteArray;
  has_parent : bool
}.

(** Lines 351-353. *)
Definition BackupGeometry (v : window) : window :=
  Window (qt v) (QWidget_saveGeometry (qt v)) (has_parent v).

(** Lines 355-358. *)
Definition RestoreGeometry (v : window) : window :=
  Window (QWidget_restoreGeometry (geometry v) (qt v)) (geometry v) (has_parent v).

(** Lines 360-364. *)
Definition restoreGeometry (g : QByteArray) (v : window) : window :=
  BackupGeometry (Window (QWidget_restoreGeometry g (qt v)) (geometry v) (has_parent v)).

(** Lines 366-374. *)
Definition saveGeometry (v : window) : QByteArray :=
  if has_parent v then geometry v else QWidget_saveGeometry (qt v).

(** What happens to the window between two looks at its geometry: calls of
    the members above, Qt moving or resizing the widget, and a new parent. *)
Inductive geometry_call : Type :=
| CallBackupGeometry
| CallRestoreGeometry
| CallRestoreGeometryFrom (g : QByteArray)
| QtChanges (f : qwidget -> qwidget)
| QtSetParent (b : bool).

Definition is_backup (c : geometry_call) : bool :=
  match c with
  | CallBackupGeometry | CallRestoreGeometryFrom _ => true
  | _ => false
  end.

Definition geometry_step (v : window) (c : geometry_call) : window :=
  match c with
  | CallBackupGeometry => BackupGeometry v
  | CallRestoreGeometry => RestoreGeometry v
  | CallRestoreGeometryFrom g => restoreGeometry g v
  | QtChanges f => Window (f (qt v)) (geometry v) (has_parent v)
  | QtSetParent b => Window (qt v) (geometry v) b
  end.

Definition geometry_run (v : window) (cs : list geometry_call) : window :=
  fold_left geometry_step cs v.

End Geometry.

End GRenderWindow.

(* ================================================================== *)
(** * Properties of the run-control thread *)
(* ================================================================== *)

Module EmuThreadFacts.

Import EmuThread.

Lemma exec_app :
  forall policy s1 s2 m,
    exec policy m (s1 ++ s2) =
    (fst (exec policy (fst (exec policy m s1)) s2),
     snd (exec policy m s1) ++ snd (exec policy (fst (exec policy m s1)) s2)).
Proof.
  intros policy s1; induction s1 as [|a s1 IH]; intros s2 m; simpl.
  - destruct (exec policy m s2); reflexivity.
  - destruct (step policy m a) as [m1 e1].
    rewrite IH.
    destruct (exec policy m1 s1) as [m2 e2]; simpl.
    rewrite app_assoc; reflexivity.
Qed.

Lemma exec_snoc :
  forall policy s a m,
    exec policy m (s ++ [a]) =
    (fst (step policy (fst (exec policy m s)) a),
     snd (exec policy m s) ++ snd (step policy (fst (exec policy m s)) a)).
Proof.
  intros policy s a m; rewrite exec_app; simpl.
  destruct (step policy (fst (exec policy m s)) a) as [m1 e1]; simpl.
  rewrite app_nil_r; reflexivity.
Qed.

Lemma exec_cons :
  forall policy a s m,
    exec policy m (a :: s) =
    (fst (exec policy (fst (step policy m a)) s),
     snd (step policy m a) ++ snd (exec policy (fst (step policy m a)) s)).
Proof.
  intros policy a s m; simpl.
  destruct (step policy m a) as [m1 e1]; simpl.
  destruct (exec policy m1 s); reflexivity.
Qed.

(** ** After a failure: no retry *)

Lemma report_not_run :
  forall l, filter is_run (map report l) = [].
Proof.
  induction l as [|[[stage value] total] l IH]; simpl; auto.
Qed.

Lemma settled_step :
  forall policy m a,
    settled m -> is_resume a = false ->
    settled (fst (step policy m a)) /\
    filter is_run (snd (step policy m a)) = [].
Proof.
  intros policy m a [Hrun Hpc] Ha.
  destruct a as [r|q].
  - unfold settled, step, tick.
    destruct m as [l s rn e g wa]; simpl in *; subst rn.
    destruct l; try congruence; unfold on_result; simpl;
      try (destruct (is_success (resp_result r)); simpl);
      try (destruct s; simpl); try (destruct e; simpl);
      try (destruct policy; simpl);
      try (split; [split; [reflexivity | discriminate] | ]);
      try reflexivity.
    all: rewrite filter_app, report_not_run; reflexivity.
  - destruct q; simpl in *; try discriminate;
      unfold settled; destruct m; simpl in *; auto.
Qed.

Lemma settled_exec :
  forall policy sched m,
    settled m ->
    forallb (fun a => negb (is_resume a)) sched = true ->
    settled (fst (exec policy m sched)) /\
    filter is_run (snd (exec policy m sched)) = [].
Proof.
  intros policy sched; induction sched as [|a sched IH]; intros m Hm Hs.
  - simpl; auto.
  - simpl in Hs. apply andb_true_iff in Hs as [Ha Hs].
    apply negb_true_iff in Ha.
    destruct (settled_step policy m a Hm Ha) as [Hm1 He1].
    rewrite exec_cons; simpl.
    destruct (IH _ Hm1 Hs) as [Hm2 He2].
    split; [exact Hm2|].
    rewrite filter_app, He1, He2; reflexivity.
Qed.

(** C1.  When [Run()] or [Pause()] returns a result other than [Success], the
    step that takes the result calls [SetRunning(false)], leaves [running] and
    [running_guard] clear and emits one [ErrorThrown] with that result and the
    status details; and from there on, for every schedule in which no other thread
    asks to resume, the thread never calls [Run()] again. *)
Theorem failure_stops_without_retry :
  forall policy r m,
    resp_result r <> Success ->
    pc m = AtRun \/ pc m = AtPause ->
    running (fst (tick policy r m)) = false /\
    running_guard (fst (tick policy r m)) = false /\
    snd (tick policy r m) =
      [if label_eqb (pc m) AtRun then EvRun else EvPause;
       EvSetRunning false;
       EvErrorThrown (resp_result r) (resp_details r)] /\
    forall sched,
      forallb (fun a => negb (is_resume a)) sched = true ->
      filter is_run (snd (exec policy (fst (tick policy r m)) sched)) = [].
Proof.
  intros policy r m Hfail Hpc.
  assert (Hs : is_success (resp_result r) = false)
    by (destruct (resp_result r); [congruence | reflexivity]).
  assert (Hsettled : settled (fst (tick policy r m))).
  { unfold settled, tick, on_result.
    destruct Hpc as [Hpc|Hpc]; rewrite Hpc, Hs; simpl; split;
      [reflexivity | discriminate | reflexivity | discriminate]. }
  repeat split.
  - apply Hsettled.
  - unfold tick, on_result.
    destruct Hpc as [Hpc|Hpc]; rewrite Hpc, Hs; reflexivity.
  - unfold tick, on_result.
    destruct Hpc as [Hpc|Hpc]; rewrite Hpc, Hs; reflexivity.
  - intros sched Hsched.
    apply (settled_exec policy sched _ Hsettled Hsched).
Qed.

Lemma failure_stops_without_retry_witness :
  resp_result (failed 6 "core crashed") <> Success /\
  (pc (Machine AtRun false true false true false) = AtRun \/
   pc (Machine AtRun false true false true false) = AtPause) /\
  running (fst (tick AssertLogs (failed 6 "core crashed")
                  (Machine AtRun false true false true false))) = false /\
  running_guard (fst (tick AssertLogs (failed 6 "core crashed")
                        (Machine AtRun false true false true false))) = false /\
  snd (tick AssertLogs (failed 6 "core crashed")
         (Machine AtRun false true false true false)) =
    [EvRun; EvSetRunning false; EvErrorThrown (ErrorCode 6) "core crashed"] /\
  forall sched,
    forallb (fun a => negb (is_resume a)) sched = true ->
    filter is_run
      (snd (exec AssertLogs
              (fst (tick AssertLogs (failed 6 "core crashed")
                      (Machine AtRun false true false true false))) sched)) = [].
Proof.
  split; [simpl; discriminate|].
  split; [left; reflexivity|].
  apply (failure_stops_without_retry AssertLogs (failed 6 "core crashed")
           (Machine AtRun false true false true false)).
  - simpl; discriminate.
  - left; reflexivity.
Defined.

(** ** Stop and shutdown *)

Lemma report_not_shutdown :
  forall l, filter is_shutdown (map report l) = [].
Proof.
  induction l as [|[[stage value] total] l IH]; simpl; auto.
Qed.

Lemma shutdown_count_step :
  forall policy m a,
    (count_shutdown (snd (step policy m a)) + finished m)%nat =
    finished (fst (step policy m a)).
Proof.
  intros policy m [r|q].
  - unfold step, tick, count_shutdown, finished, on_result.
    destruct m as [l s rn e g wa]; simpl.
    destruct l; simpl;
      try (destruct (is_success (resp_result r)); simpl);
      try (destruct s; simpl); try (destruct rn; simpl);
      try (destruct e; simpl); try (destruct wa; simpl);
      try (destruct policy; simpl); try reflexivity.
    all: rewrite filter_app, report_not_shutdown; reflexivity.
  - destruct q, m as [l s rn e g wa]; destruct l; reflexivity.
Qed.

Lemma shutdown_count_exec :
  forall policy sched m,
    (count_shutdown (snd (exec policy m sched)) + finished m)%nat =
    finished (fst (exec policy m sched)).
Proof.
  intros policy sched; induction sched as [|a sched IH]; intros m.
  - reflexivity.
  - rewrite exec_cons; simpl.
    rewrite <- IH, <- shutdown_count_step.
    unfold count_shutdown; rewrite filter_app, length_app; lia.
Qed.

Lemma sound_step :
  forall policy m a,
    sound policy m ->
    policy = AssertLogs \/ is_step_request a = false ->
    sound policy (fst (step policy m a)).
Proof.
  intros policy m a [Hpc Hok] Ha.
  destruct a as [r|q].
  - unfold sound, step, tick, on_result.
    destruct m as [l s rn e g wa]; simpl in *.
    destruct l; simpl; try congruence;
      try (destruct (is_success (resp_result r)); simpl);
      try (destruct s; simpl); try (destruct rn; simpl);
      try (destruct e; simpl);
      try (destruct policy; simpl);
      (split; [try discriminate | ]);
      try (left; reflexivity);
      try (right; split; [reflexivity | discriminate]);
      try (destruct Hok as [Hok|[Hok1 Hok2]]; congruence).
  - unfold sound in *; destruct q; destruct m as [l s rn e g wa]; simpl in *;
      try (split; assumption).
    split; [assumption|].
    destruct Ha as [Ha|Ha]; [left; exact Ha | discriminate].
Qed.

Lemma sound_exec :
  forall policy sched m,
    sound policy m ->
    policy = AssertLogs \/ existsb is_step_request sched = false ->
    sound policy (fst (exec policy m sched)).
Proof.
  intros policy sched; induction sched as [|a sched IH]; intros m Hm Hs.
  - exact Hm.
  - rewrite exec_cons; simpl.
    apply IH.
    + apply sound_step; [exact Hm|].
      destruct Hs as [Hs|Hs]; [left; exact Hs|right].
      simpl in Hs; apply orb_false_iff in Hs; apply Hs.
    + destruct Hs as [Hs|Hs]; [left; exact Hs|right].
      simpl in Hs; apply orb_false_iff in Hs; apply Hs.
Qed.

Lemma stop_run_step :
  forall policy m a,
    stop_run m = true -> stop_run (fst (step policy m a)) = true.
Proof.
  intros policy m [r|q] Hs.
  - unfold step, tick, on_result.
    destruct m as [l s rn e g wa]; simpl in *; subst s.
    destruct l; simpl;
      try (destruct (is_success (resp_result r)); simpl);
      try (destruct rn; simpl); try (destruct e; simpl);
      reflexivity.
  - destruct q, m; simpl in *; auto.
Qed.

Lemma distance_step :
  forall policy m a,
    stop_run m = true -> sound policy m ->
    (distance (fst (step policy m a)) + (if is_tick a then 1 else 0)
     <= Nat.max (distance m) (if is_tick a then 1 else 0))%nat.
Proof.
  intros policy m [r|q] Hs [Hpc Hok].
  - unfold step, tick, on_result, distance.
    destruct m as [l s rn e g wa]; simpl in *; subst s.
    destruct l; simpl; try congruence;
      try (destruct (is_success (resp_result r)); simpl);
      try (destruct rn; simpl); try (destruct e; simpl);
      try (destruct policy; simpl); try lia;
      destruct Hok as [Hok|[Hok1 Hok2]]; congruence.
  - destruct q, m as [l s rn e g wa]; unfold distance; simpl; lia.
Qed.

Lemma distance_exec :
  forall policy sched m,
    stop_run m = true -> sound policy m ->
    policy = AssertLogs \/ existsb is_step_request sched = false ->
    (distance (fst (exec policy m sched)) + count_ticks sched
     <= Nat.max (distance m) (count_ticks sched))%nat.
Proof.
  intros policy sched; induction sched as [|a sched IH]; intros m Hs Hm Hreq.
  - simpl; unfold count_ticks; simpl; lia.
  - rewrite exec_cons; simpl.
    assert (Ha : policy = AssertLogs \/ is_step_request a = false).
    { destruct Hreq as [H|H]; [left; exact H|right].
      simpl in H; apply orb_false_iff in H; apply H. }
    assert (Hrest : policy = AssertLogs \/ existsb is_step_request sched = false).
    { destruct Hreq as [H|H]; [left; exact H|right].
      simpl in H; apply orb_false_iff in H; apply H. }
    pose proof (distance_step policy m a Hs Hm) as Hd.
    pose proof (IH _ (stop_run_step policy m a Hs)
                  (sound_step policy m a Hm Ha) Hrest) as Hi.
    unfold count_ticks in *; simpl.
    destruct (is_tick a); simpl; lia.
Qed.

Lemma distance_bound : forall m, (distance m <= 7)%nat.
Proof.
  intros [l s rn e g wa]; destruct l; unfold distance; simpl; lia.
Qed.

Lemma distance_zero :
  forall policy m, sound policy m -> distance m = 0%nat -> pc m = Finished.
Proof.
  intros policy [l s rn e g wa] [Hpc _]; destruct l; unfold distance; simpl in *;
    try discriminate; congruence.
Qed.

Lemma sound_init : forall policy, sound policy init.
Proof.
  intros policy; split; [discriminate|].
  right; split; [reflexivity | discriminate].
Qed.

(** C2.  In every execution of the loop from thread start, once [stop_run] is
    set the thread reaches the end of [run()] within seven of its own steps,
    whatever the other threads request meanwhile and whatever [Run()] and
    [Pause()] returned before or return after, and the whole execution holds
    exactly one call of [system.Shutdown()]; no execution ever holds two.
    (Where a failed assertion kills the process, this is for executions
    without a step request.) *)
Theorem shutdown_exactly_once :
  forall policy sched1 sched2,
    policy = AssertLogs \/ existsb is_step_request (sched1 ++ sched2) = false ->
    stop_run (fst (exec policy init sched1)) = true ->
    (7 <= count_ticks sched2)%nat ->
    pc (fst (exec policy init (sched1 ++ sched2))) = Finished /\
    count_shutdown (snd (exec policy init (sched1 ++ sched2))) = 1%nat /\
    (forall sched, (count_shutdown (snd (exec policy init sched)) <= 1)%nat).
Proof.
  intros policy sched1 sched2 Hreq Hstop Hticks.
  assert (H1 : policy = AssertLogs \/ existsb is_step_request sched1 = false).
  { destruct Hreq as [H|H]; [left; exact H|right].
    rewrite existsb_app in H; apply orb_false_iff in H; apply H. }
  assert (H2 : policy = AssertLogs \/ existsb is_step_request sched2 = false).
  { destruct Hreq as [H|H]; [left; exact H|right].
    rewrite existsb_app in H; apply orb_false_iff in H; apply H. }
  pose proof (sound_exec policy sched1 init (sound_init policy) H1) as Hsound.
  pose proof (distance_exec policy sched2 _ Hstop Hsound H2) as Hd.
  pose proof (distance_bound (fst (exec policy init sched1))) as Hb.
  assert (Hfin : pc (fst (exec policy init (sched1 ++ sched2))) = Finished).
  { rewrite exec_app; simpl.
    apply (distance_zero policy).
    - apply sound_exec; assumption.
    - lia. }
  split; [exact Hfin|]. split.
  - pose proof (shutdown_count_exec policy (sched1 ++ sched2) init) as Hc.
    unfold finished in Hc at 2. rewrite Hfin in Hc.
    change (finished init) with 0%nat in Hc. lia.
  - intros sched.
    pose proof (shutdown_count_exec policy sched init) as Hc.
    change (finished init) with 0%nat in Hc. unfold finished in Hc.
    destruct (pc (fst (exec policy init sched))); lia.
Qed.

Lemma shutdown_exactly_once_witness :
  (AssertAborts = AssertLogs \/
   existsb is_step_request (failing_run ++ wind_down) = false) /\
  stop_run (fst (exec AssertAborts init failing_run)) = true /\
  (7 <= count_ticks wind_down)%nat /\
  In (EvErrorThrown (ErrorCode 6) "core crashed")
     (snd (exec AssertAborts init failing_run)) /\
  pc (fst (exec AssertAborts init (failing_run ++ wind_down))) = Finished /\
  count_shutdown (snd (exec AssertAborts init (failing_run ++ wind_down))) = 1%nat.
Proof.
  split; [right; reflexivity|].
  split; [reflexivity|].
  split; [vm_compute; lia|].
  split; [simpl; auto 10|].
  destruct (shutdown_exactly_once AssertAborts failing_run wind_down)
    as (Hpc & Hcount & _).
  - right; reflexivity.
  - reflexivity.
  - vm_compute; lia.
  - split; [exact Hpc | exact Hcount].
Defined.

(** ** Leaving debug mode *)

Lemma was_active_step :
  forall policy m a,
    was_active (fst (step policy m a)) =
    was_active m || (is_tick a && label_eqb (pc m) AtStopTest && negb (stop_run m)).
Proof.
  intros policy m [r|q].
  - unfold step, tick, on_result.
    destruct m as [l s rn e g wa]; simpl.
    destruct l; simpl;
      try (destruct (is_success (resp_result r)); simpl);
      try (destruct s; simpl); try (destruct rn; simpl);
      try (destruct e; simpl); try (destruct policy; simpl);
      destruct wa; reflexivity.
  - destruct q, m as [l s rn e g wa]; simpl; rewrite orb_false_r; reflexivity.
Qed.

Lemma label_eqb_eq : forall a b, label_eqb a b = true <-> a = b.
Proof.
  intros a b; split.
  - destruct a, b; simpl; intros H; try discriminate; reflexivity.
  - intros ->; destruct b; reflexivity.
Qed.

Lemma was_active_iff_previously_paused :
  forall policy sched,
    was_active (fst (exec policy init sched)) = true <->
    previously_paused policy sched.
Proof.
  intros policy sched; induction sched as [|a sched IH] using rev_ind.
  - split; [discriminate|].
    intros (pre & r & post & H & _); destruct pre; discriminate.
  - rewrite exec_snoc; cbn [fst]; rewrite was_active_step.
    split.
    + intros H; apply orb_true_iff in H as [H|H].
      * apply IH in H as (pre & r & post & -> & Hpc & Hstop).
        exists pre, r, (post ++ [a]).
        rewrite <- app_assoc; auto.
      * apply andb_true_iff in H as [H Hstop].
        apply andb_true_iff in H as [Ha Hpc].
        destruct a as [r|q]; [|discriminate].
        exists sched, r, [].
        apply label_eqb_eq in Hpc; apply negb_true_iff in Hstop; auto.
    + intros (pre & r & post & Heq & Hpc & Hstop).
      apply orb_true_iff.
      destruct post as [|b post] using rev_ind.
      * apply app_inj_tail in Heq as [-> ->].
        right; simpl; rewrite Hpc, Hstop; reflexivity.
      * clear IHpost.
        change (pre ++ Tick r :: post ++ [b])
          with (pre ++ (Tick r :: post) ++ [b]) in Heq.
        rewrite app_assoc in Heq.
        apply app_inj_tail in Heq as [-> _].
        left; apply IH; exists pre, r, post; auto.
Qed.

Lemma past_run_step :
  forall policy m a,
    past_run (fst (step policy m a)) ->
    past_run m \/ filter is_run (snd (step policy m a)) <> [].
Proof.
  intros policy m [r|q].
  - unfold past_run, step, tick, on_result.
    destruct m as [l s rn e g wa]; simpl.
    destruct l; simpl;
      try (destruct (is_success (resp_result r)); simpl);
      try (destruct s; simpl); try (destruct rn; simpl);
      try (destruct e; simpl); try (destruct policy; simpl);
      intros H; try (right; discriminate); left;
      repeat (destruct H as [H|H]; try discriminate; auto).
  - unfold past_run; destruct q, m as [l s rn e g wa]; simpl; auto.
Qed.

Lemma past_run_has_run :
  forall policy sched,
    past_run (fst (exec policy init sched)) ->
    filter is_run (snd (exec policy init sched)) <> [].
Proof.
  intros policy sched; induction sched as [|a sched IH] using rev_ind.
  - unfold past_run; simpl.
    intros [H|[H|[H|H]]]; discriminate.
  - rewrite exec_snoc; cbn [fst snd].
    intros H. apply past_run_step in H.
    rewrite filter_app.
    destruct H as [H|H].
    + apply IH in H.
      destruct (filter is_run (snd (exec policy init sched))); [congruence|discriminate].
    + intros Hnil; apply app_eq_nil in Hnil as [_ Hnil]; auto.
Qed.

(** C4.  Take any execution from thread start that has brought the loop to
    [if (running)] with [running] set.  The step that enters the Running
    branch emits [DebugModeLeft] if and only if an earlier iteration reached
    the end of its Run/Pause cycle with no stop requested; and if [Run()] has
    not been called before (the first entry), the step emits nothing. *)
Theorem debug_mode_left_iff_previously_paused :
  forall policy sched r,
    pc (fst (exec policy init sched)) = AtRunningTest ->
    running (fst (exec policy init sched)) = true ->
    (In EvDebugModeLeft (snd (tick policy r (fst (exec policy init sched)))) <->
     previously_paused policy sched) /\
    (filter is_run (snd (exec policy init sched)) = [] ->
     snd (tick policy r (fst (exec policy init sched))) = []).
Proof.
  intros policy sched r Hpc Hrun.
  pose proof (was_active_iff_previously_paused policy sched) as Hiff.
  pose proof (past_run_has_run policy sched) as Hpast.
  unfold past_run in Hpast.
  unfold tick; rewrite Hpc, Hrun; cbn [snd].
  destruct (was_active (fst (exec policy init sched))).
  - split.
    + split; [intros _; apply Hiff; reflexivity | intros _; left; reflexivity].
    + intros Hnil; exfalso; apply Hpast; auto.
  - split.
    + split; [intros [] | intros H; apply Hiff in H; discriminate].
    + reflexivity.
Qed.

Lemma debug_mode_left_iff_previously_paused_witness :
  pc (fst (exec AssertLogs init pause_and_resume)) = AtRunningTest /\
  running (fst (exec AssertLogs init pause_and_resume)) = true /\
  (In EvDebugModeLeft
      (snd (tick AssertLogs ok (fst (exec AssertLogs init pause_and_resume)))) <->
   previously_paused AssertLogs pause_and_resume).
Proof.
  split; [reflexivity|].
  split; [reflexivity|].
  apply (debug_mode_left_iff_previously_paused AssertLogs pause_and_resume ok);
    reflexivity.
Defined.

(** ** The step branch *)

Lemma pending_step_never_waits_step :
  forall policy m a,
    exec_step m = true -> pc m <> AtCvWait ->
    exec_step (fst (step policy m a)) = true /\
    pc (fst (step policy m a)) <> AtCvWait.
Proof.
  intros policy m [r|q] He Hpc.
  - unfold step, tick, on_result.
    destruct m as [l s rn e g wa]; simpl in *; subst e.
    destruct l; simpl; try congruence;
      try (destruct (is_success (resp_result r)); simpl);
      try (destruct s; simpl); try (destruct rn; simpl);
      try (destruct policy; simpl);
      split; try reflexivity; discriminate.
  - destruct q, m as [l s rn e g wa]; simpl in *; auto.
Qed.

Lemma pending_step_never_waits :
  forall policy sched m,
    exec_step m = true -> pc m <> AtCvWait ->
    pc (fst (exec policy m sched)) <> AtCvWait.
Proof.
  intros policy sched; induction sched as [|a sched IH]; intros m He Hpc.
  - exact Hpc.
  - rewrite exec_cons; cbn [fst].
    destruct (pending_step_never_waits_step policy m a He Hpc) as [He' Hpc'].
    apply IH; assumption.
Qed.

(** C3, refuted as stated: with a step request pending and [running] clear,
    the thread on its own never gets back to the blocking wait, whether a
    failed assertion logs or aborts; its next two steps trip
    [UNIMPLEMENTED()], and a fatal assertion ends the thread there. *)
Lemma single_step_not_handled :
  ~ single_step_handled AssertLogs step_pending /\
  ~ single_step_handled AssertAborts step_pending /\
  snd (alone AssertLogs 2 step_pending) = [EvUnimplemented] /\
  pc (fst (alone AssertAborts 2 step_pending)) = Aborted.
Proof.
  split; [|split; [|split; reflexivity]];
    intros (n & Hwait & _); revert Hwait;
    apply pending_step_never_waits; (reflexivity || discriminate).
Qed.

(** C3, amended.  When the loop finds [running] clear and a step request
    pending, its next two steps reach [UNIMPLEMENTED()] and trip it: that is
    the only thing emitted, the core is not called, [exec_step] stays set, and
    the thread goes back to the loop test if the assertion returns and dies if
    it is fatal.  From there on no schedule brings the thread to the blocking
    wait. *)
Theorem step_request_is_unimplemented :
  forall policy m r1 r2,
    pc m = AtStepTest -> exec_step m = true ->
    snd (exec policy m [Tick r1; Tick r2]) = [EvUnimplemented] /\
    exec_step (fst (exec policy m [Tick r1; Tick r2])) = true /\
    pc (fst (exec policy m [Tick r1; Tick r2])) =
      match policy with AssertLogs => AtLoopTest | AssertAborts => Aborted end /\
    forall sched, pc (fst (exec policy m sched)) <> AtCvWait.
Proof.
  intros policy m r1 r2 Hpc He.
  destruct m as [l s rn e g wa]; simpl in Hpc, He; subst l e.
  split; [|split; [|split]].
  - destruct policy; reflexivity.
  - destruct policy; reflexivity.
  - destruct policy; reflexivity.
  - intros sched; apply pending_step_never_waits; [reflexivity | discriminate].
Qed.

Lemma step_request_is_unimplemented_witness :
  pc step_pending = AtStepTest /\
  exec_step step_pending = true /\
  snd (exec AssertAborts step_pending [Tick ok; Tick ok]) = [EvUnimplemented] /\
  pc (fst (exec AssertAborts step_pending [Tick ok; Tick ok])) = Aborted.
Proof.
  split; [reflexivity|].
  split; [reflexivity|].
  destruct (step_request_is_unimplemented AssertAborts step_pending ok ok)
    as (Hev & _ & Hpc & _); [reflexivity | reflexivity |].
  split; [exact Hev | exact Hpc].
Defined.

(** ** Invariants of every execution *)

Lemma count_app :
  forall f a b, count f (a ++ b) = (count f a + count f b)%nat.
Proof.
  intros f a b; unfold count; rewrite filter_app, length_app; reflexivity.
Qed.

Lemma count_reports :
  forall f l,
    (forall stage value total, f (EvLoadProgress stage value total) = false) ->
    count f (map report l) = 0%nat.
Proof.
  intros f l Hf; unfold count.
  induction l as [|[[stage value] total] l IH]; simpl; [reflexivity|].
  rewrite Hf; exact IH.
Qed.

Lemma count_start :
  forall f r,
    (forall stage value total, f (EvLoadProgress stage value total) = false) ->
    count f (EvLoadProgress Prepare 0 0
               :: map report (resp_progress r) ++ [EvLoadProgress Complete 0 0]) = 0%nat.
Proof.
  intros f r Hf.
  change (EvLoadProgress Prepare 0 0
            :: map report (resp_progress r) ++ [EvLoadProgress Complete 0 0])
    with ([EvLoadProgress Prepare 0 0]
            ++ map report (resp_progress r) ++ [EvLoadProgress Complete 0 0]).
  rewrite !count_app, count_reports by exact Hf.
  unfold count; simpl; rewrite !Hf; reflexivity.
Qed.

(** A property of machine and trace that holds at the start and is kept by
    every allowed step holds after every allowed schedule. *)
Lemma exec_invariant :
  forall policy (allowed : action -> bool) (P : machine -> list event -> Prop) m0,
    P m0 [] ->
    (forall m tr a,
        allowed a = true -> P m tr ->
        P (fst (step policy m a)) (tr ++ snd (step policy m a))) ->
    forall sched,
      forallb allowed sched = true ->
      P (fst (exec policy m0 sched)) (snd (exec policy m0 sched)).
Proof.
  intros policy allowed P m0 H0 Hstep sched.
  induction sched as [|a sched IH] using rev_ind; intros Hall.
  - exact H0.
  - rewrite forallb_app in Hall; apply andb_true_iff in Hall as [Hs Ha].
    simpl in Ha; rewrite andb_true_r in Ha.
    rewrite exec_snoc; cbn [fst snd].
    apply Hstep; [exact Ha | apply IH; exact Hs].
Qed.

Lemma forallb_any : forall sched, forallb any sched = true.
Proof.
  induction sched as [|a sched IH]; simpl; auto.
Qed.

(** The events of one step of the thread, program point by program point. *)
Ltac thread_step r m :=
  destruct m as [l s rn e g wa]; destruct l;
  unfold step, tick, on_result;
  cbn [pc stop_run running exec_step running_guard was_active];
  try (destruct (is_success (resp_result r)));
  cbn [with_pc with_running_guard with_was_active SetRunning fst snd
       pc stop_run running exec_step running_guard was_active].

Ltac other_step q m :=
  destruct q, m as [l s rn e g wa];
  cbn [step deliver SetRunning with_exec_step with_stop_run fst snd
       pc stop_run running exec_step running_guard was_active].

Lemma forallb_negb_existsb :
  forall (f : action -> bool) sched,
    existsb f sched = false -> forallb (fun a => negb (f a)) sched = true.
Proof.
  intros f sched; induction sched as [|a sched IH]; simpl; [reflexivity|].
  intros H; apply orb_false_iff in H as [Ha Hs].
  rewrite Ha, IH by exact Hs; reflexivity.
Qed.

(** X1.  The core is never started unless another thread asks to run: an
    execution from thread start without a resume request holds no call of
    [Run()], [Wait()] or [Pause()], no error and no debug-mode signal. *)
Theorem no_session_without_resume :
  forall policy sched,
    existsb is_resume sched = false ->
    count is_session (snd (exec policy init sched)) = 0%nat /\
    running (fst (exec policy init sched)) = false /\
    in_cycle (pc (fst (exec policy init sched))) = false.
Proof.
  intros policy sched Hno.
  apply forallb_negb_existsb in Hno.
  apply (exec_invariant policy (fun a => negb (is_resume a))
           (fun m tr => count is_session tr = 0%nat /\ running m = false /\
                        in_cycle (pc m) = false));
    [repeat split | | exact Hno].
  clear sched Hno; intros m tr a Ha (Hc & Hrun & Hcyc).
  rewrite count_app, Hc.
  destruct a as [r|q].
  - thread_step r m; cbn in Hrun, Hcyc; subst; try discriminate;
      try (destruct s); try (destruct e); try (destruct policy);
      try (rewrite count_start by reflexivity);
      repeat split.
  - other_step q m; cbn in *; try discriminate; auto.
Qed.

Lemma no_session_without_resume_witness :
  existsb is_resume [Tick ok; Env ReqStep; Env ReqStop; Tick ok; Tick ok] = false /\
  count is_session
    (snd (exec AssertLogs init [Tick ok; Env ReqStep; Env ReqStop; Tick ok; Tick ok]))
  = 0%nat.
Proof.
  split; [reflexivity|].
  apply (no_session_without_resume AssertLogs
           [Tick ok; Env ReqStep; Env ReqStop; Tick ok; Tick ok]).
  reflexivity.
Defined.

(** X2.  The core is shut down only on request: an execution from thread
    start without a stop request holds no call of [system.Shutdown()] and
    never leaves the loop. *)
Theorem no_shutdown_without_stop :
  forall policy sched,
    existsb is_stop sched = false ->
    count is_shutdown (snd (exec policy init sched)) = 0%nat /\
    stop_run (fst (exec policy init sched)) = false /\
    pc (fst (exec policy init sched)) <> AtShutdown /\
    pc (fst (exec policy init sched)) <> Finished.
Proof.
  intros policy sched Hno.
  apply forallb_negb_existsb in Hno.
  apply (exec_invariant policy (fun a => negb (is_stop a))
           (fun m tr => count is_shutdown tr = 0%nat /\ stop_run m = false /\
                        pc m <> AtShutdown /\ pc m <> Finished));
    [repeat split; discriminate | | exact Hno].
  clear sched Hno; intros m tr a Ha (Hc & Hstop & Hp1 & Hp2).
  rewrite count_app, Hc.
  destruct a as [r|q].
  - thread_step r m; cbn in Hstop, Hp1, Hp2; subst; try congruence;
      try (destruct rn); try (destruct e); try (destruct wa);
      try (destruct policy);
      try (rewrite count_start by reflexivity);
      cbn; repeat split; discriminate.
  - other_step q m; cbn in *; try discriminate; auto.
Qed.

Lemma no_shutdown_without_stop_witness :
  existsb is_stop pause_and_resume = false /\
  count is_shutdown (snd (exec AssertLogs init pause_and_resume)) = 0%nat.
Proof.
  split; [reflexivity|].
  apply (no_shutdown_without_stop AssertLogs pause_and_resume).
  reflexivity.
Defined.



(** X4.  Calls into the core come in whole cycles: at every moment the trace
    holds as many [Run()] as [Pause()] calls, plus the one cycle under way
    while the thread stands at [Wait()] or [Pause()], and as many [Wait()] as
    [Pause()] calls, plus one while it stands at [Pause()].  So a [Run()] that
    failed is still followed by [Wait()] and [Pause()], and when [run()] has
    returned every [Run()] has had its [Pause()]. *)
Theorem run_wait_pause_paired :
  forall policy sched,
    count is_run (snd (exec policy init sched)) =
      (count is_pause (snd (exec policy init sched)) +
       match pc (fst (exec policy init sched)) with
       | AtWait | AtPause => 1
       | _ => 0
       end)%nat /\
    count is_wait (snd (exec policy init sched)) =
      (count is_pause (snd (exec policy init sched)) +
       match pc (fst (exec policy init sched)) with
       | AtPause => 1
       | _ => 0
       end)%nat.
Proof.
  intros policy sched.
  apply (exec_invariant policy any
           (fun m tr =>
              count is_run tr =
                (count is_pause tr +
                 match pc m with AtWait | AtPause => 1 | _ => 0 end)%nat /\
              count is_wait tr =
                (count is_pause tr +
                 match pc m with AtPause => 1 | _ => 0 end)%nat));
    [split; reflexivity | | apply forallb_any].
  clear sched; intros m tr a _ [H1 H2].
  rewrite !count_app.
  destruct a as [r|q].
  - thread_step r m; cbn in H1, H2;
      try (destruct s); try (destruct rn); try (destruct e); try (destruct wa);
      try (destruct policy);
      try (rewrite !count_start by reflexivity);
      cbn; lia.
  - other_step q m; cbn in *; lia.
Qed.

(** X5.  [running_guard] is set only inside the guarded section: whenever it
    is set the thread stands at [Run()], [Wait()] or [Pause()].  At the loop
    test, in the blocking wait and after [run()] has returned it is clear. *)
Theorem running_guard_only_in_cycle :
  forall policy sched,
    running_guard (fst (exec policy init sched)) = true ->
    in_guarded_section (pc (fst (exec policy init sched))) = true.
Proof.
  intros policy sched.
  apply (exec_invariant policy any
           (fun m _ => running_guard m = true -> in_guarded_section (pc m) = true)
           init);
    [discriminate | | apply forallb_any].
  clear sched; intros m tr a _ H.
  destruct a as [r|q].
  - thread_step r m; cbn in H |- *;
      try (destruct s); try (destruct rn); try (destruct e);
      try (destruct policy); cbn; auto; discriminate.
  - other_step q m; cbn in *; exact H.
Qed.

Lemma running_guard_only_in_cycle_witness :
  running_guard
    (fst (exec AssertLogs init [Tick ok; Env ReqResume; Tick ok; Tick ok; Tick ok])) = true /\
  in_guarded_section
    (pc (fst (exec AssertLogs init [Tick ok; Env ReqResume; Tick ok; Tick ok; Tick ok])))
  = true.
Proof.
  split; [reflexivity|].
  apply (running_guard_only_in_cycle AssertLogs
           [Tick ok; Env ReqResume; Tick ok; Tick ok; Tick ok]).
  reflexivity.
Defined.



Lemma debug_mode_reports :
  forall l st, fold_left debug_signal (map report l) st = st.
Proof.
  induction l as [|[[stage value] total] l IH]; intros st; simpl; auto.
Qed.

Lemma debug_mode_start :
  forall r st,
    fold_left debug_signal
      (EvLoadProgress Prepare 0 0
         :: map report (resp_progress r) ++ [EvLoadProgress Complete 0 0]) st = st.
Proof.
  intros r st; simpl.
  rewrite fold_left_app, debug_mode_reports; reflexivity.
Qed.

(** X7.  The two debug-mode signals alternate, [DebugModeEntered] first: in
    no execution is debug mode entered twice in a row or left without having
    been entered; and while the thread is between [Run()] and the end of the
    iteration the last of the two signals, if any, was [DebugModeLeft]. *)
Theorem debug_mode_signals_alternate :
  forall policy sched,
    exists d,
      debug_mode_after (snd (exec policy init sched)) = Some d /\
      (in_cycle (pc (fst (exec policy init sched))) = true -> d = false).
Proof.
  intros policy sched.
  assert (H : exists d,
             debug_mode_after (snd (exec policy init sched)) = Some d /\
             let m := fst (exec policy init sched) in
             match pc m with
             | AtStart => d = false /\ was_active m = false
             | AtRun | AtWait | AtPause | AtStopTest => d = false
             | AtRunningTest | AtStepTest | AtUnimplemented | AtCvWait =>
                 d = was_active m
             | AtLoopTest => stop_run m = false -> d = was_active m
             | AtShutdown | Finished | Aborted => True
             end).
  { apply (exec_invariant policy any
             (fun m tr =>
                exists d,
                  debug_mode_after tr = Some d /\
                  match pc m with
                  | AtStart => d = false /\ was_active m = false
                  | AtRun | AtWait | AtPause | AtStopTest => d = false
                  | AtRunningTest | AtStepTest | AtUnimplemented | AtCvWait =>
                      d = was_active m
                  | AtLoopTest => stop_run m = false -> d = was_active m
                  | AtShutdown | Finished | Aborted => True
                  end));
      [exists false; split; [reflexivity | split; reflexivity] | | apply forallb_any].
    clear sched; intros m tr a _ (d & Hd & Hinv).
    unfold debug_mode_after in *; rewrite fold_left_app, Hd.
    destruct a as [r|q].
    - thread_step r m; try (rewrite debug_mode_start); cbn in Hinv |- *;
        try (destruct s); try (destruct rn); try (destruct e);
        try (destruct wa); try (destruct policy); cbn;
        try match type of Hinv with
            | _ /\ _ => destruct Hinv as [Hinv ?]
            | false = false -> _ => specialize (Hinv eq_refl)
            | true = false -> _ => clear Hinv
            end;
        subst; try discriminate;
        eexists; (split; [reflexivity | ]); cbn; auto; try discriminate.
    - other_step q m; cbn in Hinv |- *; exists d; (split; [reflexivity|]);
        auto; destruct l; auto; intros; discriminate. }
  destruct H as (d & Hd & Hinv); exists d; split; [exact Hd|].
  cbv zeta in Hinv.
  destruct (pc (fst (exec policy init sched))); cbn; intros Hc;
    try discriminate; exact Hinv.
Qed.

(** X8.  The unimplemented branch is reached only through a step request: an
    execution from thread start without one never trips [UNIMPLEMENTED()] and
    never dies in it, whether a failed assertion logs or aborts. *)
Theorem unimplemented_only_on_step_request :
  forall policy sched,
    existsb is_step_request sched = false ->
    count is_unimplemented (snd (exec policy init sched)) = 0%nat /\
    pc (fst (exec policy init sched)) <> AtUnimplemented /\
    pc (fst (exec policy init sched)) <> Aborted.
Proof.
  intros policy sched Hno.
  apply forallb_negb_existsb in Hno.
  assert (H : count is_unimplemented (snd (exec policy init sched)) = 0%nat /\
              exec_step (fst (exec policy init sched)) = false /\
              pc (fst (exec policy init sched)) <> AtUnimplemented /\
              pc (fst (exec policy init sched)) <> Aborted).
  { apply (exec_invariant policy (fun a => negb (is_step_request a))
             (fun m tr => count is_unimplemented tr = 0%nat /\
                          exec_step m = false /\
                          pc m <> AtUnimplemented /\ pc m <> Aborted));
      [repeat split; discriminate | | exact Hno].
    clear sched Hno; intros m tr a Ha (Hc & He & Hp1 & Hp2).
    rewrite count_app, Hc.
    destruct a as [r|q].
    - thread_step r m; cbn in He, Hp1, Hp2; subst; try congruence;
        try (destruct s); try (destruct rn); try (destruct wa);
        try (rewrite count_start by reflexivity);
        cbn; repeat split; discriminate.
    - other_step q m; cbn in *; try discriminate; auto. }
  destruct H as (Hc & _ & Hp1 & Hp2); auto.
Qed.

Lemma unimplemented_only_on_step_request_witness :
  existsb is_step_request failing_pause = false /\
  count is_unimplemented (snd (exec AssertAborts init failing_pause)) = 0%nat /\
  pc (fst (exec AssertAborts init failing_pause)) <> Aborted.
Proof.
  split; [reflexivity|].
  destruct (unimplemented_only_on_step_request AssertAborts failing_pause eq_refl)
    as (Hc & _ & Hp).
  split; [exact Hc | exact Hp].
Defined.

Lemma idle_step :
  forall policy m r,
    running m = false -> exec_step m = false -> stop_run m = false ->
    idle_distance m <> None ->
    running (fst (tick policy r m)) = false /\
    exec_step (fst (tick policy r m)) = false /\
    stop_run (fst (tick policy r m)) = false /\
    idle_distance (fst (tick policy r m)) =
      option_map Nat.pred (idle_distance m) /\
    count (fun e => negb (is_load_progress e)) (snd (tick policy r m)) = 0%nat.
Proof.
  intros policy m r Hr He Hs Hd.
  destruct m as [l s rn e g wa]; cbn in Hr, He, Hs; subst.
  destruct l; unfold idle_distance in Hd |- *; cbn in Hd |- *;
    try congruence; repeat split.
  apply (count_start (fun e => negb (is_load_progress e))); reflexivity.
Qed.

(** X9.  Left alone the thread parks: in an execution from thread start in
    which no other thread requests anything, the thread emits nothing but the
    load-progress reports, calls nothing, and from its fourth step on it
    stands in the blocking wait of line 124 and stays there. *)
Theorem idle_thread_waits :
  forall policy sched,
    existsb is_env sched = false ->
    count (fun e => negb (is_load_progress e)) (snd (exec policy init sched)) = 0%nat /\
    idle_distance (fst (exec policy init sched))
      = Some (4 - List.length sched)%nat /\
    ((4 <= List.length sched)%nat ->
     pc (fst (exec policy init sched)) = AtCvWait).
Proof.
  intros policy sched Hno.
  assert (H : forall s m n,
             existsb is_env s = false ->
             running m = false -> exec_step m = false -> stop_run m = false ->
             idle_distance m = Some n ->
             count (fun e => negb (is_load_progress e)) (snd (exec policy m s)) = 0%nat /\
             idle_distance (fst (exec policy m s)) = Some (n - List.length s)%nat).
  { clear sched Hno.
    induction s as [|a s IH]; intros m n Hs Hr He Hst Hd.
    - simpl; rewrite Nat.sub_0_r; auto.
    - simpl in Hs; apply orb_false_iff in Hs as [Ha Hs].
      destruct a as [r|q]; [|discriminate].
      rewrite exec_cons; cbn [fst snd step].
      assert (Hd' : idle_distance m <> None) by congruence.
      destruct (idle_step policy m r Hr He Hst Hd') as (Hr1 & He1 & Hs1 & Hd1 & Hc1).
      rewrite Hd in Hd1; cbn in Hd1.
      destruct (IH _ _ Hs Hr1 He1 Hs1 Hd1) as [Hc2 Hd2].
      rewrite count_app, Hc1, Hc2, Hd2.
      split; [reflexivity|].
      f_equal; simpl; lia. }
  destruct (H sched init 4%nat Hno eq_refl eq_refl eq_refl eq_refl) as [Hc Hd].
  split; [exact Hc|]. split; [exact Hd|].
  intros Hlen.
  replace (4 - List.length sched)%nat with 0%nat in Hd by lia.
  unfold idle_distance in Hd.
  destruct (pc (fst (exec policy init sched))); try discriminate; reflexivity.
Qed.

Lemma idle_thread_waits_witness :
  existsb is_env (repeat (Tick ok) 6) = false /\
  (4 <= List.length (repeat (Tick ok) 6))%nat /\
  pc (fst (exec AssertLogs init (repeat (Tick ok) 6))) = AtCvWait.
Proof.
  split; [reflexivity|].
  split; [simpl; lia|].
  apply (idle_thread_waits AssertLogs (repeat (Tick ok) 6)).
  - reflexivity.
  - simpl; lia.
Defined.

Lemma after_stop_step :
  forall policy m a,
    stop_run m = true ->
    stop_run (fst (step policy m a)) = true /\
    count is_debug_entered (snd (step policy m a)) = 0%nat /\
    (count is_run (snd (step policy m a)) + runs_left (fst (step policy m a))
     <= runs_left m)%nat.
Proof.
  intros policy m a Hs.
  destruct a as [r|q].
  - thread_step r m; cbn in Hs; subst;
      try (destruct rn); try (destruct e); try (destruct wa);
      try (destruct policy);
      try (rewrite !count_start by reflexivity);
      cbn; repeat split; lia.
  - other_step q m; cbn in *; repeat split; auto.
Qed.

(** X20.  Once a stop is requested the session winds down: from any state
    with [stop_run] set, whatever is scheduled afterwards, [DebugModeEntered]
    is never emitted again and [Run()] is called at most once more (only by a
    thread that had passed the loop test before the stop arrived). *)
Theorem after_stop_no_new_session :
  forall policy sched m,
    stop_run m = true ->
    count is_debug_entered (snd (exec policy m sched)) = 0%nat /\
    (count is_run (snd (exec policy m sched)) <= runs_left m)%nat /\
    (count is_run (snd (exec policy m sched)) <= 1)%nat.
Proof.
  intros policy sched.
  assert (H : forall m,
             stop_run m = true ->
             count is_debug_entered (snd (exec policy m sched)) = 0%nat /\
             (count is_run (snd (exec policy m sched)) <= runs_left m)%nat).
  { induction sched as [|a sched IH]; intros m Hs.
    - split; [reflexivity | apply Nat.le_0_l].
    - rewrite exec_cons; cbn [snd].
      destruct (after_stop_step policy m a Hs) as (Hs1 & He1 & Hr1).
      destruct (IH _ Hs1) as [He2 Hr2].
      rewrite !count_app, He1, He2.
      split; [reflexivity | lia]. }
  intros m Hs; destruct (H m Hs) as [He Hr].
  split; [exact He|]. split; [exact Hr|].
  assert (Hb : (runs_left m <= 1)%nat)
    by (unfold runs_left; destruct (pc m); lia).
  lia.
Qed.

Lemma after_stop_no_new_session_witness :
  stop_run (fst (exec AssertLogs init late_stop)) = true /\
  count is_run (snd (exec AssertLogs (fst (exec AssertLogs init late_stop)) wind_down))
    = 1%nat /\
  count is_debug_entered
    (snd (exec AssertLogs (fst (exec AssertLogs init late_stop)) wind_down)) = 0%nat.
Proof.
  split; [reflexivity|].
  split; [reflexivity|].
  apply (after_stop_no_new_session AssertLogs wind_down
           (fst (exec AssertLogs init late_stop))).
  reflexivity.
Defined.

End EmuThreadFacts.

(* ================================================================== *)
(** * Properties of the render-surface widget *)
(* ================================================================== *)

Module GRenderWindowFacts.

Import GRenderWindow.

(** ** Doubles: rounding, whole numbers and their products *)

Lemma digits2_log2 : forall p, Zpos (digits2_pos p) = (Z.log2 (Zpos p) + 1)%Z.
Proof.
  assert (H : forall p, digits2_pos p = Pos.size p)
    by (induction p; simpl; congruence).
  intros p; rewrite H.
  destruct p; simpl; lia.
Qed.

Lemma iter_pos_nat :
  forall (A : Type) (f : A -> A) p x,
    iter_pos f p x = Nat.iter (Pos.to_nat p) f x.
Proof.
  intros A f p; induction p as [p IH|p IH|]; intros x; cbn [iter_pos].
  - rewrite !IH, Pos2Nat.inj_xI.
    replace (S (2 * Pos.to_nat p)) with (Pos.to_nat p + (Pos.to_nat p + 1))%nat by lia.
    rewrite !Nat.iter_add; reflexivity.
  - rewrite !IH, Pos2Nat.inj_xO.
    replace (2 * Pos.to_nat p)%nat with (Pos.to_nat p + Pos.to_nat p)%nat by lia.
    rewrite Nat.iter_add; reflexivity.
  - reflexivity.
Qed.

Lemma shr_1_m :
  forall r, (0 <= shr_m r)%Z -> shr_m (shr_1 r) = (shr_m r / 2)%Z.
Proof.
  intros [m r s] Hm; simpl in *.
  destruct m as [|p|p]; [reflexivity | | lia].
  destruct p as [p|p|]; simpl shr_m.
  - rewrite Pos2Z.inj_xI. apply (Z.div_unique _ 2 _ 1); lia.
  - rewrite Pos2Z.inj_xO. apply (Z.div_unique _ 2 _ 0); lia.
  - reflexivity.
Qed.

Lemma shr_iter_m :
  forall n r, (0 <= shr_m r)%Z ->
    shr_m (Nat.iter n shr_1 r) = (shr_m r / 2 ^ Z.of_nat n)%Z.
Proof.
  induction n as [|n IH]; intros r Hr.
  - simpl; rewrite Z.div_1_r; reflexivity.
  - rewrite Nat.iter_succ_r, IH, shr_1_m by (rewrite ?shr_1_m by exact Hr; try apply Z.div_pos; lia).
    rewrite Z.div_div by lia.
    rewrite Nat2Z.inj_succ, Z.pow_succ_r by lia; reflexivity.
Qed.

Lemma shr_1_exact :
  forall m, (0 <= m)%Z -> (m mod 2 = 0)%Z ->
    shr_1 (Build_shr_record m false false) = Build_shr_record (m / 2) false false.
Proof.
  intros m Hm He.
  destruct m as [|p|p]; [reflexivity | | lia].
  destruct p as [p|p|]; simpl.
  - rewrite Pos2Z.inj_xI in He.
    replace (2 * Z.pos p + 1)%Z with (1 + Z.pos p * 2)%Z in He by lia.
    rewrite Z.mod_add in He by lia. discriminate.
  - f_equal. rewrite Pos2Z.inj_xO. apply (Z.div_unique _ 2 _ 0); lia.
  - discriminate.
Qed.

Lemma shr_iter_exact :
  forall n m, (0 <= m)%Z -> (m mod 2 ^ Z.of_nat n = 0)%Z ->
    Nat.iter n shr_1 (Build_shr_record m false false)
    = Build_shr_record (m / 2 ^ Z.of_nat n) false false.
Proof.
  induction n as [|n IH]; intros m Hm He.
  - simpl; rewrite Z.div_1_r; reflexivity.
  - rewrite Nat2Z.inj_succ, Z.pow_succ_r in * by lia.
    assert (H2 : (m mod 2 = 0)%Z).
    { apply Z.mod_divide in He; [|lia]. apply Z.mod_divide; [lia|].
      destruct He as [c Hc]. exists (c * 2 ^ Z.of_nat n)%Z. lia. }
    rewrite Nat.iter_succ_r, shr_1_exact by assumption.
    rewrite IH.
    + rewrite Z.div_div by lia. reflexivity.
    + apply Z.div_pos; lia.
    + apply Z.mod_divide in He; [|lia]. apply Z.mod_divide; [lia|].
      destruct He as [c Hc]. exists c.
      subst m. replace (c * (2 * 2 ^ Z.of_nat n))%Z with ((c * 2 ^ Z.of_nat n) * 2)%Z by lia.
      rewrite Z.div_mul by lia. reflexivity.
Qed.

Lemma fexp_eq : forall e, fexp prec emax e = Z.max (e - 53) (-1074).
Proof. reflexivity. Qed.

Lemma Zdigits2_log2 : forall M, (0 < M)%Z -> Zdigits2 M = (Z.log2 M + 1)%Z.
Proof.
  intros [|p|p] HM; try lia. apply digits2_log2.
Qed.

Lemma shr_pos :
  forall r e n, (0 < n)%Z ->
    shr r e n = (Nat.iter (Z.to_nat n) shr_1 r, (e + n)%Z).
Proof.
  intros r e [|p|p] Hn; try lia.
  unfold shr; rewrite iter_pos_nat; reflexivity.
Qed.

Lemma shr_nonpos :
  forall r e n, (n <= 0)%Z -> shr r e n = (r, e).
Proof.
  intros r e [|p|p] Hn; try lia; reflexivity.
Qed.

Lemma shr_record_of_loc_m : forall M l, shr_m (shr_record_of_loc M l) = M.
Proof. intros M [|[]]; reflexivity. Qed.

Lemma shr_fexp_bound :
  forall M e l, (0 <= M)%Z ->
    (0 <= shr_m (fst (shr_fexp prec emax M e l)) < 2 ^ 53)%Z.
Proof.
  intros M e l HM; unfold shr_fexp.
  change (fexp prec emax (Zdigits2 M + e) - e)%Z with (sh M e).
  destruct (Z.eq_dec M 0) as [->|HM0].
  - destruct (Z_lt_le_dec 0 (sh 0 e)) as [Hk|Hk].
    + rewrite shr_pos by exact Hk; cbn [fst].
      rewrite shr_iter_m; rewrite shr_record_of_loc_m; [|lia].
      rewrite Z.div_0_l by (apply Z.pow_nonzero; lia). lia.
    + rewrite shr_nonpos by exact Hk; cbn [fst].
      rewrite shr_record_of_loc_m; lia.
  - assert (Hpos : (0 < M)%Z) by lia.
    pose proof (Z.log2_spec M Hpos) as [Hlo Hhi].
    assert (Hsh : (Z.log2 M + 1 - 53 <= sh M e)%Z).
    { unfold sh; rewrite fexp_eq, Zdigits2_log2 by exact Hpos. lia. }
    destruct (Z_lt_le_dec 0 (sh M e)) as [Hk|Hk].
    + rewrite shr_pos by exact Hk; cbn [fst].
      rewrite shr_iter_m; rewrite shr_record_of_loc_m; [|lia].
      rewrite Z2Nat.id by lia.
      split; [apply Z.div_pos; [lia | apply Z.pow_pos_nonneg; lia]|].
      apply Z.div_lt_upper_bound; [apply Z.pow_pos_nonneg; lia|].
      rewrite <- Z.pow_add_r by lia.
      apply (Z.lt_le_trans _ (2 ^ Z.succ (Z.log2 M))); [exact Hhi|].
      apply Z.pow_le_mono_r; lia.
    + rewrite shr_nonpos by exact Hk; cbn [fst].
      rewrite shr_record_of_loc_m.
      split; [lia|].
      apply (Z.lt_le_trans _ (2 ^ Z.succ (Z.log2 M))); [exact Hhi|].
      apply Z.pow_le_mono_r; lia.
Qed.

Lemma round_nearest_even_nonneg :
  forall m l, (0 <= m)%Z -> (0 <= round_nearest_even m l)%Z.
Proof.
  intros m [|[]] Hm; simpl; try lia.
  destruct (Z.even m); lia.
Qed.

(** The result of rounding is a zero, an infinity or a finite number of the
    given sign whose mantissa has at most 53 bits. *)
Lemma binary_round_aux_shape :
  forall s M e l, (0 <= M)%Z ->
    binary_round_aux prec emax s M e l = S754_zero s \/
    binary_round_aux prec emax s M e l = S754_infinity s \/
    exists m e', binary_round_aux prec emax s M e l = S754_finite s m e' /\
                 (Zpos m < 2 ^ 53)%Z.
Proof.
  intros s M e l HM; unfold binary_round_aux.
  pose proof (shr_fexp_bound M e l HM) as H1.
  destruct (shr_fexp prec emax M e l) as [r1 e1]; cbn [fst] in H1.
  pose proof (round_nearest_even_nonneg (shr_m r1) (loc_of_shr_record r1)
                (proj1 H1)) as H2.
  pose proof (shr_fexp_bound _ e1 loc_Exact H2) as H3.
  destruct (shr_fexp prec emax _ e1 loc_Exact) as [r2 e2]; cbn [fst] in H3.
  destruct (shr_m r2) as [|m|m]; [left; reflexivity | | lia].
  destruct (e2 <=? emax - prec)%Z; [|right; left; reflexivity].
  right; right; exists m, e2; split; [reflexivity | lia].
Qed.

Lemma binary_round_aux_exact :
  forall s M e, (0 < M)%Z -> (0 <= sh M e)%Z ->
    (M mod 2 ^ sh M e = 0)%Z -> (e + sh M e <= 971)%Z ->
    binary_round_aux prec emax s M e loc_Exact
    = S754_finite s (Z.to_pos (M / 2 ^ sh M e)) (e + sh M e).
Proof.
  intros s M e HM Hk Hdiv Hmax.
  assert (HM' : (0 < M / 2 ^ sh M e)%Z).
  { apply Z.div_str_pos. split; [apply Z.pow_pos_nonneg; lia|].
    apply Z.mod_divide in Hdiv; [|apply Z.pow_nonzero; lia].
    apply Z.divide_pos_le; assumption. }
  assert (Hsh' : sh (M / 2 ^ sh M e) (e + sh M e) = 0%Z).
  { unfold sh at 1. rewrite Zdigits2_log2 by exact HM'.
    rewrite <- Z.shiftr_div_pow2, Z.log2_shiftr by lia.
    assert (Hlog : (sh M e <= Z.log2 M)%Z).
    { apply Z.log2_le_pow2; [lia|].
      apply Z.mod_divide in Hdiv; [|apply Z.pow_nonzero; lia].
      apply Z.divide_pos_le; assumption. }
    rewrite Z.max_r by lia.
    unfold sh in *. rewrite Zdigits2_log2 in * by exact HM.
    replace (Z.log2 M - (fexp prec emax (Z.log2 M + 1 + e) - e) + 1
             + (e + (fexp prec emax (Z.log2 M + 1 + e) - e)))%Z
      with (Z.log2 M + 1 + e)%Z by lia.
    lia. }
  unfold binary_round_aux.
  assert (H1 : shr_fexp prec emax M e loc_Exact
               = (Build_shr_record (M / 2 ^ sh M e) false false, (e + sh M e)%Z)).
  { unfold shr_fexp.
    change (fexp prec emax (Zdigits2 M + e) - e)%Z with (sh M e).
    cbn [shr_record_of_loc].
    destruct (Z.eq_dec (sh M e) 0) as [E|E].
    - rewrite E, shr_nonpos, Z.div_1_r, Z.add_0_r by lia; reflexivity.
    - rewrite shr_pos by lia.
      rewrite shr_iter_exact.
      + rewrite Z2Nat.id by lia; reflexivity.
      + lia.
      + rewrite Z2Nat.id by lia; exact Hdiv. }
  rewrite H1; cbn [shr_m loc_of_shr_record round_nearest_even].
  unfold shr_fexp.
  change (fexp prec emax (Zdigits2 (M / 2 ^ sh M e) + (e + sh M e)) - (e + sh M e))%Z
    with (sh (M / 2 ^ sh M e) (e + sh M e)).
  rewrite Hsh', shr_nonpos by lia; cbn [shr_record_of_loc shr_m].
  destruct (M / 2 ^ sh M e)%Z as [|m|m] eqn:Em; try lia.
  change (emax - prec)%Z with 971%Z.
  destruct (Z.leb_spec (e + sh M e) 971); [reflexivity | lia].
Qed.

Lemma log2_lt_53 : forall n, (0 < n < 2 ^ 53)%Z -> (0 <= Z.log2 n <= 52)%Z.
Proof.
  intros n [H0 H1]; split; [apply Z.log2_nonneg|].
  assert (Z.log2 n < 53)%Z by (apply Z.log2_lt_pow2; lia). lia.
Qed.

Lemma binary_round_aux_canon :
  forall s n j,
    (0 < n < 2 ^ 53)%Z -> (52 - Z.log2 n <= j)%Z ->
    binary_round_aux prec emax s (n * 2 ^ j) (- j) loc_Exact = canon s n.
Proof.
  intros s n j Hn Hj.
  pose proof (log2_lt_53 n Hn) as Hl.
  assert (Hj0 : (0 <= j)%Z) by lia.
  assert (HM : (0 < n * 2 ^ j)%Z) by (apply Z.mul_pos_pos; [lia | apply Z.pow_pos_nonneg; lia]).
  assert (Hsh : sh (n * 2 ^ j) (- j) = (Z.log2 n - 52 + j)%Z).
  { unfold sh; rewrite Zdigits2_log2, Z.log2_mul_pow2, fexp_eq by lia. lia. }
  rewrite binary_round_aux_exact; rewrite ?Hsh; try lia.
  - unfold canon. f_equal; [|lia]. f_equal.
    replace j with ((52 - Z.log2 n) + (Z.log2 n - 52 + j))%Z at 1 by lia.
    rewrite Z.pow_add_r, Z.mul_assoc by lia.
    apply Z.div_mul. apply Z.pow_nonzero; lia.
  - replace j with ((52 - Z.log2 n) + (Z.log2 n - 52 + j))%Z at 1 by lia.
    rewrite Z.pow_add_r, Z.mul_assoc by lia.
    apply Z.mod_mul. apply Z.pow_nonzero; lia.
Qed.

Lemma Pos_iter_xO :
  forall d p, Zpos (Pos.iter xO p d) = (Zpos p * 2 ^ Zpos d)%Z.
Proof.
  intros d p; induction d as [|d IH] using Pos.peano_ind.
  - simpl; lia.
  - rewrite Pos.iter_succ, Pos2Z.inj_xO, IH, Pos2Z.inj_succ, Z.pow_succ_r by lia. lia.
Qed.

Lemma binary_round_canon :
  forall s p, (Zpos p < 2 ^ 53)%Z -> binary_round prec emax s p 0 = canon s (Zpos p).
Proof.
  intros s p Hp.
  pose proof (log2_lt_53 (Zpos p) ltac:(lia)) as Hl.
  unfold binary_round, shl_align.
  rewrite digits2_log2, Z.add_0_r, fexp_eq, Z.sub_0_r.
  rewrite Z.max_l by lia.
  destruct (Z.log2 (Z.pos p) + 1 - 53)%Z as [|d|d] eqn:Ed; try lia.
  - rewrite <- (binary_round_aux_canon s (Zpos p) 0) by lia.
    rewrite Z.mul_1_r; reflexivity.
  - rewrite Pos_iter_xO.
    rewrite <- (binary_round_aux_canon s (Zpos p) (Zpos d)) by lia.
    reflexivity.
Qed.

Lemma of_int_canon :
  forall n, (0 < Z.abs n < 2 ^ 53)%Z -> of_int n = canon (n <? 0)%Z (Z.abs n).
Proof.
  intros [|p|p] Hn; simpl in Hn; try lia; unfold of_int, binary_normalize.
  - apply binary_round_canon; lia.
  - apply binary_round_canon; lia.
Qed.

Lemma canon_mantissa :
  forall n, (0 < n < 2 ^ 53)%Z ->
    Zpos (Z.to_pos (n * 2 ^ (52 - Z.log2 n))) = (n * 2 ^ (52 - Z.log2 n))%Z.
Proof.
  intros n Hn. pose proof (log2_lt_53 n Hn).
  apply Z2Pos.id. apply Z.mul_pos_pos; [lia | apply Z.pow_pos_nonneg; lia].
Qed.

Lemma mul_canon :
  forall s1 s2 a b,
    (0 < a < 2 ^ 53)%Z -> (0 < b < 2 ^ 53)%Z -> (a * b < 2 ^ 53)%Z ->
    SFmul prec emax (canon s1 a) (canon s2 b) = canon (xorb s1 s2) (a * b).
Proof.
  intros s1 s2 a b Ha Hb Hab.
  pose proof (log2_lt_53 a Ha) as Hla.
  pose proof (log2_lt_53 b Hb) as Hlb.
  assert (Hab0 : (0 < a * b)%Z) by (apply Z.mul_pos_pos; lia).
  pose proof (log2_lt_53 (a * b) ltac:(lia)) as Hlab.
  pose proof (Z.log2_mul_below a b ltac:(lia) ltac:(lia)) as Hbelow.
  unfold canon at 1 2; cbn [SFmul].
  rewrite Pos2Z.inj_mul, !canon_mantissa by assumption.
  replace (a * 2 ^ (52 - Z.log2 a) * (b * 2 ^ (52 - Z.log2 b)))%Z
    with (a * b * 2 ^ ((52 - Z.log2 a) + (52 - Z.log2 b)))%Z
    by (rewrite Z.pow_add_r by lia; ring).
  replace (Z.log2 a - 52 + (Z.log2 b - 52))%Z
    with (- ((52 - Z.log2 a) + (52 - Z.log2 b)))%Z by lia.
  apply binary_round_aux_canon; lia.
Qed.

Lemma value_canon :
  forall s n, (0 < n < 2 ^ 53)%Z ->
    value (canon s n) == inject_Z (if s then - n else n).
Proof.
  intros s n Hn. pose proof (log2_lt_53 n Hn) as Hl.
  unfold canon, value.
  pose proof (canon_mantissa n Hn) as Hm.
  destruct (Z.log2 n - 52)%Z as [|k|k] eqn:Ek; try lia.
  - replace (52 - Z.log2 n)%Z with 0%Z in * by lia.
    rewrite Z.mul_1_r in *.
    destruct s; rewrite ?Z.mul_1_r.
    + change (Z.neg (Z.to_pos n)) with (- Z.pos (Z.to_pos n))%Z. rewrite Hm; reflexivity.
    + rewrite Hm; reflexivity.
  - replace (52 - Z.log2 n)%Z with (Zpos k) in * by lia.
    unfold Qeq; cbn [Qnum Qden inject_Z].
    rewrite Pos2Z.inj_pow.
    destruct s.
    + change (Z.neg (Z.to_pos (n * 2 ^ Z.pos k))) with (- Z.pos (Z.to_pos (n * 2 ^ Z.pos k)))%Z.
      rewrite Hm. change (Z.pos 2) with 2%Z. lia.
    + rewrite Hm. change (Z.pos 2) with 2%Z. lia.
Qed.

(** ** Rounding and conversion *)

Lemma Qle_bool_inject_Z :
  forall z, Qle_bool 0 (inject_Z z) = (0 <=? z)%Z.
Proof.
  intros z; unfold Qle_bool; simpl; rewrite Z.mul_1_r; reflexivity.
Qed.

Lemma truncate_inject_Z : forall z, truncate (inject_Z z) = z.
Proof.
  intros z; unfold truncate.
  destruct (Qle_bool 0 (inject_Z z)); [apply Qfloor_Z | apply Qceiling_Z].
Qed.

#[local] Instance round_comp : Proper (Qeq ==> eq) round.
Proof.
  intros x y Hxy; unfold round.
  assert (Hb : Qle_bool 0 x = Qle_bool 0 y) by (rewrite Hxy; reflexivity).
  rewrite Hb; destruct (Qle_bool 0 y).
  - apply Qfloor_comp; rewrite Hxy; reflexivity.
  - apply Qceiling_comp; rewrite Hxy; reflexivity.
Qed.

#[local] Instance truncate_comp : Proper (Qeq ==> eq) truncate.
Proof.
  intros x y Hxy; unfold truncate.
  assert (Hb : Qle_bool 0 x = Qle_bool 0 y) by (rewrite Hxy; reflexivity).
  rewrite Hb; destruct (Qle_bool 0 y).
  - apply Qfloor_comp; exact Hxy.
  - apply Qceiling_comp; exact Hxy.
Qed.

Lemma round_nearest :
  forall q, q - (1 # 2) <= inject_Z (round q) /\ inject_Z (round q) <= q + (1 # 2).
Proof.
  intros q; unfold round.
  destruct (Qle_bool 0 q).
  - pose proof (Qfloor_le (q + (1 # 2))) as Hle.
    pose proof (Qlt_floor (q + (1 # 2))) as Hlt.
    rewrite inject_Z_plus in Hlt.
    change (inject_Z 1) with 1 in Hlt.
    split; [|exact Hle].
    apply Qlt_le_weak.
    apply (Qplus_lt_l _ _ 1).
    setoid_replace (q - (1 # 2) + 1) with (q + (1 # 2)) by ring.
    exact Hlt.
  - pose proof (Qle_ceiling (q - (1 # 2))) as Hle.
    pose proof (Qceiling_lt (q - (1 # 2))) as Hlt.
    unfold Zminus in Hlt; rewrite inject_Z_plus in Hlt.
    change (inject_Z (- (1))) with (- (1)) in Hlt.
    split; [exact Hle|].
    apply Qlt_le_weak.
    apply (Qplus_lt_l _ _ (- (1))).
    setoid_replace (q + (1 # 2) + - (1)) with (q - (1 # 2)) by ring.
    exact Hlt.
Qed.

Lemma round_inject_Z : forall z, round (inject_Z z) = z.
Proof.
  intros z; unfold round.
  rewrite Qle_bool_inject_Z.
  destruct (0 <=? z)%Z.
  - unfold Qfloor, Qplus, inject_Z; simpl.
    symmetry; apply (Z.div_unique _ 2 z 1); lia.
  - unfold Qceiling, Qfloor, Qminus, Qplus, Qopp, inject_Z; simpl.
    assert (H : ((- (z * 2 + -1)) / 2 = - z)%Z)
      by (symmetry; apply (Z.div_unique _ 2 (- z) 1); lia).
    rewrite H; lia.
Qed.

Lemma round_nonpositive : forall q, q <= 0 -> (round q <= 0)%Z.
Proof.
  intros q Hq; unfold round.
  destruct (Qle_bool 0 q) eqn:Hb.
  - apply Qle_bool_iff in Hb.
    assert (Hz : q == 0) by (apply Qle_antisym; assumption).
    rewrite Hz; reflexivity.
  - rewrite <- (Qceiling_Z 0); apply Qceiling_resp_le.
    apply (Qle_trans _ (0 - (1 # 2))); [|discriminate].
    apply Qplus_le_l; exact Hq.
Qed.

Lemma round_nonnegative : forall q, 0 <= q -> (0 <= round q)%Z.
Proof.
  intros q Hq; unfold round.
  assert (Hb : Qle_bool 0 q = true) by (apply Qle_bool_iff; exact Hq).
  rewrite Hb, <- (Qfloor_Z 0); apply Qfloor_resp_le.
  apply (Qle_trans _ q); [exact Hq|].
  rewrite <- (Qplus_0_r q) at 1.
  apply Qplus_le_r; discriminate.
Qed.

(** The nearest integer of [m / 2^k], for a mantissa [m]. *)
Lemma round_fraction :
  forall m k, round (Zpos m # 2 ^ k) = ((2 * Zpos m + Zpos (2 ^ k)) / (2 * Zpos (2 ^ k)))%Z.
Proof.
  intros m k; unfold round.
  assert (Hb : Qle_bool 0 (Zpos m # 2 ^ k) = true)
    by (apply Qle_bool_iff; unfold Qle; simpl; lia).
  rewrite Hb; unfold Qfloor, Qplus; cbn [Qnum Qden].
  f_equal; lia.
Qed.

Lemma round_fraction_neg :
  forall m k, round (Zneg m # 2 ^ k) = (- round (Zpos m # 2 ^ k))%Z.
Proof.
  intros m k; rewrite round_fraction; unfold round.
  assert (Hb : Qle_bool 0 (Zneg m # 2 ^ k) = false).
  { destruct (Qle_bool 0 (Z.neg m # 2 ^ k)) eqn:E; [|reflexivity].
    apply Qle_bool_iff in E; unfold Qle in E; simpl in E; lia. }
  rewrite Hb; unfold Qceiling, Qfloor, Qminus, Qplus, Qopp; cbn [Qnum Qden].
  f_equal; f_equal; lia.
Qed.

(** A double with fractional bits is below 2^52 in size, and so is its
    nearest integer. *)
Lemma round_fraction_bound :
  forall m k, (Zpos m < 2 ^ 53)%Z ->
    (0 <= round (Zpos m # 2 ^ k) < 2 ^ 53)%Z.
Proof.
  intros m k Hm; rewrite round_fraction.
  assert (Hd : (2 <= Zpos (2 ^ k))%Z).
  { rewrite Pos2Z.inj_pow.
    change 2%Z with (2 ^ 1)%Z at 1.
    apply Z.pow_le_mono_r; lia. }
  split.
  - apply Z.div_pos; lia.
  - apply Z.div_lt_upper_bound; [lia|].
    nia.
Qed.

(** ** Comparison with zero *)

Lemma SFleb_finite_zero :
  forall s m e, SFleb (S754_finite s m e) zero = s.
Proof. intros [] m e; reflexivity. Qed.

Lemma std_max_zero_cases :
  forall x,
    std_max x zero =
    match x with
    | S754_infinity true | S754_finite true _ _ => zero
    | _ => x
    end.
Proof.
  intros [s| [] | | [] m e]; try destruct s; reflexivity.
Qed.

Lemma static_cast_u32_canon :
  forall n, (0 < n < 2 ^ 53)%Z ->
    static_cast_u32 (canon false n) = if (n <=? u32_max)%Z then Some n else None.
Proof.
  intros n Hn; unfold static_cast_u32.
  change (match canon false n with
          | S754_nan | S754_infinity _ => None
          | _ =>
              let t := truncate (value (canon false n)) in
              if (0 <=? t)%Z && (t <=? u32_max)%Z then Some t else None
          end)
    with (let t := truncate (value (canon false n)) in
          if (0 <=? t)%Z && (t <=? u32_max)%Z then Some t else None).
  cbv zeta.
  rewrite (truncate_comp _ _ (value_canon false n Hn)), truncate_inject_Z.
  destruct (Z.leb_spec 0 n); [reflexivity | lia].
Qed.

(** ** Multiplication *)

Lemma SFmul_short :
  forall x y, short_mantissa (SFmul prec emax x y) = true.
Proof.
  intros x y.
  destruct x as [sx|sx| |sx mx ex], y as [sy|sy| |sy my ey]; try reflexivity.
  cbn [SFmul].
  destruct (binary_round_aux_shape (xorb sx sy) (Zpos (mx * my)) (ex + ey) loc_Exact)
    as [H | [H | (m & e' & H & Hm)]]; [lia | | |]; rewrite H; cbn [short_mantissa];
    try reflexivity.
  apply Z.ltb_lt; exact Hm.
Qed.

(** What the right-hand side of [ScaleTouch] does to a product: it rounds to
    the nearest integer and clamps at zero. *)
Lemma cast_max_round :
  forall p,
    short_mantissa p = true ->
    static_cast_u32 (std_max (std_round p) zero) = rounded_clamped p.
Proof.
  intros p Hp; rewrite std_max_zero_cases.
  destruct p as [s|s| |s m e]; cbn [std_round].
  - destruct s; reflexivity.
  - destruct s; reflexivity.
  - reflexivity.
  - cbn [short_mantissa] in Hp; apply Z.ltb_lt in Hp.
    destruct e as [|e|k].
    + (* a whole number *)
      unfold rounded_clamped, static_cast_u32, value; cbv zeta.
      destruct s.
      * rewrite round_inject_Z.
        rewrite Z.max_l by lia; reflexivity.
      * rewrite round_inject_Z, truncate_inject_Z.
        rewrite Z.max_r by lia.
        destruct (Z.leb_spec 0 (Z.pos m * 2 ^ 0)); [reflexivity | lia].
    + unfold rounded_clamped, static_cast_u32, value; cbv zeta.
      assert (Hpow : (0 < 2 ^ Z.pos e)%Z) by (apply Z.pow_pos_nonneg; lia).
      destruct s.
      * rewrite round_inject_Z.
        rewrite Z.max_l by nia; reflexivity.
      * rewrite round_inject_Z, truncate_inject_Z.
        rewrite Z.max_r by nia.
        destruct (Z.leb_spec 0 (Z.pos m * 2 ^ Z.pos e)); [reflexivity | nia].
    + (* fractional bits *)
      pose proof (round_fraction_bound m k Hp) as HR.
      unfold rounded_clamped; cbv zeta.
      cbn [value].
      destruct s.
      * rewrite round_fraction_neg.
        set (R := round (Z.pos m # 2 ^ k)) in *.
        destruct (Z.eqb_spec (- R) 0) as [E|E].
        -- rewrite E; reflexivity.
        -- rewrite of_int_canon by lia.
           assert (Hneg : (- R <? 0)%Z = true) by (apply Z.ltb_lt; lia).
           rewrite Hneg; unfold canon.
           rewrite Z.max_l by lia; reflexivity.
      * set (R := round (Z.pos m # 2 ^ k)) in *.
        destruct (Z.eqb_spec R 0) as [E|E].
        -- rewrite E; reflexivity.
        -- rewrite of_int_canon by lia.
           assert (Hpos : (R <? 0)%Z = false) by (apply Z.ltb_ge; lia).
           rewrite Hpos, Z.abs_eq by lia.
           unfold canon at 1.
           fold (canon false R).
           rewrite static_cast_u32_canon by lia.
           rewrite Z.max_r by lia; reflexivity.
Qed.

Lemma ScaleTouch_scaled :
  forall w p,
    ScaleTouch w p =
    match scaled (devicePixelRatioF w) (xp p), scaled (devicePixelRatioF w) (yp p) with
    | Some x, Some y => Some (x, y)
    | _, _ => None
    end.
Proof.
  intros w p; unfold ScaleTouch, windowPixelRatio, scaled; cbv zeta.
  rewrite !cast_max_round by apply SFmul_short.
  reflexivity.
Qed.

Lemma ScaleTouch_forward :
  forall w p (f : Z -> Z -> effect),
    match ScaleTouch w p with
    | Some (x, y) => Some [f x y]
    | None => None
    end =
    forward f (scaled (devicePixelRatioF w) (xp p)) (scaled (devicePixelRatioF w) (yp p)).
Proof.
  intros w p f; rewrite ScaleTouch_scaled; unfold forward.
  destruct (scaled (devicePixelRatioF w) (xp p)),
           (scaled (devicePixelRatioF w) (yp p)); reflexivity.
Qed.

Lemma rounded_clamped_range :
  forall p n, rounded_clamped p = Some n -> (0 <= n <= u32_max)%Z.
Proof.
  intros p n; unfold rounded_clamped; cbv zeta.
  destruct p as [s|[]| |s m e]; try discriminate.
  - destruct (Z.leb_spec (Z.max 0 (round (value (S754_zero s)))) u32_max);
      [|discriminate].
    intros G; injection G as <-; split; [apply Z.le_max_l | assumption].
  - intros G; injection G as <-; unfold u32_max; lia.
  - destruct (Z.leb_spec (Z.max 0 (round (value (S754_finite s m e)))) u32_max);
      [|discriminate].
    intros G; injection G as <-; split; [apply Z.le_max_l | assumption].
Qed.

(** ** A positive whole number is not converted to zero *)

Lemma sh_nonneg_exponent :
  forall M e, (0 < M)%Z -> (0 <= e)%Z -> sh M e = (Z.log2 M - 52)%Z.
Proof.
  intros M e HM He; unfold sh.
  rewrite fexp_eq, Zdigits2_log2 by exact HM.
  pose proof (Z.log2_nonneg M); lia.
Qed.

Lemma shr_fexp_positive :
  forall M e l, (0 < M)%Z -> (0 <= e)%Z ->
    (0 < shr_m (fst (shr_fexp prec emax M e l)))%Z /\
    (0 <= snd (shr_fexp prec emax M e l))%Z.
Proof.
  intros M e l HM He; unfold shr_fexp.
  change (fexp prec emax (Zdigits2 M + e) - e)%Z with (sh M e).
  rewrite sh_nonneg_exponent by assumption.
  pose proof (Z.log2_spec M HM) as [Hlo Hhi].
  destruct (Z_lt_le_dec 0 (Z.log2 M - 52)) as [Hk|Hk].
  - rewrite shr_pos by exact Hk; cbn [fst snd].
    rewrite shr_iter_m; rewrite shr_record_of_loc_m; [|lia].
    rewrite Z2Nat.id by lia.
    split; [|lia].
    apply Z.div_str_pos; split; [apply Z.pow_pos_nonneg; lia|].
    apply (Z.le_trans _ (2 ^ Z.log2 M)); [|exact Hlo].
    apply Z.pow_le_mono_r; lia.
  - rewrite shr_nonpos by exact Hk; cbn [fst snd].
    rewrite shr_record_of_loc_m; lia.
Qed.

Lemma round_nearest_even_ge :
  forall m l, (m <= round_nearest_even m l)%Z.
Proof.
  intros m [|[]]; simpl; try lia.
  destruct (Z.even m); lia.
Qed.

Lemma binary_round_aux_nonzero :
  forall s s' M e l, (0 < M)%Z -> (0 <= e)%Z ->
    binary_round_aux prec emax s M e l <> S754_zero s'.
Proof.
  intros s s' M e l HM He; unfold binary_round_aux.
  pose proof (shr_fexp_positive M e l HM He) as [H1 H1e].
  destruct (shr_fexp prec emax M e l) as [r1 e1]; cbn [fst snd] in H1, H1e.
  pose proof (round_nearest_even_ge (shr_m r1) (loc_of_shr_record r1)) as H2.
  assert (H2' : (0 < round_nearest_even (shr_m r1) (loc_of_shr_record r1))%Z) by lia.
  pose proof (shr_fexp_positive _ e1 loc_Exact H2' H1e) as [H3 _].
  destruct (shr_fexp prec emax _ e1 loc_Exact) as [r2 e2]; cbn [fst] in H3.
  destruct (shr_m r2) as [|m|m]; try lia.
  destruct (e2 <=? emax - prec)%Z; discriminate.
Qed.

Lemma of_int_positive :
  forall n, (0 < n)%Z -> of_int n <> S754_zero false.
Proof.
  intros n Hn.
  destruct (Z_lt_le_dec n (2 ^ 53)) as [Hs|Hl].
  - rewrite of_int_canon by lia; discriminate.
  - destruct n as [|p|p]; try lia.
    unfold of_int, binary_normalize, binary_round, shl_align.
    rewrite digits2_log2, Z.add_0_r, fexp_eq, Z.sub_0_r.
    assert (Hlog : (53 <= Z.log2 (Z.pos p))%Z)
      by (apply Z.log2_le_pow2; lia).
    rewrite Z.max_l by lia.
    destruct (Z.log2 (Z.pos p) + 1 - 53)%Z as [|d|d] eqn:Ed; try lia.
    apply binary_round_aux_nonzero; lia.
Qed.

(** ** The averaging loop *)

Lemma fold_accumulate :
  forall tps acc,
    fold_left accumulate tps acc =
    (fold_left point_add (map pos (filter is_active tps)) (fst acc),
     (snd acc + Z.of_nat (List.length (filter is_active tps)))%Z).
Proof.
  induction tps as [|tp tps IH]; intros [p n]; simpl.
  - rewrite Z.add_0_r; reflexivity.
  - rewrite IH; unfold accumulate.
    destruct (is_active tp); simpl; [|reflexivity].
    f_equal; lia.
Qed.

Lemma fold_point_add :
  forall ps acc,
    xp (fold_left point_add ps acc) = fold_left (SFadd prec emax) (map xp ps) (xp acc) /\
    yp (fold_left point_add ps acc) = fold_left (SFadd prec emax) (map yp ps) (yp acc).
Proof.
  induction ps as [|p ps IH]; intros acc; [split; reflexivity|].
  cbn [fold_left map].
  destruct (IH (point_add acc p)) as [Hx Hy].
  rewrite Hx, Hy; split; reflexivity.
Qed.

Lemma average_loop_active :
  forall ev,
    snd (average_loop (touchPoints ev)) = Z.of_nat (List.length (active_points ev)) /\
    xp (fst (average_loop (touchPoints ev))) = sum_x (map pos (active_points ev)) /\
    yp (fst (average_loop (touchPoints ev))) = sum_y (map pos (active_points ev)).
Proof.
  intros ev; unfold average_loop, active_points.
  rewrite fold_accumulate; cbn [fst snd].
  destruct (fold_point_add (map pos (filter is_active (touchPoints ev))) origin)
    as [Hx Hy].
  split; [reflexivity|].
  rewrite Hx, Hy; split; reflexivity.
Qed.

(** The handler forwards the scaled quotient of the sum and the count. *)
Lemma TouchUpdateEvent_mean :
  forall w ev,
    TouchUpdateEvent w ev =
    forward TouchMoved
      (scaled (devicePixelRatioF w) (mean_x (map pos (active_points ev))))
      (scaled (devicePixelRatioF w) (mean_y (map pos (active_points ev)))).
Proof.
  intros w ev.
  destruct (average_loop_active ev) as (Hn & Hx & Hy).
  unfold TouchUpdateEvent.
  destruct (average_loop (touchPoints ev)) as [total n]; cbn [fst snd] in Hn, Hx, Hy.
  cbv zeta; rewrite ScaleTouch_forward.
  unfold point_div, mean_x, mean_y; cbn [xp yp].
  rewrite length_map, <- Hn, Hx, Hy; reflexivity.
Qed.

Lemma TouchUpdateEvent_inactive :
  forall w ev, active_points ev = [] -> TouchUpdateEvent w ev = None.
Proof.
  intros w ev Hnil; rewrite TouchUpdateEvent_mean, Hnil; reflexivity.
Qed.

Lemma scaled_nearest :
  forall r c n,
    scaled r c = Some n ->
    (0 <= n)%Z /\
    (is_number (SFmul prec emax c r) = true ->
     0 <= value (SFmul prec emax c r) ->
     value (SFmul prec emax c r) - (1 # 2) <= inject_Z n /\
     inject_Z n <= value (SFmul prec emax c r) + (1 # 2)).
Proof.
  intros r c n H.
  split; [apply (rounded_clamped_range _ _ H)|].
  unfold scaled in H.
  set (p := SFmul prec emax c r) in *.
  intros Hnum Hpos.
  assert (E : n = round (value p)).
  { unfold rounded_clamped in H; cbv zeta in H.
    pose proof (round_nonnegative _ Hpos) as Hr.
    rewrite Z.max_r in H by exact Hr.
    destruct p as [s|s| |s m e]; try discriminate Hnum;
      destruct (_ <=? u32_max)%Z; try discriminate H;
      injection H as <-; reflexivity. }
  rewrite E; apply round_nearest.
Qed.

(** C5, refuted as stated: a touch update in which one finger has left the
    surface at (0,0) while another moves at (10,10) is forwarded as (10,10);
    the mean of the positions of its touch points is (5,5). *)
Lemma touch_update_is_not_mean_of_all_points :
  TouchUpdateEvent plain_widget lift_and_move = Some [TouchMoved 10 10] /\
  forward TouchMoved
    (scaled (devicePixelRatioF plain_widget) (mean_x (map pos (touchPoints lift_and_move))))
    (scaled (devicePixelRatioF plain_widget) (mean_y (map pos (touchPoints lift_and_move))))
  = Some [TouchMoved 5 5].
Proof.
  split; vm_compute; reflexivity.
Qed.

(** C5, amended.  A touch-begin event forwards [TouchPressed] with the
    position of its first touch point, each coordinate multiplied by the
    device pixel ratio (a product of doubles), rounded to the nearest integer
    and clamped at zero.  A touch-update event with at least one pressed,
    moved or stationary point forwards [TouchMoved] with the arithmetic mean
    of the positions of those points (their sum in doubles, divided by their
    number), scaled the same way.  A scaled coordinate is never negative, and
    it is within one half of the product whenever the product is a number
    that is not negative.  (For coordinates a [u32] can hold; the conversion
    of larger ones, and of a NaN, is undefined.) *)
Theorem touch_coordinates :
  forall w ev,
    (forall tp rest,
        touchPoints ev = tp :: rest ->
        TouchBeginEvent w ev =
        forward TouchPressed
          (scaled (devicePixelRatioF w) (xp (pos tp)))
          (scaled (devicePixelRatioF w) (yp (pos tp)))) /\
    (active_points ev <> [] ->
     TouchUpdateEvent w ev =
     forward TouchMoved
       (scaled (devicePixelRatioF w) (mean_x (map pos (active_points ev))))
       (scaled (devicePixelRatioF w) (mean_y (map pos (active_points ev))))) /\
    (forall c n,
        scaled (devicePixelRatioF w) c = Some n ->
        (0 <= n)%Z /\
        (is_number (SFmul prec emax c (devicePixelRatioF w)) = true ->
         0 <= value (SFmul prec emax c (devicePixelRatioF w)) ->
         value (SFmul prec emax c (devicePixelRatioF w)) - (1 # 2) <= inject_Z n /\
         inject_Z n <= value (SFmul prec emax c (devicePixelRatioF w)) + (1 # 2))).
Proof.
  intros w ev; split; [|split].
  - intros tp rest Htp; unfold TouchBeginEvent; rewrite Htp.
    apply ScaleTouch_forward.
  - intros _; apply TouchUpdateEvent_mean.
  - intros c n; apply scaled_nearest.
Qed.

Lemma touch_coordinates_witness :
  touchPoints press_and_move =
    MkTouchPoint TouchPointPressed (at_point 50 30)
      :: [MkTouchPoint TouchPointMoved (at_point 21 40)] /\
  active_points press_and_move <> [] /\
  TouchBeginEvent scaled_widget press_and_move = Some [TouchPressed 57 35] /\
  TouchUpdateEvent scaled_widget press_and_move = Some [TouchMoved 41 40] /\
  value (SFmul prec emax (of_int 30) ratio_1_15) == 69 # 2 /\
  (69 # 2) - (1 # 2) <= inject_Z 35 /\ inject_Z 35 <= (69 # 2) + (1 # 2).
Proof.
  split; [reflexivity|].
  split; [discriminate|].
  destruct (touch_coordinates scaled_widget press_and_move) as (Hbegin & Hupdate & Hnear).
  split; [rewrite (Hbegin _ _ eq_refl); vm_compute; reflexivity|].
  split; [rewrite (Hupdate ltac:(discriminate)); vm_compute; reflexivity|].
  assert (Hv : value (SFmul prec emax (of_int 30) ratio_1_15) == 69 # 2)
    by (vm_compute; reflexivity).
  split; [exact Hv|].
  destruct (Hnear (of_int 30) 35%Z ltac:(vm_compute; reflexivity)) as [_ Hn].
  rewrite <- Hv.
  apply Hn; [vm_compute; reflexivity | rewrite Hv; discriminate].
Defined.

(** ** Which touch points count *)

Lemma land_7_zero :
  forall s,
    Z.land s 7 = 0%Z <->
    Z.testbit s 0 = false /\ Z.testbit s 1 = false /\ Z.testbit s 2 = false.
Proof.
  intros s; split.
  - intros H.
    assert (Hb : forall k, Z.testbit s k && Z.testbit 7 k = false).
    { intros k; rewrite <- Z.land_spec, H; apply Z.bits_0. }
    pose proof (Hb 0%Z) as H0; pose proof (Hb 1%Z) as H1; pose proof (Hb 2%Z) as H2.
    change (Z.testbit 7 0) with true in H0.
    change (Z.testbit 7 1) with true in H1.
    change (Z.testbit 7 2) with true in H2.
    rewrite andb_true_r in H0, H1, H2; auto.
  - intros (H0 & H1 & H2).
    apply Z.bits_inj'; intros n Hn.
    rewrite Z.land_spec, Z.bits_0.
    destruct (Z.eq_dec n 0) as [->|N0]; [rewrite H0; reflexivity|].
    destruct (Z.eq_dec n 1) as [->|N1]; [rewrite H1; reflexivity|].
    destruct (Z.eq_dec n 2) as [->|N2]; [rewrite H2; reflexivity|].
    rewrite (Z.bits_above_log2 7 n); [apply andb_false_r | lia |].
    change (Z.log2 7) with 2%Z; lia.
Qed.

Lemma is_active_bits :
  forall tp,
    is_active tp = true <->
    Z.testbit (state tp) 0 || Z.testbit (state tp) 1 || Z.testbit (state tp) 2 = true.
Proof.
  intros tp; unfold is_active.
  change active_mask with 7%Z.
  rewrite negb_true_iff, Z.eqb_neq.
  pose proof (land_7_zero (state tp)) as H.
  destruct (Z.testbit (state tp) 0), (Z.testbit (state tp) 1), (Z.testbit (state tp) 2);
    simpl; split; intros G; try reflexivity; try discriminate;
    try (intros E; apply H in E; destruct E as (E0 & E1 & E2); discriminate).
  exfalso; apply G; apply H; auto.
Qed.

Lemma filter_nothing :
  forall (A : Type) (f : A -> bool) (l : list A),
    (forall x, In x l -> f x = false) -> filter f l = [].
Proof.
  intros A f l; induction l as [|x l IH]; intros H; [reflexivity|].
  simpl; rewrite (H x) by (left; reflexivity).
  apply IH; intros y Hy; apply H; right; exact Hy.
Qed.

(** C9.  After the loop of [TouchUpdateEvent], [active_points] is the number
    of touch points whose state has the Pressed, Moved or Stationary bit, and
    [pos] is the sum, in doubles, of the positions of exactly those points; a
    point that is only Released adds nothing.  The handler then divides the
    sum by that count without a test and forwards the scaled quotient,
    whatever the count.  The divisor is not zero as soon as one point is
    active.  When none is, it is zero: the quotient 0.0 / 0 is a NaN, whose
    conversion is undefined. *)
Theorem touch_update_divisor :
  forall ev,
    snd (average_loop (touchPoints ev)) = Z.of_nat (List.length (active_points ev)) /\
    xp (fst (average_loop (touchPoints ev))) = sum_x (map pos (active_points ev)) /\
    yp (fst (average_loop (touchPoints ev))) = sum_y (map pos (active_points ev)) /\
    (forall tp,
        In tp (active_points ev) <->
        In tp (touchPoints ev) /\
        Z.testbit (state tp) 0 || Z.testbit (state tp) 1 || Z.testbit (state tp) 2 = true) /\
    (forall p,
        is_active (MkTouchPoint TouchPointPressed p) = true /\
        is_active (MkTouchPoint TouchPointMoved p) = true /\
        is_active (MkTouchPoint TouchPointStationary p) = true /\
        is_active (MkTouchPoint TouchPointReleased p) = false) /\
    (forall w,
        TouchUpdateEvent w ev =
        forward TouchMoved
          (scaled (devicePixelRatioF w)
             (SFdiv prec emax (sum_x (map pos (active_points ev)))
                (of_int (Z.of_nat (List.length (active_points ev))))))
          (scaled (devicePixelRatioF w)
             (SFdiv prec emax (sum_y (map pos (active_points ev)))
                (of_int (Z.of_nat (List.length (active_points ev))))))) /\
    ((exists tp, In tp (touchPoints ev) /\ is_active tp = true) ->
     snd (average_loop (touchPoints ev)) <> 0%Z /\
     of_int (snd (average_loop (touchPoints ev))) <> S754_zero false) /\
    ((forall tp, In tp (touchPoints ev) -> is_active tp = false) ->
     snd (average_loop (touchPoints ev)) = 0%Z /\
     point_div (fst (average_loop (touchPoints ev))) (snd (average_loop (touchPoints ev)))
       = MkQPointF S754_nan S754_nan /\
     forall w, TouchUpdateEvent w ev = None).
Proof.
  intros ev.
  destruct (average_loop_active ev) as (Hn & Hx & Hy).
  split; [exact Hn|]. split; [exact Hx|]. split; [exact Hy|].
  split; [|split; [|split; [|split]]].
  - intros tp; unfold active_points.
    rewrite filter_In, is_active_bits; reflexivity.
  - intros p; repeat split; reflexivity.
  - intros w; rewrite TouchUpdateEvent_mean.
    unfold mean_x, mean_y; rewrite length_map; reflexivity.
  - intros (tp & Hin & Hact).
    assert (Hin' : In tp (active_points ev))
      by (unfold active_points; apply filter_In; auto).
    rewrite Hn.
    assert (Hpos : (0 < Z.of_nat (List.length (active_points ev)))%Z)
      by (destruct (active_points ev); [destruct Hin' | simpl; lia]).
    split; [lia|].
    apply of_int_positive; exact Hpos.
  - intros Hnone.
    assert (Hnil : active_points ev = [])
      by (apply filter_nothing; exact Hnone).
    split; [rewrite Hn, Hnil; reflexivity|].
    split.
    + unfold point_div; rewrite Hx, Hy, Hn, Hnil; reflexivity.
    + intros w; apply TouchUpdateEvent_inactive; exact Hnil.
Qed.

Lemma touch_update_divisor_witness :
  (exists tp, In tp (touchPoints lift_and_move) /\ is_active tp = true) /\
  snd (average_loop (touchPoints lift_and_move)) <> 0%Z /\
  (forall tp, In tp (touchPoints all_released) -> is_active tp = false) /\
  snd (average_loop (touchPoints all_released)) = 0%Z /\
  TouchUpdateEvent plain_widget all_released = None.
Proof.
  assert (H1 : exists tp, In tp (touchPoints lift_and_move) /\ is_active tp = true).
  { exists (MkTouchPoint TouchPointMoved (at_point 10 10)).
    split; [right; left; reflexivity | reflexivity]. }
  assert (H2 : forall tp, In tp (touchPoints all_released) -> is_active tp = false).
  { intros tp [<-|[<-|[]]]; reflexivity. }
  split; [exact H1|].
  destruct (touch_update_divisor lift_and_move) as (_ & _ & _ & _ & _ & _ & Hnz & _).
  split; [exact (proj1 (Hnz H1))|].
  split; [exact H2|].
  destruct (touch_update_divisor all_released) as (_ & _ & _ & _ & _ & _ & _ & Hz).
  destruct (Hz H2) as (Hzero & _ & Hnone).
  split; [exact Hzero | apply Hnone].
Defined.

(** ** Sequences of calls *)

Lemma run_app :
  forall a b w,
    run w (a ++ b) =
    match run w a with
    | None => None
    | Some (w1, e1) =>
        match run w1 b with
        | None => None
        | Some (w2, e2) => Some (w2, e1 ++ e2)
        end
    end.
Proof.
  induction a as [|o a IH]; intros b w; simpl.
  - destruct (run w b) as [[w2 e2]|]; reflexivity.
  - destruct (apply_op w o) as [[w1 e1]|]; [|reflexivity].
    rewrite IH.
    destruct (run w1 a) as [[w2 e2]|]; [|reflexivity].
    destruct (run w2 b) as [[w3 e3]|]; [|reflexivity].
    rewrite app_assoc; reflexivity.
Qed.

Lemma OnFramebufferSizeChanged_effects :
  forall w e,
    OnFramebufferSizeChanged w = Some e ->
    exists fw fh, e = [UpdateCurrentFramebufferLayout fw fh].
Proof.
  intros w e; unfold OnFramebufferSizeChanged.
  destruct (static_cast_u32 _) as [fw|]; [|discriminate].
  destruct (static_cast_u32 _) as [fh|]; [|discriminate].
  intros H; injection H as <-; eauto.
Qed.

Lemma emit_effects :
  forall w l e,
    emit w l = Some e -> filter is_first_frame_displayed e = [].
Proof.
  intros w l; induction l as [|s l IH]; intros e; simpl.
  - intros H; injection H as <-; reflexivity.
  - destruct s; simpl.
    destruct (OnFramebufferSizeChanged w) as [e1|] eqn:H1; [|discriminate].
    destruct (emit w l) as [e2|]; [|discriminate].
    intros H; injection H as <-.
    apply OnFramebufferSizeChanged_effects in H1 as (fw & fh & ->).
    simpl; apply IH; reflexivity.
Qed.

(** Handlers other than [PollEvents] and [InitRenderTarget] neither touch
    [first_frame] nor emit the notification. *)
Lemma other_op_first_frame :
  forall w o w' e,
    is_init o = false -> is_poll o = false ->
    apply_op w o = Some (w', e) ->
    first_frame w' = first_frame w /\ count_first_frame e = 0%nat.
Proof.
  intros w o w' e Hinit Hpoll; unfold count_first_frame.
  destruct o; try discriminate; simpl; unfold keep.
  - intros H; injection H as <- <-; auto.
  - destruct (resizeEvent _) as [e1|] eqn:H1; [|discriminate].
    intros H; injection H as <- <-.
    apply OnFramebufferSizeChanged_effects in H1 as (fw & fh & ->); auto.
  - destruct (emit _ _) as [e1|] eqn:H1; [|discriminate].
    intros H; injection H as <- <-.
    apply emit_effects in H1; rewrite H1; auto.
  - destruct (event w e0) as [e1|] eqn:H1; [|discriminate].
    intros H; injection H as <- <-; split; [reflexivity|].
    destruct e0; simpl in H1;
      unfold TouchBeginEvent, TouchUpdateEvent, TouchEndEvent in H1;
      repeat match type of H1 with
             | context [match ?x with _ => _ end] => destruct x; try discriminate
             end;
      injection H1 as <-; reflexivity.
  - destruct (mousePressEvent w ev) as [e1|] eqn:H1; [|discriminate].
    intros H; injection H as <- <-; split; [reflexivity|].
    unfold mousePressEvent in H1;
      repeat match type of H1 with
             | context [match ?x with _ => _ end] => destruct x; try discriminate
             end;
      injection H1 as <-; reflexivity.
  - destruct (mouseMoveEvent w ev) as [e1|] eqn:H1; [|discriminate].
    intros H; injection H as <- <-; split; [reflexivity|].
    unfold mouseMoveEvent in H1;
      repeat match type of H1 with
             | context [match ?x with _ => _ end] => destruct x; try discriminate
             end;
      injection H1 as <-; reflexivity.
  - destruct (mouseReleaseEvent w ev) as [e1|] eqn:H1; [|discriminate].
    intros H; injection H as <- <-; split; [reflexivity|].
    unfold mouseReleaseEvent in H1;
      repeat match type of H1 with
             | context [match ?x with _ => _ end] => destruct x; try discriminate
             end;
      injection H1 as <-; reflexivity.
Qed.

Lemma quiet_before_poll :
  forall ops w w' e,
    existsb is_init ops = false -> existsb is_poll ops = false ->
    run w ops = Some (w', e) ->
    first_frame w' = first_frame w /\ count_first_frame e = 0%nat.
Proof.
  induction ops as [|o ops IH]; intros w w' e Hinit Hpoll; simpl.
  - intros H; injection H as <- <-; auto.
  - simpl in Hinit, Hpoll.
    apply orb_false_iff in Hinit as [Hi1 Hi2].
    apply orb_false_iff in Hpoll as [Hp1 Hp2].
    destruct (apply_op w o) as [[w1 e1]|] eqn:H1; [|discriminate].
    destruct (run w1 ops) as [[w2 e2]|] eqn:H2; [|discriminate].
    intros H; injection H as <- <-.
    destruct (other_op_first_frame w o w1 e1 Hi1 Hp1 H1) as [Hf1 Hc1].
    destruct (IH w1 w2 e2 Hi2 Hp2 H2) as [Hf2 Hc2].
    split; [congruence|].
    unfold count_first_frame in *; rewrite filter_app, length_app; lia.
Qed.

Lemma quiet_after_poll :
  forall ops w w' e,
    existsb is_init ops = false -> first_frame w = true ->
    run w ops = Some (w', e) ->
    first_frame w' = true /\ count_first_frame e = 0%nat.
Proof.
  induction ops as [|o ops IH]; intros w w' e Hinit Hff; simpl.
  - intros H; injection H as <- <-; auto.
  - simpl in Hinit; apply orb_false_iff in Hinit as [Hi1 Hi2].
    destruct (apply_op w o) as [[w1 e1]|] eqn:H1; [|discriminate].
    destruct (run w1 ops) as [[w2 e2]|] eqn:H2; [|discriminate].
    intros H; injection H as <- <-.
    assert (Hstep : first_frame w1 = true /\ count_first_frame e1 = 0%nat).
    { destruct (is_poll o) eqn:Hp.
      - destruct o; try discriminate; simpl in H1.
        unfold PollEvents in H1; rewrite Hff in H1.
        injection H1 as <- <-; auto.
      - destruct (other_op_first_frame w o w1 e1 Hi1 Hp H1) as [Hf Hc].
        split; [congruence | exact Hc]. }
    destruct Hstep as [Hf1 Hc1].
    destruct (IH w1 w2 e2 Hi2 Hf1 H2) as [Hf2 Hc2].
    split; [exact Hf2|].
    unfold count_first_frame in *; rewrite filter_app, length_app; lia.
Qed.

(** ** What the initialisation leaves of the widget *)

Lemma and_then_inv :
  forall (A B : Type) (r : option (A * list effect))
         (k : A -> option (B * list effect)) b e,
    and_then r k = Some (b, e) ->
    exists a e1 e2, r = Some (a, e1) /\ k a = Some (b, e2) /\ e = e1 ++ e2.
Proof.
  intros A B r k b e; unfold and_then.
  destruct r as [[a e1]|]; [|discriminate].
  destruct (k a) as [[b' e2]|] eqn:Hk; [|discriminate].
  intros H; injection H as <- <-.
  exists a, e1, e2; repeat split; exact Hk.
Qed.

Lemma resized_by_inv :
  forall r w w' e,
    resized_by r w = Some (w', e) ->
    w' = with_size (fst (new_size r)) (snd (new_size r)) w /\
    (e = [] \/ exists fw fh, e = [UpdateCurrentFramebufferLayout fw fh]).
Proof.
  intros r w w' e; unfold resized_by, keep, resizeEvent; cbv zeta.
  destruct (event_sent r).
  - destruct (OnFramebufferSizeChanged _) as [e1|] eqn:H1; [|discriminate].
    intros H; injection H as <- <-.
    split; [reflexivity | right; apply (OnFramebufferSizeChanged_effects _ _ H1)].
  - intros H; injection H as <- <-; auto.
Qed.

(** Lines 532-537 change the size of the widget and nothing else, and they
    forward layout updates only, the last of them for the size the widget has
    in the end. *)
Lemma reset_size_inv :
  forall env w w' e,
    reset_size env w = Some (w', e) ->
    w' = with_size (width w') (height w') w /\
    exists before fw fh,
      e = before ++ [UpdateCurrentFramebufferLayout fw fh] /\
      forallb is_layout_update before = true /\
      OnFramebufferSizeChanged w' = Some [UpdateCurrentFramebufferLayout fw fh].
Proof.
  intros env w w' e H; unfold reset_size in H.
  apply and_then_inv in H as (w1 & e1 & r1 & H1 & H & ->).
  apply and_then_inv in H as (w2 & e2 & r2 & H2 & H & ->).
  apply and_then_inv in H as (w3 & e3 & r3 & H3 & H & ->).
  unfold OnMinimalClientAreaChangeRequest in H3.
  apply resized_by_inv in H1 as [-> L1].
  apply resized_by_inv in H2 as [-> L2].
  apply resized_by_inv in H3 as [-> L3].
  unfold keep in H.
  destruct (OnFramebufferSizeChanged _) as [e4|] eqn:H4; [|discriminate].
  injection H as <- <-.
  split; [reflexivity|].
  destruct (OnFramebufferSizeChanged_effects _ _ H4) as (fw & fh & ->).
  exists (e1 ++ e2 ++ e3), fw, fh.
  split; [rewrite <- !app_assoc; reflexivity|].
  split; [|exact H4].
  rewrite !forallb_app.
  destruct L1 as [-> | (a1 & b1 & ->)], L2 as [-> | (a2 & b2 & ->)],
           L3 as [-> | (a3 & b3 & ->)]; reflexivity.
Qed.

Lemma ReleaseRenderTarget_inv :
  forall w w',
    ReleaseRenderTarget w = Some w' ->
    w' = with_main_context None (with_child_context None w).
Proof.
  intros w w'; unfold ReleaseRenderTarget.
  destruct (drop (child_context w)); [|discriminate].
  destruct (drop (main_context (with_child_context None w))); [|discriminate].
  intros H; injection H as <-; reflexivity.
Qed.

(** The parts of the widget that the contexts are not. *)
Lemma Initialize_inv :
  forall env w w' ready e,
    match renderer_backend env with
    | OpenGL => InitializeOpenGL env w
    | Vulkan => InitializeVulkan env w
    end = Some (w', ready, e) ->
    first_frame w' = first_frame w /\ width w' = width w /\ height w' = height w /\
    devicePixelRatioF w' = devicePixelRatioF w /\ screenChanged w' = screenChanged w.
Proof.
  intros env w w' ready e.
  destruct (renderer_backend env).
  - unfold InitializeOpenGL.
    destruct (has_opengl env).
    + destruct (negb (g_first_context env) && negb (GLContext_Create env 0)).
      * intros H; injection H as <- _ _; repeat split.
      * destruct (negb (GLContext_Create env 0)); [discriminate|].
        destruct (new_main_context _) as [context e1].
        destruct (new_shared_context _ _) as [[child e2]|]; [|discriminate].
        destruct (drop (child_context w)); [|discriminate].
        destruct (drop (main_context w)); [|discriminate].
        intros H; injection H as <- _ _; repeat split.
    + intros H; injection H as <- _ _; repeat split.
  - unfold InitializeVulkan.
    destruct (has_vulkan env).
    + destruct (drop (main_context w)); [|discriminate].
      intros H; injection H as <- _ _; repeat split.
    + intros H; injection H as <- _ _; repeat split.
Qed.

Lemma InitRenderTarget_inv :
  forall env w w1 result e,
    InitRenderTarget env w = Some (w1, result, e) ->
    first_frame w1 = false /\
    devicePixelRatioF w1 = devicePixelRatioF w /\
    screenChanged w1 = screenChanged w.
Proof.
  intros env w w1 result e; unfold InitRenderTarget.
  destruct (ReleaseRenderTarget w) as [w0|] eqn:H0; [|discriminate].
  apply ReleaseRenderTarget_inv in H0; subst w0.
  destruct (match renderer_backend env with
            | OpenGL => InitializeOpenGL env _
            | Vulkan => InitializeVulkan env _
            end) as [[[w2 ready] e1]|] eqn:H2; [|discriminate].
  apply Initialize_inv in H2 as (Hf & _ & _ & Hr & Hs).
  cbn in Hf, Hr, Hs.
  destruct ready.
  - destruct (reset_size env w2) as [[w3 e2]|] eqn:H3; [|discriminate].
    apply reset_size_inv in H3 as [Hw3 _].
    assert (Hfields : first_frame w3 = false /\
                      devicePixelRatioF w3 = devicePixelRatioF w /\
                      screenChanged w3 = screenChanged w)
      by (rewrite Hw3; cbn; auto).
    destruct (renderer_backend env).
    + destruct (LoadOpenGL_in_context env w3) as [[loaded e3]|]; [|discriminate].
      intros H; injection H as <- _ _; exact Hfields.
    + intros H; injection H as <- _ _; exact Hfields.
  - intros H; injection H as <- _ _; auto.
Qed.

Lemma InitRenderTarget_first_frame :
  forall env w w1 result e,
    InitRenderTarget env w = Some (w1, result, e) -> first_frame w1 = false.
Proof.
  intros env w w1 result e H; apply (InitRenderTarget_inv _ _ _ _ _ H).
Qed.

Lemma poll_repeatedly :
  forall n w,
    first_frame w = false ->
    run w (repeat OpPollEvents (S n)) =
    Some (with_first_frame true w, [FirstFrameDisplayed]).
Proof.
  intros n w Hff; simpl.
  unfold PollEvents at 1; rewrite Hff.
  assert (H : forall k w', first_frame w' = true ->
                           run w' (repeat OpPollEvents k) = Some (w', [])).
  { induction k as [|k IH]; intros w' Hw'; simpl; [reflexivity|].
    unfold PollEvents; rewrite Hw', IH by exact Hw'; reflexivity. }
  rewrite H by reflexivity; reflexivity.
Qed.

(** C6.  After [InitRenderTarget], whatever it returned: the calls delivered
    before the first [PollEvents] emit no [FirstFrameDisplayed], the first
    [PollEvents] emits it, and nothing delivered afterwards emits it again as
    long as the render target is not initialised anew; in particular any
    number of [PollEvents] in a row emit it once in all. *)
Theorem first_frame_displayed_once :
  forall env w w1 result e0,
    InitRenderTarget env w = Some (w1, result, e0) ->
    (forall before after w2 e1 w3 e2,
        existsb is_init before = false ->
        existsb is_poll before = false ->
        existsb is_init after = false ->
        run w1 before = Some (w2, e1) ->
        run (fst (PollEvents w2)) after = Some (w3, e2) ->
        count_first_frame e1 = 0%nat /\
        snd (PollEvents w2) = [FirstFrameDisplayed] /\
        count_first_frame e2 = 0%nat) /\
    (forall n,
        run w1 (repeat OpPollEvents (S n)) =
        Some (with_first_frame true w1, [FirstFrameDisplayed])).
Proof.
  intros env w w1 result e0 Hinit.
  pose proof (InitRenderTarget_first_frame env w w1 result e0 Hinit) as Hff.
  split.
  - intros before after w2 e1 w3 e2 Hi1 Hp1 Hi2 H1 H2.
    destruct (quiet_before_poll before w1 w2 e1 Hi1 Hp1 H1) as [Hf Hc].
    rewrite Hff in Hf.
    split; [exact Hc|].
    unfold PollEvents in *; rewrite Hf in *; simpl in *.
    split; [reflexivity|].
    apply (quiet_after_poll after (with_first_frame true w2) w3 e2 Hi2 eq_refl H2).
  - intros n; apply poll_repeatedly; exact Hff.
Qed.

Lemma first_frame_displayed_once_witness :
  first_frame used_widget = true /\
  InitRenderTarget vulkan_env used_widget =
    Some (with_main_context (Some DummyContext) plain_widget, true,
          [UpdateCurrentFramebufferLayout 1280 720]) /\
  run (with_main_context (Some DummyContext) plain_widget) (repeat OpPollEvents 3) =
    Some (with_first_frame true (with_main_context (Some DummyContext) plain_widget),
          [FirstFrameDisplayed]).
Proof.
  split; [reflexivity|].
  split; [vm_compute; reflexivity|].
  apply (first_frame_displayed_once vulkan_env used_widget
           (with_main_context (Some DummyContext) plain_widget) true
           [UpdateCurrentFramebufferLayout 1280 720]).
  vm_compute; reflexivity.
Defined.

(** ** Framebuffer layout *)

Lemma static_cast_u32_in_range :
  forall p, in_u32 p -> static_cast_u32 p = Some (Qfloor (value p)).
Proof.
  intros p (Hnum & Hlo & Hhi); unfold static_cast_u32, truncate.
  assert (Hb : Qle_bool 0 (value p) = true) by (apply Qle_bool_iff; exact Hlo).
  assert (H0 : (0 <= Qfloor (value p))%Z).
  { rewrite <- (Qfloor_Z 0); apply Qfloor_resp_le; exact Hlo. }
  assert (H1 : (Qfloor (value p) < 4294967296)%Z).
  { rewrite Zlt_Qlt.
    apply (Qle_lt_trans _ (value p)); [apply Qfloor_le | exact Hhi]. }
  destruct p as [s|s| |s m e]; try discriminate Hnum; cbv zeta;
    [set (q := value (S754_zero s)) in * | set (q := value (S754_finite s m e)) in *];
    rewrite Hb; unfold u32_max;
    (destruct (Z.leb_spec 0 (Qfloor q)); [|lia]);
    (destruct (Z.leb_spec (Qfloor q) 4294967295); [reflexivity | lia]).
Qed.

Lemma OnFramebufferSizeChanged_in_range :
  forall w,
    in_u32 (SFmul prec emax (of_int (width w)) (devicePixelRatioF w)) ->
    in_u32 (SFmul prec emax (of_int (height w)) (devicePixelRatioF w)) ->
    OnFramebufferSizeChanged w =
    Some [UpdateCurrentFramebufferLayout
            (Qfloor (value (SFmul prec emax (of_int (width w)) (devicePixelRatioF w))))
            (Qfloor (value (SFmul prec emax (of_int (height w)) (devicePixelRatioF w))))].
Proof.
  intros w Hw Hh; unfold OnFramebufferSizeChanged, windowPixelRatio.
  rewrite (static_cast_u32_in_range _ Hw), (static_cast_u32_in_range _ Hh).
  reflexivity.
Qed.

Lemma apply_op_connections :
  forall w o w' e,
    apply_op w o = Some (w', e) ->
    screenChanged w' =
    if is_show o
    then connect_unique SlotOnFramebufferSizeChanged (screenChanged w)
    else screenChanged w.
Proof.
  intros w o w' e; destruct o; simpl; unfold keep.
  - destruct (InitRenderTarget env w) as [[[w1 result] e1]|] eqn:H1; [|discriminate].
    intros H; injection H as <- _.
    apply (InitRenderTarget_inv _ _ _ _ _ H1).
  - unfold PollEvents; destruct (first_frame w);
      intros H; injection H as <- _; reflexivity.
  - intros H; injection H as <- _; reflexivity.
  - destruct (resizeEvent _); [|discriminate].
    intros H; injection H as <- _; reflexivity.
  - destruct (emit _ _); [|discriminate].
    intros H; injection H as <- _; reflexivity.
  - destruct (event w e0); [|discriminate].
    intros H; injection H as <- _; reflexivity.
  - destruct (mousePressEvent w ev); [|discriminate].
    intros H; injection H as <- _; reflexivity.
  - destruct (mouseMoveEvent w ev); [|discriminate].
    intros H; injection H as <- _; reflexivity.
  - destruct (mouseReleaseEvent w ev); [|discriminate].
    intros H; injection H as <- _; reflexivity.
Qed.

(** The window signal has at most the one connection, and has it once the
    widget was shown. *)
Lemma run_connections :
  forall ops w w' e,
    run w ops = Some (w', e) ->
    screenChanged w = [] \/ screenChanged w = [SlotOnFramebufferSizeChanged] ->
    (screenChanged w' = [] \/ screenChanged w' = [SlotOnFramebufferSizeChanged]) /\
    (existsb is_show ops = true \/ screenChanged w = [SlotOnFramebufferSizeChanged] ->
     screenChanged w' = [SlotOnFramebufferSizeChanged]).
Proof.
  induction ops as [|o ops IH]; intros w w' e; simpl.
  - intros H Hc; injection H as <- _.
    split; [exact Hc|].
    intros [H|H]; [discriminate | exact H].
  - destruct (apply_op w o) as [[w1 e1]|] eqn:H1; [|discriminate].
    destruct (run w1 ops) as [[w2 e2]|] eqn:H2; [|discriminate].
    intros H Hc; injection H as <- _.
    pose proof (apply_op_connections w o w1 e1 H1) as Hs.
    assert (Hc1 : screenChanged w1 = [] \/
                  screenChanged w1 = [SlotOnFramebufferSizeChanged]).
    { rewrite Hs; destruct (is_show o); [|exact Hc].
      destruct Hc as [-> | ->]; right; reflexivity. }
    destruct (IH w1 w2 e2 H2 Hc1) as [Ha Hb].
    split; [exact Ha|].
    intros Hshown; apply Hb.
    destruct (is_show o).
    + right; rewrite Hs; destruct Hc as [-> | ->]; reflexivity.
    + simpl in Hshown; destruct Hshown as [Hshown|Hshown]; [left; exact Hshown|].
      right; rewrite Hs; exact Hshown.
Qed.

(** C8.  A resize event recomputes the framebuffer layout from the new size
    of the widget: width and height are each multiplied by the device pixel
    ratio, a product of doubles, and the product is cut to an integer.  So
    does a screen change, once for each change, for every widget that has
    been shown since it was built, with the ratio of the new screen.  (For
    products a [u32] can hold.) *)
Theorem framebuffer_layout_recomputed :
  (forall w nw nh,
      in_u32 (SFmul prec emax (of_int nw) (devicePixelRatioF w)) ->
      in_u32 (SFmul prec emax (of_int nh) (devicePixelRatioF w)) ->
      apply_op w (OpResize nw nh) =
      Some (with_size nw nh w,
            [UpdateCurrentFramebufferLayout
               (Qfloor (value (SFmul prec emax (of_int nw) (devicePixelRatioF w))))
               (Qfloor (value (SFmul prec emax (of_int nh) (devicePixelRatioF w))))])) /\
  (forall iw ih r0 ops w es ratio,
      run (fresh iw ih r0) ops = Some (w, es) ->
      existsb is_show ops = true ->
      in_u32 (SFmul prec emax (of_int (width w)) ratio) ->
      in_u32 (SFmul prec emax (of_int (height w)) ratio) ->
      apply_op w (OpScreenChanged ratio) =
      Some (with_ratio ratio w,
            [UpdateCurrentFramebufferLayout
               (Qfloor (value (SFmul prec emax (of_int (width w)) ratio)))
               (Qfloor (value (SFmul prec emax (of_int (height w)) ratio)))])).
Proof.
  split.
  - intros w nw nh Hw Hh; simpl; unfold resizeEvent.
    rewrite (OnFramebufferSizeChanged_in_range (with_size nw nh w) Hw Hh).
    reflexivity.
  - intros iw ih r0 ops w es ratio Hrun Hshown Hw Hh.
    destruct (run_connections ops _ w es Hrun (or_introl eq_refl)) as [_ Hconn].
    simpl; rewrite (Hconn (or_introl Hshown)); simpl.
    rewrite (OnFramebufferSizeChanged_in_range (with_ratio ratio w) Hw Hh).
    reflexivity.
Qed.

Lemma framebuffer_layout_recomputed_witness :
  in_u32 (SFmul prec emax (of_int 1280) (devicePixelRatioF scaled_widget)) /\
  in_u32 (SFmul prec emax (of_int 20) (devicePixelRatioF scaled_widget)) /\
  apply_op scaled_widget (OpResize 1280 20) =
    Some (with_size 1280 20 scaled_widget,
          [UpdateCurrentFramebufferLayout 1472 23]) /\
  existsb is_show shown_and_resized = true /\
  run plain_widget shown_and_resized =
    Some (Widget false 800 600 (of_int 1) [SlotOnFramebufferSizeChanged] None None,
          [UpdateCurrentFramebufferLayout 800 600]) /\
  apply_op (Widget false 800 600 (of_int 1) [SlotOnFramebufferSizeChanged] None None)
           (OpScreenChanged ratio_1_5) =
    Some (Widget false 800 600 ratio_1_5 [SlotOnFramebufferSizeChanged] None None,
          [UpdateCurrentFramebufferLayout 1200 900]).
Proof.
  assert (R : forall p : spec_float,
             is_number p = true -> Qle_bool 0 (value p) = true ->
             (value p ?= 4294967296) = Lt -> in_u32 p).
  { intros p H1 H2 H3; split; [exact H1|].
    split; [apply Qle_bool_iff; exact H2 | apply Qlt_alt; exact H3]. }
  assert (Hw : in_u32 (SFmul prec emax (of_int 1280) (devicePixelRatioF scaled_widget)))
    by (apply R; vm_compute; reflexivity).
  assert (Hh : in_u32 (SFmul prec emax (of_int 20) (devicePixelRatioF scaled_widget)))
    by (apply R; vm_compute; reflexivity).
  destruct framebuffer_layout_recomputed as [Hresize Hscreen].
  split; [exact Hw|].
  split; [exact Hh|].
  split; [rewrite (Hresize scaled_widget 1280%Z 20%Z Hw Hh); vm_compute; reflexivity|].
  split; [reflexivity|].
  split; [vm_compute; reflexivity|].
  rewrite (Hscreen 1280%Z 720%Z (of_int 1) shown_and_resized
             (Widget false 800 600 (of_int 1) [SlotOnFramebufferSizeChanged] None None)
             [UpdateCurrentFramebufferLayout 800 600] ratio_1_5).
  - vm_compute; reflexivity.
  - vm_compute; reflexivity.
  - reflexivity.
  - apply R; vm_compute; reflexivity.
  - apply R; vm_compute; reflexivity.
Defined.

(** ** OpenGL capability check *)

(** Where [LoadOpenGL] is defined, the context it worked in made no noise:
    its result and its effects are those of the check. *)
Lemma LoadOpenGL_in_context_inv :
  forall env w loaded e,
    LoadOpenGL_in_context env w = Some (loaded, e) ->
    loaded = fst (LoadOpenGL (driver env)) /\ e = snd (LoadOpenGL (driver env)).
Proof.
  intros env w loaded e H; unfold LoadOpenGL_in_context in H.
  apply and_then_inv in H as (context & e1 & e2 & Hc & H & ->).
  destruct (LoadOpenGL (driver env)) as [l e3]; cbn [fst snd].
  destruct (destroy context) eqn:Hd; [|discriminate].
  injection H as <- <-.
  split; [reflexivity|].
  assert (He1 : e1 = []).
  { unfold CreateSharedContext in Hc.
    destruct (has_opengl env); [|injection Hc as _ <-; reflexivity].
    destruct (renderer_backend env); [|injection Hc as _ <-; reflexivity].
    destruct (main_context w) as [[share|]|]; try discriminate.
    unfold new_shared_context in Hc.
    destruct (GLContext_Create env 4).
    - destruct share; [|discriminate].
      injection Hc as _ <-; reflexivity.
    - injection Hc as <- _; discriminate. }
  rewrite He1; reflexivity.
Qed.

Lemma GetUnsupportedGLExtensions_table :
  forall g,
    GetUnsupportedGLExtensions g =
    map fst (filter (unsupported_in g) required_extensions).
Proof.
  intros [loaded f1 f2 f3 f4 f5 f6 f7 f8 f9].
  destruct f1, f2, f3, f4, f5, f6, f7, f8, f9; reflexivity.
Qed.

Lemma log_unsupported_no_dialog :
  forall l, filter is_dialog (log_unsupported l) = [].
Proof.
  induction l as [|x l IH]; simpl; auto.
Qed.

Lemma unsupported_nonempty :
  forall g,
    GetUnsupportedGLExtensions g <> [] <->
    exists e, In e required_extensions /\ snd e g = false.
Proof.
  intros g; rewrite GetUnsupportedGLExtensions_table; split.
  - destruct (filter (unsupported_in g) required_extensions) as [|e l] eqn:Hf;
      [intros H; exfalso; apply H; reflexivity|].
    intros _; exists e.
    assert (Hin : In e (filter (unsupported_in g) required_extensions))
      by (rewrite Hf; left; reflexivity).
    apply filter_In in Hin as [Hin Hun].
    split; [exact Hin | apply negb_true_iff; exact Hun].
  - intros (e & Hin & He) Hnil.
    assert (Hin' : In e (filter (unsupported_in g) required_extensions)).
    { apply filter_In; split; [exact Hin|].
      unfold unsupported_in; rewrite He; reflexivity. }
    destruct (filter (unsupported_in g) required_extensions);
      [destruct Hin' | discriminate].
Qed.

(** C7.  [LoadOpenGL] returns false exactly when [gladLoadGL] fails or one of
    the nine required extensions is not supported.  With the functions loaded
    and an extension missing it shows one critical dialog, whose text ends
    with the names of the unsupported extensions and no others, in the order
    of the list, separated by line breaks.  It shows at most one dialog and
    none when it returns true, and [InitRenderTarget] hands the failure on
    without a second attempt. *)
Theorem LoadOpenGL_fails_iff_unsupported :
  forall g,
    List.length required_extensions = 9%nat /\
    GetUnsupportedGLExtensions g =
      map fst (filter (unsupported_in g) required_extensions) /\
    (fst (LoadOpenGL g) = false <->
     gladLoadGL g = false \/
     exists e, In e required_extensions /\ snd e g = false) /\
    (gladLoadGL g = true ->
     (exists e, In e required_extensions /\ snd e g = false) ->
     filter is_dialog (snd (LoadOpenGL g)) =
     [MessageBoxCritical missing_extensions_title
        (missing_extensions_text ++
         String.concat "<br>"
           (map fst (filter (unsupported_in g) required_extensions)))%string]) /\
    (List.length (filter is_dialog (snd (LoadOpenGL g))) <= 1)%nat /\
    (fst (LoadOpenGL g) = true -> filter is_dialog (snd (LoadOpenGL g)) = []) /\
    (forall env w w1 result e,
        renderer_backend env = OpenGL -> driver env = g ->
        InitRenderTarget env w = Some (w1, result, e) ->
        fst (LoadOpenGL g) = false -> result = false).
Proof.
  intros g.
  pose proof (unsupported_nonempty g) as Hne.
  pose proof (GetUnsupportedGLExtensions_table g) as Htab.
  split; [reflexivity|]. split; [exact Htab|].
  split; [|split; [|split; [|split]]].
  - unfold LoadOpenGL.
    destruct (gladLoadGL g); cbn [negb].
    + destruct (GetUnsupportedGLExtensions g) as [|x l]; cbn [fst].
      * split; [discriminate|].
        intros [H|H]; [discriminate|].
        apply Hne in H; congruence.
      * split; [|reflexivity].
        intros _; right; apply Hne; discriminate.
    + cbn [fst]; split; auto.
  - intros Hload Hmiss; apply Hne in Hmiss.
    rewrite <- Htab.
    unfold LoadOpenGL; rewrite Hload; cbn [negb].
    destruct (GetUnsupportedGLExtensions g) as [|x l]; [congruence|].
    cbn [snd]; rewrite filter_app, log_unsupported_no_dialog; reflexivity.
  - unfold LoadOpenGL.
    destruct (gladLoadGL g); cbn [negb]; [|cbn; lia].
    destruct (GetUnsupportedGLExtensions g) as [|x l]; cbn [snd].
    + cbn; lia.
    + rewrite filter_app, log_unsupported_no_dialog; cbn; lia.
  - unfold LoadOpenGL.
    destruct (gladLoadGL g); cbn [negb]; [|discriminate].
    destruct (GetUnsupportedGLExtensions g) as [|x l]; cbn [fst snd];
      [reflexivity|discriminate].
  - intros env w w1 result e Hback Hdrv; unfold InitRenderTarget.
    rewrite Hback.
    destruct (ReleaseRenderTarget w) as [w0|]; [|discriminate].
    destruct (InitializeOpenGL env _) as [[[w2 ready] e1]|]; [|discriminate].
    destruct ready.
    + destruct (reset_size env w2) as [[w3 e2]|]; [|discriminate].
      destruct (LoadOpenGL_in_context env w3) as [[loaded e3]|] eqn:H3; [|discriminate].
      apply LoadOpenGL_in_context_inv in H3 as [Hl _].
      rewrite Hdrv in Hl.
      intros H; injection H as _ <- _; intros Hf; rewrite Hl; exact Hf.
    + intros H; injection H as _ <- _; reflexivity.
Qed.

Lemma LoadOpenGL_fails_iff_unsupported_witness :
  gladLoadGL old_driver = true /\
  (exists e, In e required_extensions /\ snd e old_driver = false) /\
  fst (LoadOpenGL old_driver) = false /\
  filter is_dialog (snd (LoadOpenGL old_driver)) =
    [MessageBoxCritical missing_extensions_title
       (missing_extensions_text ++
        "ARB_direct_state_access<br>ARB_texture_compression_rgtc")%string].
Proof.
  assert (Hmiss : exists e, In e required_extensions /\ snd e old_driver = false).
  { exists ("ARB_direct_state_access"%string, GLAD_GL_ARB_direct_state_access).
    split; [right; left; reflexivity | reflexivity]. }
  destruct (LoadOpenGL_fails_iff_unsupported old_driver)
    as (_ & _ & Hiff & Hdialog & _).
  split; [reflexivity|].
  split; [exact Hmiss|].
  split; [apply Hiff; right; exact Hmiss|].
  rewrite (Hdialog eq_refl Hmiss); reflexivity.
Defined.

(** ** Mouse events made up from touches *)

Lemma run_skip :
  forall w o after,
    (forall w', apply_op w' o = Some (w', [])) ->
    forall before, run w (before ++ o :: after) = run w (before ++ after).
Proof.
  intros w o after Hskip before.
  rewrite !run_app.
  destruct (run w before) as [[w1 e1]|]; [|reflexivity].
  simpl; rewrite Hskip.
  destruct (run w1 after) as [[w2 e2]|]; reflexivity.
Qed.

(** C10.  A mouse press, move or release whose source is
    [Qt::MouseEventSynthesizedBySystem] forwards nothing at all: no touch
    call, no motion call, no call of the base class.  Delivering such an event
    anywhere in a sequence of calls leaves what the widget forwards as it is
    without it, so a touch that arrives on both paths is reported by the
    touch path alone. *)
Theorem synthesized_mouse_events_forward_nothing :
  forall w ev,
    source ev = MouseEventSynthesizedBySystem ->
    mousePressEvent w ev = Some [] /\
    mouseMoveEvent w ev = Some [] /\
    mouseReleaseEvent w ev = Some [] /\
    forall before after o,
      o = OpMousePress ev \/ o = OpMouseMove ev \/ o = OpMouseRelease ev ->
      run w (before ++ o :: after) = run w (before ++ after).
Proof.
  intros w ev Hsrc.
  assert (Hpress : forall w', mousePressEvent w' ev = Some [])
    by (intros w'; unfold mousePressEvent; rewrite Hsrc; reflexivity).
  assert (Hmove : forall w', mouseMoveEvent w' ev = Some [])
    by (intros w'; unfold mouseMoveEvent; rewrite Hsrc; reflexivity).
  assert (Hrelease : forall w', mouseReleaseEvent w' ev = Some [])
    by (intros w'; unfold mouseReleaseEvent; rewrite Hsrc; reflexivity).
  split; [apply Hpress|]. split; [apply Hmove|]. split; [apply Hrelease|].
  intros before after o [-> | [-> | ->]]; apply run_skip; intros w'; simpl.
  - rewrite Hpress; reflexivity.
  - rewrite Hmove; reflexivity.
  - rewrite Hrelease; reflexivity.
Qed.

Lemma synthesized_mouse_events_forward_nothing_witness :
  source synthesized_press = MouseEventSynthesizedBySystem /\
  mousePressEvent plain_widget synthesized_press = Some [] /\
  run plain_widget [OpEvent (TouchBegin one_finger); OpMousePress synthesized_press] =
    Some (plain_widget, [TouchPressed 10 20]).
Proof.
  destruct (synthesized_mouse_events_forward_nothing plain_widget synthesized_press eq_refl)
    as (Hpress & _ & _ & Hskip).
  split; [reflexivity|].
  split; [exact Hpress|].
  change [OpEvent (TouchBegin one_finger); OpMousePress synthesized_press]
    with ([OpEvent (TouchBegin one_finger)] ++ OpMousePress synthesized_press :: []).
  rewrite (Hskip [OpEvent (TouchBegin one_finger)] [] (OpMousePress synthesized_press)
             (or_introl eq_refl)).
  vm_compute; reflexivity.
Defined.

(** ** More on scaling *)

Lemma value_negative : forall m e, value (S754_finite true m e) <= 0.
Proof.
  intros m e; unfold value.
  destruct e as [|e|k].
  - change 0 with (inject_Z 0); rewrite <- Zle_Qle; lia.
  - change 0 with (inject_Z 0); rewrite <- Zle_Qle.
    assert (0 < 2 ^ Z.pos e)%Z by (apply Z.pow_pos_nonneg; lia).
    nia.
  - unfold Qle; simpl; lia.
Qed.

Lemma rounded_clamped_nonpositive :
  forall p n,
    rounded_clamped p = Some n -> SFleb p zero = true -> n = 0%Z.
Proof.
  intros p n; unfold rounded_clamped; cbv zeta.
  destruct p as [s|[]| |s m e]; try discriminate.
  - intros H _; injection H as <-; reflexivity.
  - intros H _; injection H as <-; reflexivity.
  - intros H Hle; rewrite SFleb_finite_zero in Hle; subst s.
    pose proof (round_nonpositive _ (value_negative m e)) as Hr.
    rewrite Z.max_l in H by exact Hr.
    injection H as <-; reflexivity.
Qed.

(** X10.  [ScaleTouch] never yields a negative coordinate or one beyond
    [u32]: whatever it returns lies between 0 and 2^32-1, and a position whose
    scaled coordinate, the product of doubles, is zero or negative is clamped
    to 0. *)
Theorem ScaleTouch_clamps :
  forall w p x y,
    ScaleTouch w p = Some (x, y) ->
    (0 <= x <= u32_max)%Z /\ (0 <= y <= u32_max)%Z /\
    (SFleb (SFmul prec emax (xp p) (devicePixelRatioF w)) zero = true -> x = 0%Z) /\
    (SFleb (SFmul prec emax (yp p) (devicePixelRatioF w)) zero = true -> y = 0%Z).
Proof.
  intros w p x y; rewrite ScaleTouch_scaled.
  destruct (scaled (devicePixelRatioF w) (xp p)) as [x'|] eqn:Hx; [|discriminate].
  destruct (scaled (devicePixelRatioF w) (yp p)) as [y'|] eqn:Hy; [|discriminate].
  intros H; injection H as <- <-.
  unfold scaled in Hx, Hy.
  split; [apply (rounded_clamped_range _ _ Hx)|].
  split; [apply (rounded_clamped_range _ _ Hy)|].
  split; [apply (rounded_clamped_nonpositive _ _ Hx)
         | apply (rounded_clamped_nonpositive _ _ Hy)].
Qed.

Lemma ScaleTouch_clamps_witness :
  ScaleTouch retina_widget
    (MkQPointF (SFdiv prec emax (of_int (-7)) (of_int 2))
               (SFdiv prec emax (of_int 5) (of_int 4))) = Some (0, 3)%Z /\
  (0 <= 0 <= u32_max)%Z /\ (0 <= 3 <= u32_max)%Z /\
  SFleb (SFmul prec emax (SFdiv prec emax (of_int (-7)) (of_int 2))
           (devicePixelRatioF retina_widget)) zero = true.
Proof.
  split; [vm_compute; reflexivity|].
  destruct (ScaleTouch_clamps retina_widget
              (MkQPointF (SFdiv prec emax (of_int (-7)) (of_int 2))
                         (SFdiv prec emax (of_int 5) (of_int 4))) 0 3
              ltac:(vm_compute; reflexivity))
    as (Hx & Hy & _).
  split; [exact Hx|]. split; [exact Hy|].
  vm_compute; reflexivity.
Defined.

(** The product of two whole numbers is computed exactly as long as it is
    below 2^53. *)
Lemma SFmul_whole :
  forall a k,
    (Z.abs a < 2 ^ 53)%Z -> (Z.abs k < 2 ^ 53)%Z -> (Z.abs (a * k) < 2 ^ 53)%Z ->
    SFmul prec emax (of_int a) (of_int k) =
    if (a * k =? 0)%Z then S754_zero (xorb (a <? 0)%Z (k <? 0)%Z)
    else canon (a * k <? 0)%Z (Z.abs (a * k)).
Proof.
  intros a k Ha Hk Hak.
  destruct (Z.eq_dec a 0) as [->|Na].
  - change (of_int 0) with (S754_zero false).
    destruct (Z.eq_dec k 0) as [->|Nk]; [reflexivity|].
    rewrite of_int_canon by lia; reflexivity.
  - destruct (Z.eq_dec k 0) as [->|Nk].
    + change (of_int 0) with (S754_zero false).
      rewrite Z.mul_0_r, of_int_canon by lia; reflexivity.
    + rewrite !of_int_canon by lia.
      rewrite Z.abs_mul in *.
      rewrite mul_canon by lia.
      destruct (Z.eqb_spec (a * k) 0) as [E|E]; [nia|].
      f_equal.
      destruct (Z.ltb_spec a 0), (Z.ltb_spec k 0), (Z.ltb_spec (a * k) 0);
        try reflexivity; nia.
Qed.

Lemma rounded_clamped_canon :
  forall n, (0 < n < 2 ^ 53)%Z ->
    rounded_clamped (canon false n) = if (n <=? u32_max)%Z then Some n else None.
Proof.
  intros n Hn; unfold rounded_clamped.
  change (match canon false n with
          | S754_infinity true => Some 0%Z
          | S754_nan | S754_infinity false => None
          | _ =>
              let n0 := Z.max 0 (round (value (canon false n))) in
              if (n0 <=? u32_max)%Z then Some n0 else None
          end)
    with (let n0 := Z.max 0 (round (value (canon false n))) in
          if (n0 <=? u32_max)%Z then Some n0 else None).
  cbv zeta.
  rewrite (round_comp _ _ (value_canon false n Hn)), round_inject_Z.
  rewrite Z.max_r by lia; reflexivity.
Qed.

(** A whole number scaled by a whole-number ratio. *)
Lemma whole_product :
  forall a k,
    is_int a -> (Z.abs k < 2 ^ 53)%Z -> (0 <= a * k <= u32_max)%Z ->
    let p := SFmul prec emax (of_int a) (of_int k) in
    short_mantissa p = true /\
    rounded_clamped p = Some (a * k)%Z /\
    static_cast_u32 p = Some (a * k)%Z.
Proof.
  intros a k Ha Hk Hak p.
  split; [apply SFmul_short|].
  unfold is_int in Ha; unfold u32_max in Hak.
  unfold p; rewrite SFmul_whole by lia.
  destruct (Z.eqb_spec (a * k) 0) as [E|E].
  - rewrite E; split; reflexivity.
  - assert (Hneg : (a * k <? 0)%Z = false) by (apply Z.ltb_ge; lia).
    rewrite Hneg, Z.abs_eq by lia.
    rewrite rounded_clamped_canon, static_cast_u32_canon by lia.
    unfold u32_max.
    destruct (Z.leb_spec (a * k) 4294967295); [split; reflexivity | lia].
Qed.

(** X11.  On a screen whose device pixel ratio is a whole number [k], a
    non-synthesized mouse move at widget position (x,y) with x,y >= 0 forwards
    the touch position (k*x, k*y) exactly, while the tilt gets the unscaled
    (x,y); with ratio 1 the two agree.  (For [int] positions and products a
    [u32] can hold.) *)
Theorem mouse_move_integer_ratio :
  forall w ev k,
    devicePixelRatioF w = of_int k ->
    (Z.abs k < 2 ^ 53)%Z ->
    is_int (ix (mouse_pos ev)) -> is_int (iy (mouse_pos ev)) ->
    is_synthesized_by_system (source ev) = false ->
    (0 <= ix (mouse_pos ev) * k <= u32_max)%Z ->
    (0 <= iy (mouse_pos ev) * k <= u32_max)%Z ->
    mouseMoveEvent w ev =
    Some [TouchMoved (ix (mouse_pos ev) * k) (iy (mouse_pos ev) * k);
          Tilt (ix (mouse_pos ev)) (iy (mouse_pos ev));
          BaseMouseMoveEvent].
Proof.
  intros w ev k Hr Hk Hix Hiy Hsrc Hx Hy.
  unfold mouseMoveEvent; rewrite Hsrc, ScaleTouch_scaled.
  unfold toPointF, scaled; cbn [xp yp]; rewrite Hr.
  destruct (whole_product _ k Hix Hk Hx) as (_ & -> & _).
  destruct (whole_product _ k Hiy Hk Hy) as (_ & -> & _).
  reflexivity.
Qed.

Lemma mouse_move_integer_ratio_witness :
  devicePixelRatioF retina_widget = of_int 2 /\
  mouseMoveEvent retina_widget
    (MkQMouseEvent MouseEventNotSynthesized LeftButton (MkQPoint 100 40)) =
  Some [TouchMoved 200 80; Tilt 100 40; BaseMouseMoveEvent].
Proof.
  split; [reflexivity|].
  apply (mouse_move_integer_ratio retina_widget
           (MkQMouseEvent MouseEventNotSynthesized LeftButton (MkQPoint 100 40)) 2).
  - reflexivity.
  - simpl; lia.
  - unfold is_int; simpl; lia.
  - unfold is_int; simpl; lia.
  - reflexivity.
  - unfold u32_max; simpl; lia.
  - unfold u32_max; simpl; lia.
Defined.

(** X12.  With a whole-number device pixel ratio [k] the framebuffer is
    exactly [k] times the widget: [OnFramebufferSizeChanged] passes
    (k*width, k*height) on, and a widget of size zero gets a layout of size
    zero.  (For [int] sizes and products a [u32] can hold.) *)
Theorem framebuffer_integer_ratio :
  forall w k,
    devicePixelRatioF w = of_int k ->
    (Z.abs k < 2 ^ 53)%Z ->
    is_int (width w) -> is_int (height w) ->
    (0 <= width w * k <= u32_max)%Z ->
    (0 <= height w * k <= u32_max)%Z ->
    OnFramebufferSizeChanged w =
    Some [UpdateCurrentFramebufferLayout (width w * k) (height w * k)].
Proof.
  intros w k Hr Hk Hiw Hih Hw Hh.
  unfold OnFramebufferSizeChanged, windowPixelRatio; cbv zeta; rewrite Hr.
  destruct (whole_product _ k Hiw Hk Hw) as (_ & _ & ->).
  destruct (whole_product _ k Hih Hk Hh) as (_ & _ & ->).
  reflexivity.
Qed.

Lemma framebuffer_integer_ratio_witness :
  devicePixelRatioF retina_widget = of_int 2 /\
  OnFramebufferSizeChanged retina_widget =
    Some [UpdateCurrentFramebufferLayout 2560 1440].
Proof.
  split; [reflexivity|].
  apply (framebuffer_integer_ratio retina_widget 2).
  - reflexivity.
  - simpl; lia.
  - unfold is_int; simpl; lia.
  - unfold is_int; simpl; lia.
  - unfold u32_max; simpl; lia.
  - unfold u32_max; simpl; lia.
Defined.

(** ** More on touch events *)

Lemma average_loop_filter :
  forall tps, average_loop tps = average_loop (filter is_active tps).
Proof.
  intros tps; unfold average_loop.
  rewrite (fold_accumulate tps), (fold_accumulate (filter is_active tps)).
  assert (E : filter is_active (filter is_active tps) = filter is_active tps).
  { induction tps as [|tp tps IH]; simpl; [reflexivity|].
    destruct (is_active tp) eqn:Ha; simpl; rewrite ?Ha, IH; reflexivity. }
  rewrite E; reflexivity.
Qed.

(** X13.  Touch points that are neither pressed, moved nor stationary have
    no influence on a touch update: two events with the same active points,
    in the same order, forward the same thing, so lifted fingers can be added
    or removed without changing the result. *)
Theorem touch_update_depends_on_active_points :
  forall w ev1 ev2,
    active_points ev1 = active_points ev2 ->
    TouchUpdateEvent w ev1 = TouchUpdateEvent w ev2.
Proof.
  intros w ev1 ev2 H; unfold TouchUpdateEvent.
  rewrite (average_loop_filter (touchPoints ev1)).
  rewrite (average_loop_filter (touchPoints ev2)).
  unfold active_points in H; rewrite H; reflexivity.
Qed.

Lemma touch_update_depends_on_active_points_witness :
  active_points three_fingers = active_points two_fingers /\
  TouchUpdateEvent plain_widget three_fingers =
  TouchUpdateEvent plain_widget two_fingers.
Proof.
  split; [reflexivity|].
  apply (touch_update_depends_on_active_points plain_widget three_fingers two_fingers).
  reflexivity.
Defined.

(** ** One active point *)

Lemma div_eucl_div_mod :
  forall a b, Z.div_eucl a b = ((a / b)%Z, (a mod b)%Z).
Proof.
  intros a b; unfold Z.div, Z.modulo.
  destruct (Z.div_eucl a b); reflexivity.
Qed.

(** Dividing a double by 1 changes nothing. *)
Lemma SFdiv_one :
  forall x, valid_binary prec emax x = true -> SFdiv prec emax x (of_int 1) = x.
Proof.
  intros x Hx.
  change (of_int 1) with (S754_finite false 4503599627370496 (-52)).
  destruct x as [s|s| |s m e]; try reflexivity; try (destruct s; reflexivity).
  cbn [valid_binary] in Hx; unfold bounded, canonical_mantissa in Hx.
  apply andb_true_iff in Hx as [Hc Hb].
  apply Z.eqb_eq in Hc; apply Z.leb_le in Hb.
  change (emax - prec)%Z with 971%Z in Hb.
  rewrite digits2_log2, fexp_eq in Hc.
  pose proof (Z.log2_nonneg (Z.pos m)) as Hl.
  assert (Hm : (2 ^ Z.log2 (Z.pos m) <= Z.pos m < 2 ^ Z.succ (Z.log2 (Z.pos m)))%Z)
    by (apply Z.log2_spec; lia).
  unfold SFdiv, SFdiv_core_binary.
  change (Zdigits2 4503599627370496) with 53%Z.
  rewrite (Zdigits2_log2 (Z.pos m)) by lia.
  rewrite fexp_eq, xorb_false_r.
  destruct (Z.eq_dec e (-1074)) as [->|He].
  - (* the smallest exponent *)
    replace (Z.min (Z.max (Z.log2 (Z.pos m) + 1 + -1074 - (53 + -52) - 53) (-1074))
               (-1074 - -52))%Z with (-1074)%Z by lia.
    change (-1074 - -52 - -1074)%Z with 52%Z; cbv iota.
    rewrite Z.shiftl_mul_pow2 by lia.
    change 4503599627370496%Z with (2 ^ 52)%Z.
    rewrite div_eucl_div_mod.
    rewrite Z.div_mul, Z.mod_mul by lia.
    change (new_location (2 ^ 52) 0) with loc_Exact.
    assert (Hsh : sh (Z.pos m) (-1074) = 0%Z)
      by (unfold sh; rewrite fexp_eq, Zdigits2_log2 by lia; lia).
    rewrite binary_round_aux_exact; rewrite ?Hsh; try lia.
    + rewrite Z.div_1_r, Z.add_0_r; reflexivity.
    + apply Z.mod_1_r.
  - replace (Z.min (Z.max (Z.log2 (Z.pos m) + 1 + e - (53 + -52) - 53) (-1074))
               (e - -52))%Z with (e - 1)%Z by lia.
    replace (e - -52 - (e - 1))%Z with 53%Z by lia; cbv iota.
    rewrite Z.shiftl_mul_pow2 by lia.
    change 4503599627370496%Z with (2 ^ 52)%Z.
    replace (Z.pos m * 2 ^ 53)%Z with (2 * Z.pos m * 2 ^ 52)%Z
      by (change (2 ^ 53)%Z with (2 * 2 ^ 52)%Z; ring).
    rewrite div_eucl_div_mod.
    rewrite Z.div_mul, Z.mod_mul by lia.
    change (new_location (2 ^ 52) 0) with loc_Exact.
    assert (Hsh : sh (2 * Z.pos m) (e - 1) = 1%Z).
    { unfold sh; rewrite fexp_eq, Zdigits2_log2 by lia.
      rewrite Z.log2_double by lia. lia. }
    rewrite binary_round_aux_exact; rewrite ?Hsh; try lia.
    + replace (2 * Z.pos m / 2 ^ 1)%Z with (Z.pos m)
        by (rewrite Z.mul_comm; change (2 ^ 1)%Z with 2%Z;
            rewrite Z.div_mul by lia; reflexivity).
      replace (e - 1 + 1)%Z with e by lia; reflexivity.
    + change (2 ^ 1)%Z with 2%Z; rewrite Z.mul_comm; apply Z.mod_mul; lia.
Qed.

(** The mean of one position, scaled, is that position, scaled. *)
Lemma scaled_mean_of_one :
  forall r x,
    valid_binary prec emax x = true ->
    scaled r (SFdiv prec emax (sum [x]) (of_int 1)) = scaled r x.
Proof.
  intros r x Hx; unfold sum; cbn [fold_left].
  destruct x as [s|s| |s m e].
  - destruct s, r as [sr|sr| |sr m e]; reflexivity.
  - change (SFadd prec emax zero (S754_infinity s)) with (S754_infinity s).
    rewrite SFdiv_one by exact Hx; reflexivity.
  - reflexivity.
  - change (SFadd prec emax zero (S754_finite s m e)) with (S754_finite s m e).
    rewrite SFdiv_one by exact Hx; reflexivity.
Qed.

(** X14.  With one active touch point a touch update forwards exactly the
    coordinates a touch begin at that point forwards: in doubles too the
    average of one position is that position. *)
Theorem one_finger_update_matches_begin :
  forall w ev tp,
    active_points ev = [tp] ->
    valid_binary prec emax (xp (pos tp)) = true ->
    valid_binary prec emax (yp (pos tp)) = true ->
    TouchUpdateEvent w ev =
      forward TouchMoved
        (scaled (devicePixelRatioF w) (xp (pos tp)))
        (scaled (devicePixelRatioF w) (yp (pos tp))) /\
    TouchBeginEvent w (MkQTouchEvent [tp]) =
      forward TouchPressed
        (scaled (devicePixelRatioF w) (xp (pos tp)))
        (scaled (devicePixelRatioF w) (yp (pos tp))).
Proof.
  intros w ev tp Hone Hx Hy; split.
  - rewrite TouchUpdateEvent_mean, Hone.
    unfold mean_x, mean_y, sum_x, sum_y; cbn [map List.length].
    change (Z.of_nat 1) with 1%Z.
    rewrite !scaled_mean_of_one by assumption.
    reflexivity.
  - unfold TouchBeginEvent; cbn [touchPoints].
    apply ScaleTouch_forward.
Qed.

Lemma one_finger_update_matches_begin_witness :
  active_points lift_and_move = [MkTouchPoint TouchPointMoved (at_point 10 10)] /\
  TouchUpdateEvent scaled_widget lift_and_move = Some [TouchMoved 12 12] /\
  TouchBeginEvent scaled_widget
    (MkQTouchEvent [MkTouchPoint TouchPointMoved (at_point 10 10)]) =
    Some [TouchPressed 12 12].
Proof.
  split; [reflexivity|].
  destruct (one_finger_update_matches_begin scaled_widget lift_and_move
              (MkTouchPoint TouchPointMoved (at_point 10 10)) eq_refl eq_refl eq_refl)
    as [Hu Hb].
  split; [rewrite Hu; vm_compute; reflexivity | rewrite Hb; vm_compute; reflexivity].
Defined.

(** X15.  Touch events are consumed by the widget: in any sequence of touch
    begin, update, end and cancel events every event forwards exactly one
    touch call, none is handed to [QWidget::event], and the widget itself is
    left as it was; an end or a cancel always forwards [TouchReleased]. *)
Theorem touch_events_are_consumed :
  forall es w w' effs,
    forallb is_touch_event es = true ->
    run w (map OpEvent es) = Some (w', effs) ->
    w' = w /\
    List.length effs = List.length es /\
    forallb is_touch_call effs = true /\
    (forall w0, event w0 TouchEnd = Some [TouchReleased] /\
                event w0 TouchCancel = Some [TouchReleased]).
Proof.
  intros es w w' effs Hall Hrun.
  assert (H : w' = w /\ List.length effs = List.length es /\
              forallb is_touch_call effs = true).
  { revert w' effs Hall Hrun.
    induction es as [|e es IH]; intros w' effs Hall; simpl.
    - intros H; injection H as <- <-; auto.
    - simpl in Hall; apply andb_true_iff in Hall as [He Hes].
      unfold keep.
      destruct (event w e) as [e1|] eqn:H1; [|discriminate].
      destruct (run w (map OpEvent es)) as [[w2 e2]|] eqn:H2; [|discriminate].
      intros H; injection H as <- <-.
      destruct (IH w2 e2 Hes eq_refl) as (Hw & Hlen & Hcalls).
      assert (Hone : exists c, e1 = [c] /\ is_touch_call c = true).
      { destruct e; try discriminate; simpl in H1;
          unfold TouchBeginEvent, TouchUpdateEvent, TouchEndEvent in H1;
          repeat match type of H1 with
                 | context [match ?x with _ => _ end] => destruct x; try discriminate
                 end;
          injection H1 as <-; eexists; split; reflexivity. }
      destruct Hone as (c & -> & Hc).
      split; [exact Hw|]. split; [simpl; rewrite Hlen; reflexivity|].
      simpl; rewrite Hc, Hcalls; reflexivity. }
  destruct H as (Hw & Hlen & Hcalls).
  repeat split; auto.
Qed.

Lemma touch_events_are_consumed_witness :
  forallb is_touch_event [TouchBegin one_finger; TouchUpdate two_fingers; TouchCancel] = true /\
  run retina_widget
    (map OpEvent [TouchBegin one_finger; TouchUpdate two_fingers; TouchCancel]) =
    Some (retina_widget, [TouchPressed 20 40; TouchMoved 12 24; TouchReleased]) /\
  forallb is_touch_call [TouchPressed 20 40; TouchMoved 12 24; TouchReleased] = true.
Proof.
  split; [reflexivity|].
  split; [vm_compute; reflexivity|].
  apply (touch_events_are_consumed
           [TouchBegin one_finger; TouchUpdate two_fingers; TouchCancel]
           retina_widget retina_widget
           [TouchPressed 20 40; TouchMoved 12 24; TouchReleased]
           eq_refl).
  vm_compute; reflexivity.
Defined.

(** ** More on mouse events *)

(** X16.  Mouse buttons pair up: whenever a press of some button is
    forwarded, the release of the same button from the same source is
    forwarded too, wherever it happens, and it ends what the press began: a
    touch press is answered by a touch release, a begun tilt by an ended
    tilt, and a press that began neither is answered by nothing.  No press
    begins both a touch and a tilt. *)
Theorem mouse_press_release_pair :
  forall w src b p q es,
    mousePressEvent w (MkQMouseEvent src b p) = Some es ->
    exists es',
      mouseReleaseEvent w (MkQMouseEvent src b q) = Some es' /\
      existsb is_touch_pressed es = existsb is_touch_released es' /\
      existsb is_begin_tilt es = existsb is_end_tilt es' /\
      existsb is_touch_pressed es && existsb is_begin_tilt es = false /\
      (List.length es' <= 1)%nat.
Proof.
  intros w src b p q es; unfold mousePressEvent, mouseReleaseEvent; cbn [source button mouse_pos].
  destruct (is_synthesized_by_system src).
  - intros H; injection H as <-; exists []; repeat split; simpl; lia.
  - destruct b.
    + destruct (ScaleTouch w (toPointF p)) as [[x y]|]; [|discriminate].
      intros H; injection H as <-; eexists; repeat split; simpl; lia.
    + intros H; injection H as <-; eexists; repeat split; simpl; lia.
    + intros H; injection H as <-; eexists; repeat split; simpl; lia.
Qed.

Lemma mouse_press_release_pair_witness :
  mousePressEvent plain_widget
    (MkQMouseEvent MouseEventNotSynthesized RightButton (MkQPoint 5 6)) =
    Some [BeginTilt 5 6; BaseMousePressEvent] /\
  exists es',
    mouseReleaseEvent plain_widget
      (MkQMouseEvent MouseEventNotSynthesized RightButton (MkQPoint 900 (-4))) = Some es' /\
    existsb is_begin_tilt [BeginTilt 5 6; BaseMousePressEvent] = existsb is_end_tilt es'.
Proof.
  split; [reflexivity|].
  destruct (mouse_press_release_pair plain_widget MouseEventNotSynthesized RightButton
              (MkQPoint 5 6) (MkQPoint 900 (-4)) [BeginTilt 5 6; BaseMousePressEvent] eq_refl)
    as (es' & Hrel & _ & Htilt & _).
  exists es'; split; [exact Hrel | exact Htilt].
Defined.

(** ** More on the framebuffer layout *)

Lemma run_not_shown :
  forall ops w w' es,
    run w ops = Some (w', es) ->
    existsb is_show ops = false ->
    screenChanged w' = screenChanged w.
Proof.
  induction ops as [|o ops IH]; intros w w' es; simpl.
  - intros H _; injection H as <- _; reflexivity.
  - destruct (apply_op w o) as [[w1 e1]|] eqn:H1; [|discriminate].
    destruct (run w1 ops) as [[w2 e2]|] eqn:H2; [|discriminate].
    intros H Hno; injection H as <- _.
    apply orb_false_iff in Hno as [Ho Hops].
    rewrite (IH w1 w2 e2 H2 Hops).
    rewrite (apply_op_connections w o w1 e1 H1), Ho; reflexivity.
Qed.

(** X17.  Until the widget has been shown a screen change recomputes
    nothing: for a widget that got no show event since it was built, a change
    of screen forwards no [UpdateCurrentFramebufferLayout] at all, whatever
    else was delivered before. *)
Theorem screen_change_before_show :
  forall iw ih r0 ops w es ratio,
    run (fresh iw ih r0) ops = Some (w, es) ->
    existsb is_show ops = false ->
    apply_op w (OpScreenChanged ratio) = Some (with_ratio ratio w, []).
Proof.
  intros iw ih r0 ops w es ratio Hrun Hno.
  pose proof (run_not_shown ops _ w es Hrun Hno) as Hc.
  simpl in Hc; simpl; rewrite Hc; reflexivity.
Qed.

Lemma screen_change_before_show_witness :
  run plain_widget [OpResize 800 600; OpPollEvents] =
    Some (Widget true 800 600 (of_int 1) [] None None,
          [UpdateCurrentFramebufferLayout 800 600; FirstFrameDisplayed]) /\
  existsb is_show [OpResize 800 600; OpPollEvents] = false /\
  apply_op (Widget true 800 600 (of_int 1) [] None None) (OpScreenChanged (of_int 2)) =
    Some (Widget true 800 600 (of_int 2) [] None None, []).
Proof.
  split; [vm_compute; reflexivity|].
  split; [reflexivity|].
  apply (screen_change_before_show 1280 720 (of_int 1) [OpResize 800 600; OpPollEvents]
           (Widget true 800 600 (of_int 1) [] None None)
           [UpdateCurrentFramebufferLayout 800 600; FirstFrameDisplayed] (of_int 2));
    [vm_compute; reflexivity | reflexivity].
Defined.

(** ** More on the OpenGL check and the render target *)

Lemma NoDup_map_filter :
  forall (A B : Type) (f : A -> B) (p : A -> bool) (l : list A),
    NoDup (map f l) -> NoDup (map f (filter p l)).
Proof.
  intros A B f p l; induction l as [|x l IH]; simpl; intros H; [constructor|].
  inversion H as [|y ys Hnotin Hnodup]; subst.
  destruct (p x); simpl; [|apply IH; exact Hnodup].
  constructor; [|apply IH; exact Hnodup].
  intros Hin; apply Hnotin.
  apply in_map_iff in Hin as (z & Hz & Hin).
  apply filter_In in Hin as [Hin _].
  apply in_map_iff; exists z; auto.
Qed.

Lemma required_names_distinct : NoDup (map fst required_extensions).
Proof.
  simpl.
  repeat (constructor;
          [simpl; intros H;
           repeat (destruct H as [H|H]; [discriminate H|]); exact H|]).
  constructor.
Qed.

Lemma log_unsupported_all_logs :
  forall l, filter is_log (log_unsupported l) = log_unsupported l.
Proof.
  induction l as [|x l IH]; [reflexivity|].
  change (log_unsupported (x :: l))
    with (LogCritical ("Unsupported GL extension: " ++ x)%string :: log_unsupported l).
  cbn [filter is_log]; rewrite IH; reflexivity.
Qed.

(** X18.  The list of unsupported extensions names each missing extension
    once: it has no duplicates, at most nine entries, all of them names of
    required extensions.  [LoadOpenGL] writes one critical log line for each
    of them, in the same order, when the GL functions were loaded, and none
    when loading failed. *)
Theorem unsupported_extensions_listed_once :
  forall g,
    NoDup (GetUnsupportedGLExtensions g) /\
    (List.length (GetUnsupportedGLExtensions g) <= 9)%nat /\
    (forall name,
        In name (GetUnsupportedGLExtensions g) ->
        In name (map fst required_extensions)) /\
    filter is_log (snd (LoadOpenGL g)) =
      (if gladLoadGL g
       then log_unsupported (GetUnsupportedGLExtensions g)
       else []).
Proof.
  intros g.
  pose proof (GetUnsupportedGLExtensions_table g) as Htab.
  split; [|split; [|split]].
  - rewrite Htab; apply NoDup_map_filter, required_names_distinct.
  - rewrite Htab, length_map.
    pose proof (filter_length_le (unsupported_in g) required_extensions) as H.
    change (List.length required_extensions) with 9%nat in H; exact H.
  - intros name; rewrite Htab.
    intros Hin; apply in_map_iff in Hin as (e & He & Hin).
    apply filter_In in Hin as [Hin _].
    apply in_map_iff; exists e; auto.
  - unfold LoadOpenGL.
    destruct (gladLoadGL g); cbn [negb]; [|reflexivity].
    destruct (GetUnsupportedGLExtensions g) as [|x l]; [reflexivity|].
    cbn [snd]; rewrite filter_app, log_unsupported_all_logs; cbn [filter is_log].
    apply app_nil_r.
Qed.

Lemma LoadOpenGL_cases :
  forall g,
    filter is_layout_update (snd (LoadOpenGL g)) = [] /\
    if fst (LoadOpenGL g)
    then filter is_dialog (snd (LoadOpenGL g)) = [] /\
         gladLoadGL g = true /\ GetUnsupportedGLExtensions g = []
    else List.length (filter is_dialog (snd (LoadOpenGL g))) = 1%nat.
Proof.
  intros g; unfold LoadOpenGL.
  assert (Hl : forall l, filter is_layout_update (log_unsupported l) = [])
    by (induction l as [|x l IH]; simpl; auto).
  destruct (gladLoadGL g); cbn [negb]; [|split; reflexivity].
  destruct (GetUnsupportedGLExtensions g) as [|x l]; cbn [fst snd].
  - split; [reflexivity|]. split; [reflexivity|]. split; reflexivity.
  - rewrite !filter_app, Hl, log_unsupported_no_dialog; split; reflexivity.
Qed.

(** What the initialisation of the backend leaves behind. *)
Lemma Initialize_outcome :
  forall env w w' ready e,
    match renderer_backend env with
    | OpenGL => InitializeOpenGL env w
    | Vulkan => InitializeVulkan env w
    end = Some (w', ready, e) ->
    filter is_layout_update e = [] /\
    if ready
    then filter is_dialog e = [] /\
         match renderer_backend env with
         | OpenGL =>
             has_opengl env = true /\
             main_context w' = Some (OpenGLSharedContext (GLContext_Create env 2))
         | Vulkan =>
             has_vulkan env = true /\ main_context w' = Some DummyContext
         end
    else w' = w /\
         (List.length (filter is_dialog e) = 1%nat \/
          (renderer_backend env = OpenGL /\ has_opengl env = true /\
           g_first_context env = false /\ GLContext_Create env 0 = false /\ e = [])).
Proof.
  intros env w w' ready e.
  destruct (renderer_backend env) eqn:Hback.
  - unfold InitializeOpenGL.
    destruct (has_opengl env) eqn:Hgl.
    + destruct (g_first_context env) eqn:Hfirst, (GLContext_Create env 0) eqn:H0;
        cbn [negb andb]; try discriminate.
      * unfold new_main_context, new_shared_context.
        destruct (GLContext_Create env 2), (GLContext_Create env 3);
          try discriminate;
          destruct (drop (child_context w)); try discriminate;
          destruct (drop (main_context w)); try discriminate;
          intros H; injection H as <- <- <-; repeat split; reflexivity.
      * unfold new_main_context, new_shared_context.
        destruct (GLContext_Create env 2), (GLContext_Create env 3);
          try discriminate;
          destruct (drop (child_context w)); try discriminate;
          destruct (drop (main_context w)); try discriminate;
          intros H; injection H as <- <- <-; repeat split; reflexivity.
      * intros H; injection H as <- <- <-.
        split; [reflexivity|]. split; [reflexivity|].
        right; repeat split; reflexivity.
    + intros H; injection H as <- <- <-.
      split; [reflexivity|]. split; [reflexivity|]. left; reflexivity.
  - unfold InitializeVulkan.
    destruct (has_vulkan env) eqn:Hvk.
    + destruct (drop (main_context w)); [|discriminate].
      intros H; injection H as <- <- <-; repeat split; reflexivity.
    + intros H; injection H as <- <- <-.
      split; [reflexivity|]. split; [reflexivity|]. left; reflexivity.
Qed.

(** The check runs in a context shared with a main context that holds one. *)
Lemma LoadOpenGL_in_context_main :
  forall env w loaded e,
    renderer_backend env = OpenGL -> has_opengl env = true ->
    LoadOpenGL_in_context env w = Some (loaded, e) ->
    main_context w = Some (OpenGLSharedContext true).
Proof.
  intros env w loaded e Hback Hgl H; unfold LoadOpenGL_in_context in H.
  apply and_then_inv in H as (context & e1 & e2 & Hc & H & _).
  destruct (LoadOpenGL (driver env)) as [l e3].
  destruct (destroy context) eqn:Hd; [|discriminate].
  unfold CreateSharedContext in Hc; rewrite Hgl, Hback in Hc.
  destruct (main_context w) as [[share|]|]; try discriminate.
  unfold new_shared_context in Hc.
  destruct (GLContext_Create env 4).
  - destruct share; [reflexivity | discriminate].
  - injection Hc as <- _; discriminate.
Qed.

Lemma filter_layout_updates :
  forall l, forallb is_layout_update l = true -> filter is_layout_update l = l.
Proof.
  induction l as [|x l IH]; [reflexivity|].
  cbn [forallb filter]; intros H; apply andb_true_iff in H as [Hx Hl].
  rewrite Hx, IH by exact Hl; reflexivity.
Qed.

Lemma layout_updates_no_dialog :
  forall l, forallb is_layout_update l = true -> filter is_dialog l = [].
Proof.
  induction l as [|x l IH]; [reflexivity|].
  cbn [forallb filter]; intros H; apply andb_true_iff in H as [Hx Hl].
  destruct x; try discriminate Hx; cbn [is_dialog]; apply IH; exact Hl.
Qed.

(** X19.  What [InitRenderTarget] leaves behind.  It shows at most one
    dialog.  When it returns true it has shown none, it has recomputed the
    framebuffer layout, the layout it forwarded last is that of the size the
    widget has on return, and the backend is usable: for OpenGL the build has
    it, the main context holds a GL context, the GL functions are loaded and
    no required extension is missing; for Vulkan the build has it and the
    main context is a dummy.  When it returns false it has shown exactly one
    dialog, except when there was no earlier context and the first one could
    not be created, which fails without a word.  And when no layout was
    forwarded it returned false and the widget kept its size. *)
Theorem InitRenderTarget_outcome :
  forall env w w1 result es,
    InitRenderTarget env w = Some (w1, result, es) ->
    (List.length (filter is_dialog es) <= 1)%nat /\
    (result = true ->
     filter is_dialog es = [] /\
     (exists before fw fh,
         filter is_layout_update es =
           before ++ [UpdateCurrentFramebufferLayout fw fh] /\
         OnFramebufferSizeChanged w1 =
           Some [UpdateCurrentFramebufferLayout fw fh]) /\
     match renderer_backend env with
     | OpenGL =>
         has_opengl env = true /\
         main_context w1 = Some (OpenGLSharedContext true) /\
         gladLoadGL (driver env) = true /\
         GetUnsupportedGLExtensions (driver env) = []
     | Vulkan => has_vulkan env = true /\ main_context w1 = Some DummyContext
     end) /\
    (result = false ->
     List.length (filter is_dialog es) = 1%nat \/
     (renderer_backend env = OpenGL /\ has_opengl env = true /\
      g_first_context env = false /\ GLContext_Create env 0 = false /\ es = [])) /\
    (filter is_layout_update es = [] ->
     result = false /\ width w1 = width w /\ height w1 = height w).
Proof.
  intros env w w1 result es; unfold InitRenderTarget.
  destruct (ReleaseRenderTarget w) as [w0|] eqn:H0; [|discriminate].
  apply ReleaseRenderTarget_inv in H0; subst w0.
  destruct (match renderer_backend env with
            | OpenGL => InitializeOpenGL env _
            | Vulkan => InitializeVulkan env _
            end) as [[[w2 ready] e1]|] eqn:H2; [|discriminate].
  apply Initialize_outcome in H2 as [Hlay1 H2].
  destruct ready.
  - destruct H2 as [Hd1 Hctx].
    destruct (reset_size env w2) as [[w3 e2]|] eqn:H3; [|discriminate].
    apply reset_size_inv in H3 as (Hw3 & before & fw & fh & -> & Hbefore & Hlast).
    assert (Hmain : main_context w3 = main_context w2) by (rewrite Hw3; reflexivity).
    assert (Hd2 : filter is_dialog (before ++ [UpdateCurrentFramebufferLayout fw fh]) = [])
      by (rewrite filter_app, (layout_updates_no_dialog _ Hbefore); reflexivity).
    assert (Hl2 : filter is_layout_update (before ++ [UpdateCurrentFramebufferLayout fw fh])
                  = before ++ [UpdateCurrentFramebufferLayout fw fh])
      by (rewrite filter_app, (filter_layout_updates _ Hbefore); reflexivity).
    destruct (renderer_backend env) eqn:Hback.
    + destruct Hctx as [Hgl Hm2].
      destruct (LoadOpenGL_in_context env w3) as [[loaded e3]|] eqn:H4; [|discriminate].
      pose proof (LoadOpenGL_in_context_main _ _ _ _ Hback Hgl H4) as Hm3.
      apply LoadOpenGL_in_context_inv in H4 as [-> ->].
      pose proof (LoadOpenGL_cases (driver env)) as [Hlay3 Hcase].
      intros H; injection H as <- <- <-.
      set (e2 := before ++ [UpdateCurrentFramebufferLayout fw fh]) in *.
      rewrite !filter_app, Hd1, Hd2, Hlay1, Hl2, Hlay3, app_nil_r; cbn [app].
      unfold e2.
      destruct (fst (LoadOpenGL (driver env))).
      * destruct Hcase as (Hd3 & Hload & Hext); rewrite Hd3.
        split; [simpl; lia|].
        split; [|split; [discriminate|]].
        -- intros _; split; [reflexivity|].
           split; [exists before, fw, fh; split; [reflexivity | exact Hlast]|].
           repeat split; assumption.
        -- intros E; destruct before; discriminate E.
      * rewrite Hcase.
        split; [lia|]. split; [discriminate|].
        split; [left; reflexivity|].
        intros E; destruct before; discriminate E.
    + destruct Hctx as [Hvk Hm2].
      intros H; injection H as <- <- <-.
      set (e2 := before ++ [UpdateCurrentFramebufferLayout fw fh]) in *.
      rewrite !filter_app, Hd1, Hd2, Hlay1, Hl2; cbn [app].
      unfold e2.
      split; [simpl; lia|].
      split; [|split; [discriminate|]].
      * intros _; split; [reflexivity|].
        split; [exists before, fw, fh; split; [reflexivity | exact Hlast]|].
        split; [exact Hvk | rewrite Hmain; exact Hm2].
      * intros E; destruct before; discriminate E.
  - destruct H2 as [-> Hfail].
    intros H; injection H as <- <- <-.
    split; [destruct Hfail as [-> | (_ & _ & _ & _ & ->)]; simpl; lia|].
    split; [discriminate|].
    split; [intros _; exact Hfail|].
    intros _; repeat split; reflexivity.
Qed.

Lemma InitRenderTarget_outcome_witness :
  InitRenderTarget visible_env (fresh 100 100 (of_int 1)) =
    Some (Widget false 1280 720 (of_int 1) []
            (Some (OpenGLSharedContext true)) (Some (OpenGLSharedContext true)),
          true,
          [UpdateCurrentFramebufferLayout 1280 720;
           UpdateCurrentFramebufferLayout 1280 720]) /\
  gladLoadGL (driver visible_env) = true /\
  GetUnsupportedGLExtensions (driver visible_env) = [] /\
  InitRenderTarget no_context_env used_widget = None.
Proof.
  split; [vm_compute; reflexivity|].
  destruct (InitRenderTarget_outcome visible_env (fresh 100 100 (of_int 1))
              (Widget false 1280 720 (of_int 1) []
                 (Some (OpenGLSharedContext true)) (Some (OpenGLSharedContext true)))
              true
              [UpdateCurrentFramebufferLayout 1280 720;
               UpdateCurrentFramebufferLayout 1280 720]
              ltac:(vm_compute; reflexivity))
    as (_ & Htrue & _).
  destruct (Htrue eq_refl) as (_ & _ & _ & _ & Hload & Hext).
  split; [exact Hload|]. split; [exact Hext|].
  vm_compute; reflexivity.
Defined.

(** ** Window geometry *)

Section GeometryFacts.

Context {qwidget : Type}.
Variable QWidget_saveGeometry : qwidget -> QByteArray.
Variable QWidget_restoreGeometry : QByteArray -> qwidget -> qwidget.

Lemma geometry_kept :
  forall cs v,
    forallb (fun c => negb (is_backup c)) cs = true ->
    geometry (geometry_run QWidget_saveGeometry QWidget_restoreGeometry v cs)
    = geometry v.
Proof.
  induction cs as [|c cs IH]; intros v Hcs; [reflexivity|].
  simpl in Hcs; apply andb_true_iff in Hcs as [Hc Hcs].
  unfold geometry_run in *; simpl.
  rewrite IH by exact Hcs.
  destruct c; try discriminate; reflexivity.
Qed.

(** X21.  The render window keeps the geometry it was last given: after
    [restoreGeometry(g)] the member [geometry] holds what Qt saved right after
    restoring [g], and it keeps holding it through Qt moving the widget,
    through reparenting and through [RestoreGeometry()], until the next
    backup.  In that time a window with a parent answers [saveGeometry()]
    with that backup, a top-level one with its current Qt geometry, and
    [RestoreGeometry()] hands that backup back to Qt. *)
Theorem geometry_backup_survives :
  forall v g cs,
    forallb (fun c => negb (is_backup c)) cs = true ->
    let backup :=
      QWidget_saveGeometry (QWidget_restoreGeometry g (qt v)) in
    let v' :=
      geometry_run QWidget_saveGeometry QWidget_restoreGeometry
        (restoreGeometry QWidget_saveGeometry QWidget_restoreGeometry g v) cs in
    geometry v' = backup /\
    (has_parent v' = true -> saveGeometry QWidget_saveGeometry v' = backup) /\
    (has_parent v' = false ->
     saveGeometry QWidget_saveGeometry v' = QWidget_saveGeometry (qt v')) /\
    qt (RestoreGeometry QWidget_restoreGeometry v')
      = QWidget_restoreGeometry backup (qt v').
Proof.
  intros v g cs Hcs backup v'.
  assert (Hg : geometry v' = backup)
    by (unfold v'; rewrite geometry_kept by exact Hcs; reflexivity).
  split; [exact Hg|].
  unfold saveGeometry, RestoreGeometry; cbn [qt].
  rewrite Hg.
  split; [intros ->; reflexivity|].
  split; [intros ->; reflexivity | reflexivity].
Qed.

End GeometryFacts.

Lemma geometry_backup_survives_witness :
  forallb (fun c => negb (is_backup c))
    [QtChanges (fun _ => [Byte.x09]); QtSetParent true; CallRestoreGeometry] = true /\
  saveGeometry (fun s => s)
    (geometry_run (fun s => s) (fun g _ => g)
       (restoreGeometry (fun s => s) (fun g _ => g) [Byte.x01; Byte.x02]
          (Window [Byte.x00] [] false))
       [QtChanges (fun _ => [Byte.x09]); QtSetParent true; CallRestoreGeometry])
  = [Byte.x01; Byte.x02].
Proof.
  split; [reflexivity|].
  destruct (geometry_backup_survives (fun s => s) (fun g _ => g)
              (Window [Byte.x00] [] false) [Byte.x01; Byte.x02]
              [QtChanges (fun _ => [Byte.x09]); QtSetParent true; CallRestoreGeometry]
              eq_refl) as (_ & Hdocked & _).
  apply Hdocked; reflexivity.
Defined.

End GRenderWindowFacts.
